(** * bc4: the API-access core (pagination, rate limiter, activity feed,
      request classification, Markdown to rich text), embedded from the Go
      sources and checked against the written specification.

    Conventions of the embedding:
    - a Go string is a Rocq [string], a sequence of 8-bit bytes;
    - a Go int, int64 or time.Duration is a [Z]; where the source can
      leave the 64-bit range the wrap-around is written with [wrap64];
    - a time.Time is an instant on the time line, a [Z] counting
      nanoseconds, compared as Before, After and Equal compare instants;
    - a Go map is a [gmap], a slice is a [list];
    - effects (the slice of the caller, the limiter, the requests issued)
      are threaded explicitly.

    Part I holds the definitions, Part II the theorems. *)

From Stdlib Require Import ZArith Ascii String List Bool Lia Permutation Sorted.
From Stdlib Require Import DecimalString.
From stdpp Require Import gmap strings list.

Local Open Scope string_scope.
Local Open Scope list_scope.
Local Open Scope Z_scope.

(** * Part I: the program *)

(** ** Machine integers *)

Definition min_int64 : Z := - 2 ^ 63.
Definition max_int64 : Z := 2 ^ 63 - 1.

(** The value an int64 computation keeps of the mathematical result [z]. *)
Definition wrap64 (z : Z) : Z := (z + 2 ^ 63) mod 2 ^ 64 - 2 ^ 63.

Definition in_int64 (z : Z) : Prop := min_int64 <= z <= max_int64.

(** ** Bytes *)

Definition byte_is (n : nat) (c : ascii) : bool := Nat.eqb (nat_of_ascii c) n.

Definition byte_in (lo hi : nat) (c : ascii) : bool :=
  Nat.leb lo (nat_of_ascii c) && Nat.leb (nat_of_ascii c) hi.

(** The double quote, written by its code. *)
Definition dquote : ascii := ascii_of_nat 34.
Definition backslash : ascii := ascii_of_nat 92.
Definition tab : ascii := ascii_of_nat 9.
Definition newline : ascii := ascii_of_nat 10.

Definition str (c : ascii) : string := String c EmptyString.

(** ** Go's [strings] package, as far as the sources use it *)

Module gostrings.

Fixpoint HasPrefix (s prefix : string) : bool :=
  match prefix, s with
  | EmptyString, _ => true
  | String p prefix', String c s' => Ascii.eqb c p && HasPrefix s' prefix'
  | String _ _, EmptyString => false
  end.

Fixpoint drop (n : nat) (s : string) : string :=
  match n, s with
  | O, _ => s
  | S n', String _ s' => drop n' s'
  | S _, EmptyString => EmptyString
  end.

Fixpoint take (n : nat) (s : string) : string :=
  match n, s with
  | O, _ => EmptyString
  | S n', String c s' => String c (take n' s')
  | S _, EmptyString => EmptyString
  end.

Fixpoint rev_onto (s acc : string) : string :=
  match s with
  | EmptyString => acc
  | String c s' => rev_onto s' (String c acc)
  end.

Definition reverse (s : string) : string := rev_onto s EmptyString.

Definition HasSuffix (s suffix : string) : bool :=
  HasPrefix (reverse s) (reverse suffix).

Definition TrimPrefix (s prefix : string) : string :=
  if HasPrefix s prefix then drop (String.length prefix) s else s.

Definition TrimSuffix (s suffix : string) : string :=
  if HasSuffix s suffix
  then take (String.length s - String.length suffix) s
  else s.

Fixpoint Contains (s substr : string) : bool :=
  HasPrefix s substr ||
  match s with
  | EmptyString => false
  | String _ s' => Contains s' substr
  end.

(** [ReplaceAll s old new] for a non-empty [old]: the non-overlapping
    occurrences of [old], found from the left, become [new].  [skip] counts
    the bytes of the occurrence just replaced that are still to be passed. *)
Fixpoint ReplaceAll_from (skip : nat) (s old new : string) : string :=
  match s with
  | EmptyString => EmptyString
  | String c s' =>
    match skip with
    | S k => ReplaceAll_from k s' old new
    | O =>
      if HasPrefix s old
      then new +:+ ReplaceAll_from (String.length old - 1) s' old new
      else String c (ReplaceAll_from O s' old new)
    end
  end.

Definition ReplaceAll (s old new : string) : string :=
  ReplaceAll_from O s old new.

(** [Split s sep] for a one-byte separator. *)
Fixpoint Split_byte (s : string) (sep : ascii) (cur : string) : list string :=
  match s with
  | EmptyString => [reverse cur]
  | String c s' =>
    if Ascii.eqb c sep
    then reverse cur :: Split_byte s' sep EmptyString
    else Split_byte s' sep (String c cur)
  end.

Definition Split (s : string) (sep : ascii) : list string :=
  Split_byte s sep EmptyString.

Fixpoint Join (elems : list string) (sep : string) : string :=
  match elems with
  | [] => EmptyString
  | [e] => e
  | e :: rest => e +:+ sep +:+ Join rest sep
  end.

(** [TrimLeft], [TrimRight] and [Trim] for a one-byte cutset. *)
Fixpoint TrimLeft (s : string) (cut : ascii) : string :=
  match s with
  | String c s' => if Ascii.eqb c cut then TrimLeft s' cut else s
  | EmptyString => EmptyString
  end.

Definition TrimRight (s : string) (cut : ascii) : string :=
  reverse (TrimLeft (reverse s) cut).

Definition Trim (s : string) (cut : ascii) : string :=
  TrimRight (TrimLeft s cut) cut.

(** unicode.IsSpace on the bytes of a string.  [space_width s] is the
    number of bytes of the white-space rune whose UTF-8 encoding starts
    [s], and 0 when [s] starts with no such rune: the six ASCII spaces,
    U+0085, U+00A0, U+1680, U+2000 to U+200A, U+2028, U+2029, U+202F,
    U+205F and U+3000. *)
Definition is_ascii_space (c : ascii) : bool :=
  byte_in 9 13 c || byte_is 32 c.

Definition space_width (s : string) : nat :=
  match s with
  | EmptyString => 0%nat
  | String c r =>
    if is_ascii_space c then 1%nat
    else match r with
    | String d1 r1 =>
      if byte_is 194 c && (byte_is 133 d1 || byte_is 160 d1) then 2%nat
      else match r1 with
      | String d2 _ =>
        if byte_is 225 c && byte_is 154 d1 && byte_is 128 d2 then 3%nat
        else if byte_is 226 c && byte_is 128 d1 &&
                (byte_in 128 138 d2 || byte_in 168 169 d2 || byte_is 175 d2)
        then 3%nat
        else if byte_is 226 c && byte_is 129 d1 && byte_is 159 d2 then 3%nat
        else if byte_is 227 c && byte_is 128 d1 && byte_is 128 d2 then 3%nat
        else 0%nat
      | EmptyString => 0%nat
      end
    | EmptyString => 0%nat
    end
  end.

(** The same for the white-space rune that ends a string, on the reversed
    string. *)
Definition space_width_rev (r : string) : nat :=
  match r with
  | EmptyString => 0%nat
  | String c _ =>
    if is_ascii_space c then 1%nat
    else
      let two := reverse (take 2 r) in
      let three := reverse (take 3 r) in
      if Nat.eqb (String.length two) 2 && Nat.eqb (space_width two) 2 then 2%nat
      else if Nat.eqb (String.length three) 3 && Nat.eqb (space_width three) 3
      then 3%nat
      else 0%nat
  end.

Fixpoint trim_by (width : string -> nat) (skip : nat) (s : string) : string :=
  match s with
  | EmptyString => EmptyString
  | String _ s' =>
    match skip with
    | S k => trim_by width k s'
    | O =>
      match width s with
      | O => s
      | S k => trim_by width k s'
      end
    end
  end.

Definition TrimSpace (s : string) : string :=
  reverse (trim_by space_width_rev 0 (reverse (trim_by space_width 0 s))).

(** [Fields]: the maximal runs of bytes between white-space runes. *)
Definition flush (cur : string) : list string :=
  match cur with
  | EmptyString => []
  | _ => [reverse cur]
  end.

Fixpoint Fields_from (skip : nat) (s cur : string) : list string :=
  match s with
  | EmptyString => flush cur
  | String c s' =>
    match skip with
    | S k => Fields_from k s' cur
    | O =>
      match space_width s with
      | O => Fields_from O s' (String c cur)
      | S k => flush cur ++ Fields_from k s' EmptyString
      end
    end
  end.

Definition Fields (s : string) : list string := Fields_from 0 s EmptyString.

Definition lower_byte (c : ascii) : ascii :=
  if byte_in 65 90 c then ascii_of_nat (nat_of_ascii c + 32) else c.

(** [ToLower] on the ASCII letters; the sources apply it to what the
    patterns [[a-zA-Z][a-zA-Z0-9-]*] and [\w+] captured, which is ASCII. *)
Fixpoint ToLower (s : string) : string :=
  match s with
  | EmptyString => EmptyString
  | String c s' => String (lower_byte c) (ToLower s')
  end.

(** [EqualFold] by ASCII case.  The sources compare with the word next
    only, and no rune outside ASCII folds to one of its letters. *)
Fixpoint EqualFold (s t : string) : bool :=
  match s, t with
  | EmptyString, EmptyString => true
  | String a s', String b t' =>
    Ascii.eqb (lower_byte a) (lower_byte b) && EqualFold s' t'
  | _, _ => false
  end.

End gostrings.

(** ** Go's [time] package, as far as the sources use it *)

Module time.

(** An instant, in nanoseconds. *)
Definition Time : Type := Z.

(** A Duration is an int64 count of nanoseconds. *)
Definition Duration : Type := Z.

Definition Before (t u : Time) : bool := t <? u.
Definition After (t u : Time) : bool := u <? t.
Definition Equal (t u : Time) : bool := t =? u.

(** [t.Sub(u)] saturates at the ends of the Duration range. *)
Definition Sub (t u : Time) : Duration :=
  Z.max min_int64 (Z.min max_int64 (t - u)).

Definition Add (t : Time) (d : Duration) : Time := t + d.

Definition Millisecond : Duration := 1000000.
Definition Second : Duration := 1000 * Millisecond.
Definition Minute : Duration := 60 * Second.
Definition Hour : Duration := 60 * Minute.

End time.

(** ** Errors

    A Go [error] value.  [errorString] is what fmt.Errorf builds from a
    format with no wrapping verb, [wrapError] what it builds with one
    ([prefix: %w]).  The three typed errors come from the package
    internal/errors. *)

Inductive error : Type :=
| errorString (msg : string)
| wrapError (prefix : string) (err : error)
| AuthenticationError (cause : error)
| NotFoundError (resource id : string) (cause : error)
| APIError (statusCode : Z) (body : string)
| APIErrorCaused (statusCode : Z) (body : string) (cause : error).

(** Modelled from the spec: errors.NewAuthenticationError, of the package
    internal/errors whose source is not among the repository files; the
    taxonomy of the specification has it build the authentication error of
    a remote 401. *)
Definition NewAuthenticationError (cause : error) : error :=
  AuthenticationError cause.

(** Modelled from the spec: errors.NewNotFoundError, of the same package;
    the not-found error of a remote 404, which carries the best-guess
    resource name. *)
Definition NewNotFoundError (resource id : string) (cause : error) : error :=
  NotFoundError resource id cause.

(** Modelled from the spec: errors.NewAPIError, of the same package; the
    generic API error, which carries the status code and the raw body. *)
Definition NewAPIError (statusCode : Z) (body : string)
    (cause : option error) : error :=
  match cause with
  | None => APIError statusCode body
  | Some c => APIErrorCaused statusCode body c
  end.

(** The kinds of the error taxonomy. *)
Inductive ErrorKind : Type :=
| KindAuthentication
| KindNotFound
| KindRateLimited
| KindAPI
| KindOther.

Fixpoint kind_of (e : error) : ErrorKind :=
  match e with
  | errorString _ => KindOther
  | wrapError _ e' => kind_of e'
  | AuthenticationError _ => KindAuthentication
  | NotFoundError _ _ _ => KindNotFound
  | APIError _ _ | APIErrorCaused _ _ _ => KindAPI
  end.

(** ** The activity feed: records *)

Record Company := { Company_ID : Z; Company_Name : string }.

Record Person := {
  Person_ID : Z;
  Person_Name : string;
  Person_EmailAddress : string;
  Person_Title : string;
  Person_AvatarURL : string;
  Person_Company : option Company;
  Person_CreatedAt : string;
  Person_Admin : bool;
  Person_Owner : bool
}.

Record Bucket := { Bucket_ID : Z; Bucket_Name : string; Bucket_Type : string }.

Record Parent := {
  Parent_ID : Z;
  Parent_Title : string;
  Parent_Type : string;
  Parent_URL : string;
  Parent_AppURL : string
}.

Record Recording := {
  ID : Z;
  Title : string;
  Status : string;
  Type_ : string;
  CreatedAt : time.Time;
  UpdatedAt : time.Time;
  URL : string;
  AppURL : string;
  Creator : Person;
  Bucket_ : Bucket;
  Parent_ : option Parent
}.

(** ActivityListOptions: [Since] is a pointer in the source, [None] is nil. *)
Record ActivityListOptions := {
  Since : option time.Time;
  RecordingTypes : list string;
  PersonID : Z;
  Limit : Z
}.

(** ** sort.SliceStable

    The standard library sorts blocks of at most 20 elements by the
    insertion sort below and merges the blocks with a stable in-place
    merge: up to 20 elements the function is this insertion sort.  For a
    [less] that is a strict weak order a stable sort has one possible
    output (Part II proves it for the order of [sortRecordings]), so the
    whole function is rendered by its insertion sort. *)

Section SliceStable.
Context {A : Type} (less : A -> A -> bool).

(** The inner loop [for j := i; j > a && less(j, j-1); j-- { swap(j, j-1) }]:
    the element [x] at index [i] moves left through the sorted prefix.  The
    prefix is passed nearest element first. *)
Fixpoint sink (x : A) (rprefix : list A) : list A :=
  match rprefix with
  | [] => [x]
  | y :: r => if less x y then y :: sink x r else x :: y :: r
  end.

(** The outer loop [for i := a + 1; i < b; i++]. *)
Definition insertionSort (data : list A) : list A :=
  rev (fold_left (fun rprefix x => sink x rprefix) data []).

Definition SliceStable (data : list A) : list A := insertionSort data.

End SliceStable.

(** [sortRecordings]: descending by [UpdatedAt]. *)
Definition sortRecordings (recordings : list Recording) : list Recording :=
  SliceStable (fun ri rj => time.After (UpdatedAt ri) (UpdatedAt rj)) recordings.

(** ** filterRecordings *)

(** The body of the loop [for _, r := range recordings]; [filtered] is the
    slice built so far. *)
Fixpoint filterRecordings_loop (opts : ActivityListOptions)
    (recordings filtered : list Recording) : list Recording :=
  match recordings with
  | [] => filtered
  | r :: rest =>
    if match Since opts with
       | Some since => time.Before (UpdatedAt r) since
       | None => false
       end
    then filterRecordings_loop opts rest filtered
    else if (0 <? PersonID opts) && negb (Person_ID (Creator r) =? PersonID opts)
    then filterRecordings_loop opts rest filtered
    else
      let filtered' := filtered ++ [r] in
      if (0 <? Limit opts) && (Limit opts <=? Z.of_nat (length filtered'))
      then filtered'
      else filterRecordings_loop opts rest filtered'
  end.

Definition filterRecordings (recordings : list Recording)
    (opts : ActivityListOptions) : list Recording :=
  filterRecordings_loop opts recordings [].

(** ** Dynamic types: what [reflect] and a type assertion look at *)

Inductive Kind : Type :=
| KBool | KInt | KString | KStruct | KMap | KSlice | KPtr.

(** The kinds of the types the model gives by name. *)
Inductive NamedKind : Type :=
| NBool | NInt | NString | NStruct | NMap.

Definition Kind_of_named (k : NamedKind) : Kind :=
  match k with
  | NBool => KBool
  | NInt => KInt
  | NString => KString
  | NStruct => KStruct
  | NMap => KMap
  end.

(** A type descriptor: a type given by its name and kind, a slice type or
    a pointer type.  A defined type whose underlying type is a slice or a
    pointer is not told apart from its underlying type. *)
Inductive rtype : Type :=
| TNamed (name : string) (k : NamedKind)
| TSlice (elem : rtype)
| TPtr (elem : rtype).

Definition Kind_eqb (a b : Kind) : bool :=
  match a, b with
  | KBool, KBool | KInt, KInt | KString, KString | KStruct, KStruct
  | KMap, KMap | KSlice, KSlice | KPtr, KPtr => true
  | _, _ => false
  end.

Definition NamedKind_eqb (a b : NamedKind) : bool :=
  Kind_eqb (Kind_of_named a) (Kind_of_named b).

Fixpoint rtype_eqb (a b : rtype) : bool :=
  match a, b with
  | TNamed n k, TNamed n' k' => String.eqb n n' && NamedKind_eqb k k'
  | TSlice e, TSlice e' => rtype_eqb e e'
  | TPtr e, TPtr e' => rtype_eqb e e'
  | _, _ => false
  end.

(** [t.Kind()]. *)
Definition rtype_Kind (t : rtype) : Kind :=
  match t with
  | TNamed _ k => Kind_of_named k
  | TSlice _ => KSlice
  | TPtr _ => KPtr
  end.

(** [t.Elem()]; it panics ([None]) for a type that has no element type. *)
Definition rtype_Elem (t : rtype) : option rtype :=
  match t with
  | TSlice e | TPtr e => Some e
  | TNamed _ _ => None
  end.

Definition tRecording : rtype := TNamed "api.Recording" NStruct.

(** A decoded page as the paginator hands it to the page check: an
    interface value holding a slice, its dynamic type beside its
    elements. *)
Record Page (T : Type) := mkPage { page_type : rtype; page_items : list T }.
Arguments mkPage {T}.
Arguments page_type {T}.
Arguments page_items {T}.

(** The closure [listRecordingsByType] installs when [since] is not nil:
    [recs, ok := page.([]Recording)], then the last element is compared
    with the cutoff. *)
Definition sincePageCheck (cutoff : time.Time) (page : Page Recording) : bool :=
  let ok := rtype_eqb (page_type page) (TSlice tRecording) in
  let recs := page_items page in
  if negb ok || Nat.eqb (length recs) 0 then false
  else
    match last recs with
    | Some last_ => negb (time.Before (UpdatedAt last_) cutoff)
    | None => false
    end.

(** ** The rate limiter

    The mutex [mu] makes every method body one critical section; the model
    gives each critical section as a function of the state it finds and of
    the instants time.Now() returns inside it.  A division by zero panics:
    the result is [None]. *)

Record RateLimiter := {
  tokens : Z;
  maxTokens : Z;
  refillRate : time.Duration;
  lastRefill : time.Time
}.

(** The helper [min] of the source. *)
Definition min (a b : Z) : Z := if a <? b then a else b.

Definition NewRateLimiter (now : time.Time) (maxTokens_ : Z)
    (refillDuration : time.Duration) : option RateLimiter :=
  if maxTokens_ =? 0 then None
  else Some {| tokens := maxTokens_;
               maxTokens := maxTokens_;
               refillRate := wrap64 (Z.quot refillDuration maxTokens_);
               lastRefill := now |}.

(** [refill], with [now] the instant time.Now() returns. *)
Definition refill (now : time.Time) (rl : RateLimiter) : option RateLimiter :=
  let elapsed := time.Sub now (lastRefill rl) in
  if refillRate rl =? 0 then None
  else
    let tokensToAdd := wrap64 (Z.quot elapsed (refillRate rl)) in
    if 0 <? tokensToAdd
    then Some {| tokens := min (wrap64 (tokens rl + tokensToAdd)) (maxTokens rl);
                 maxTokens := maxTokens rl;
                 refillRate := refillRate rl;
                 lastRefill := time.Add (lastRefill rl)
                                 (wrap64 (tokensToAdd * refillRate rl)) |}
    else Some rl.

Definition take_token (rl : RateLimiter) : RateLimiter :=
  {| tokens := tokens rl - 1;
     maxTokens := maxTokens rl;
     refillRate := refillRate rl;
     lastRefill := lastRefill rl |}.

Definition TryAcquire (now : time.Time) (rl : RateLimiter)
    : option (RateLimiter * bool) :=
  match refill now rl with
  | None => None
  | Some rl1 =>
    if 0 <? tokens rl1 then Some (take_token rl1, true) else Some (rl1, false)
  end.

(** One turn of the loop of [Wait], from taking the lock to returning or to
    releasing the lock for the sleep.  [now] is read by [refill], [now'] by
    time.Since. *)
Inductive WaitStep : Type :=
| Acquired
| Sleeps (waitTime : time.Duration).

Definition Wait_turn (now now' : time.Time) (rl : RateLimiter)
    : option (RateLimiter * WaitStep) :=
  match refill now rl with
  | None => None
  | Some rl1 =>
    if 0 <? tokens rl1 then Some (take_token rl1, Acquired)
    else
      let waitTime := wrap64 (refillRate rl1 - time.Sub now' (lastRefill rl1)) in
      let waitTime := if waitTime <=? 0 then refillRate rl1 else waitTime in
      Some (rl1, Sleeps waitTime)
  end.

(** [Wait] on its own, given the pairs of instants its turns read: it
    returns in the first turn that finds a token. *)
Inductive WaitResult : Type :=
| WaitReturned
| WaitStillSleeping
| WaitPanicked.

Fixpoint Wait (clock : list (time.Time * time.Time)) (rl : RateLimiter)
    : RateLimiter * WaitResult :=
  match clock with
  | [] => (rl, WaitStillSleeping)
  | (now, now') :: clock' =>
    match Wait_turn now now' rl with
    | None => (rl, WaitPanicked)
    | Some (rl1, Acquired) => (rl1, WaitReturned)
    | Some (rl1, Sleeps _) => Wait clock' rl1
    end
  end.

Definition Reset (now : time.Time) (rl : RateLimiter) : RateLimiter :=
  {| tokens := maxTokens rl;
     maxTokens := maxTokens rl;
     refillRate := refillRate rl;
     lastRefill := now |}.

(** The critical sections that goroutines sharing one limiter interleave. *)
Inductive LimiterOp : Type :=
| OpWaitTurn (now now' : time.Time)
| OpTryAcquire (now : time.Time)
| OpReset (now : time.Time).

Definition limiter_step (op : LimiterOp) (rl : RateLimiter)
    : option RateLimiter :=
  match op with
  | OpWaitTurn now now' => fst <$> Wait_turn now now' rl
  | OpTryAcquire now => fst <$> TryAcquire now rl
  | OpReset now => Some (Reset now rl)
  end.

Fixpoint limiter_run (ops : list LimiterOp) (rl : RateLimiter)
    : option RateLimiter :=
  match ops with
  | [] => Some rl
  | op :: ops' =>
    match limiter_step op rl with
    | None => None
    | Some rl1 => limiter_run ops' rl1
    end
  end.

(** The invariant of the data model. *)
Definition limiter_inv (rl : RateLimiter) : Prop :=
  0 <= tokens rl <= maxTokens rl.

(** The refill at [now] stays inside the int range. *)
Definition refill_fits (now : time.Time) (rl : RateLimiter) : Prop :=
  tokens rl + Z.quot (time.Sub now (lastRefill rl)) (refillRate rl) <= max_int64.

(** A configuration for which every refill fits, whatever the instant. *)
Definition limiter_config_ok (rl : RateLimiter) : Prop :=
  0 < refillRate rl /\
  maxTokens rl + Z.quot max_int64 (refillRate rl) <= max_int64.

(** ** The Link header parser *)

Record LinkEntry := {
  LinkEntry_URL : string;
  Params : gmap string string
}.

(** [hasRelation]: the value of the parameter rel, its quotes trimmed, is
    split at white space and each word compared without regard to case. *)
Definition hasRelation (le : LinkEntry) (rel : string) : bool :=
  match Params le !! "rel" with
  | Some relValue =>
    let relValue := gostrings.Trim relValue dquote in
    let relations := gostrings.Fields relValue in
    existsb (fun r => gostrings.EqualFold r rel) relations
  | None => false
  end.

Definition is_sp_tab (c : ascii) : bool :=
  Ascii.eqb c " " || Ascii.eqb c tab.

(** The scanning loops of [parseLinkHeaderEntries] work on the rest of the
    header from index [i] on; advancing [i] drops bytes from the front. *)

(** [for i < len && (h[i] == ' ' || h[i] == '\t') { i++ }] *)
Fixpoint skip_blank (s : string) : string :=
  match s with
  | String c s' => if is_sp_tab c then skip_blank s' else s
  | EmptyString => EmptyString
  end.

(** The same loop with the semicolon added. *)
Fixpoint skip_blank_semi (s : string) : string :=
  match s with
  | String c s' =>
    if is_sp_tab c || Ascii.eqb c ";" then skip_blank_semi s' else s
  | EmptyString => EmptyString
  end.

(** [for i < len && h[i] != '>' { i++ }]: the bytes before the closing
    bracket and the rest after it, when there is one. *)
Fixpoint until_gt (s : string) : option (string * string) :=
  match s with
  | EmptyString => None
  | String c s' =>
    if Ascii.eqb c ">" then Some (EmptyString, s')
    else
      match until_gt s' with
      | Some (url, rest) => Some (String c url, rest)
      | None => None
      end
  end.

(** The test [i < len] that follows: with no closing bracket the URL stays
    empty and [i] is at the end of the header. *)
Definition read_url (s : string) : string * string :=
  match until_gt s with
  | Some found => found
  | None => (EmptyString, EmptyString)
  end.

(** The parameter name: up to [=], a comma, a space or a tab. *)
Fixpoint read_name (s : string) : string * string :=
  match s with
  | EmptyString => (EmptyString, EmptyString)
  | String c s' =>
    if Ascii.eqb c "=" || Ascii.eqb c "," || is_sp_tab c
    then (EmptyString, s)
    else let (name, rest) := read_name s' in (String c name, rest)
  end.

(** An unquoted value: up to a space, a tab, a semicolon or a comma. *)
Fixpoint read_unquoted (s : string) : string * string :=
  match s with
  | EmptyString => (EmptyString, EmptyString)
  | String c s' =>
    if is_sp_tab c || Ascii.eqb c ";" || Ascii.eqb c ","
    then (EmptyString, s)
    else let (value, rest) := read_unquoted s' in (String c value, rest)
  end.

(** A quoted value, after its opening quote: up to the first quote that
    does not follow a backslash.  [prev] is the byte at [i-1], [seen] the
    bytes from [valueStart] on, last first.  At the end of the header the
    value stays empty. *)
Fixpoint read_quoted (prev : ascii) (seen : string) (s : string)
    : string * string :=
  match s with
  | EmptyString => (EmptyString, EmptyString)
  | String c s' =>
    if Ascii.eqb c dquote && negb (Ascii.eqb prev backslash)
    then (gostrings.reverse seen, s')
    else read_quoted c (String c seen) s'
  end.

(** The value of a parameter, with [s] the header after the name. *)
Definition read_value (s : string) : string * string :=
  let s := skip_blank s in
  match s with
  | String c s1 =>
    if Ascii.eqb c "="
    then
      let s2 := skip_blank s1 in
      match s2 with
      | EmptyString => (EmptyString, EmptyString)
      | String q s3 =>
        if Ascii.eqb q dquote then read_quoted q EmptyString s3
        else read_unquoted s2
      end
    else (EmptyString, s)
  | EmptyString => (EmptyString, EmptyString)
  end.

(** The loop over the parameters of one entry.  A turn that finds an empty
    name changes neither [i] nor the map and is followed by the same turn:
    the recursion then uses up any [fuel], and [None] is the answer. *)
Fixpoint params_loop (fuel : nat) (s : string) (params : gmap string string)
    : option (gmap string string * string) :=
  match fuel with
  | O => None
  | S fuel' =>
    match s with
    | EmptyString => Some (params, EmptyString)
    | String _ _ =>
      match skip_blank_semi s with
      | EmptyString => Some (params, EmptyString)
      | String c s1 as s0 =>
        if Ascii.eqb c "," then Some (params, s1)
        else
          let (paramName, s2) := read_name s0 in
          match paramName with
          | EmptyString => params_loop fuel' s0 params
          | String _ _ =>
            let (paramValue, s3) := read_value s2 in
            params_loop fuel' s3 (<[paramName := paramValue]> params)
          end
      end
    end
  end.

(** The loop over the entries. *)
Fixpoint entries_loop (fuel : nat) (s : string) (entries : list LinkEntry)
    : option (list LinkEntry) :=
  match fuel with
  | O => None
  | S fuel' =>
    match skip_blank s with
    | EmptyString => Some entries
    | String c s1 =>
      if Ascii.eqb c "<"
      then
        let (url, s2) := read_url s1 in
        match params_loop fuel' s2 ∅ with
        | None => None
        | Some (params, s3) =>
          let currentEntry := {| LinkEntry_URL := url; Params := params |} in
          match url with
          | EmptyString => entries_loop fuel' s3 entries
          | String _ _ => entries_loop fuel' s3 (entries ++ [currentEntry])
          end
        end
      else entries_loop fuel' s1 entries
    end
  end.

Definition parseLinkHeaderEntries_fuel (fuel : nat) (linkHeader : string)
    : option (list LinkEntry) :=
  entries_loop fuel linkHeader [].

(** The loop of [parseNextLinkURL] over the parsed entries. *)
Fixpoint first_next (links : list LinkEntry) : string :=
  match links with
  | [] => EmptyString
  | link :: links' =>
    if hasRelation link "next" then LinkEntry_URL link else first_next links'
  end.

Definition parseNextLinkURL_fuel (fuel : nat) (linkHeader : string)
    : option string :=
  match linkHeader with
  | EmptyString => Some EmptyString
  | String _ _ => first_next <$> parseLinkHeaderEntries_fuel fuel linkHeader
  end.

(** Fuel that is enough whenever the parser terminates: every turn that
    does not repeat itself moves [i] forward.  With it [None] says that the
    parser does not terminate on the header. *)
Definition enough_fuel (linkHeader : string) : nat :=
  S (S (String.length linkHeader)).

Definition parseLinkHeaderEntries (linkHeader : string)
    : option (list LinkEntry) :=
  parseLinkHeaderEntries_fuel (enough_fuel linkHeader) linkHeader.

Definition parseNextLinkURL (linkHeader : string) : option string :=
  parseNextLinkURL_fuel (enough_fuel linkHeader) linkHeader.

(** ** From the absolute URL of the next page to a path *)

(** What url.Parse gives of a URL. *)
Record ParsedURL := {
  Scheme : string;
  Host : string;
  Path : string;
  RawQuery : string
}.

Definition is_digit (c : ascii) : bool := byte_in 48 57 c.

Fixpoint all_bytes (p : ascii -> bool) (s : string) : bool :=
  match s with
  | EmptyString => true
  | String c s' => p c && all_bytes p s'
  end.

Definition with_query (path query : string) : string :=
  match query with
  | EmptyString => path
  | String _ _ => path +:+ "?" +:+ query
  end.

Section ExtractPath.
(** url.Parse of the standard library; [None] is its error. *)
Variable url_Parse : string -> option ParsedURL.

Definition extractPathFromURL (absoluteURL : string) : string :=
  if gostrings.HasPrefix absoluteURL "/" then absoluteURL
  else
    match url_Parse absoluteURL with
    | None => EmptyString
    | Some parsedURL =>
      if String.eqb (Scheme parsedURL) EmptyString
         && negb (gostrings.HasPrefix absoluteURL "/")
      then EmptyString
      else
        let path := Path parsedURL in
        let fullPath := with_query path (RawQuery parsedURL) in
        if negb (String.eqb (Host parsedURL) EmptyString)
           && gostrings.Contains (Host parsedURL) "basecampapi.com"
        then
          let pathParts :=
            gostrings.Split (gostrings.TrimPrefix path "/") "/" in
          if Nat.leb 2 (length pathParts)
          then
            let firstPart := hd EmptyString pathParts in
            let isAccountID := all_bytes is_digit firstPart in
            let relativePath :=
              if isAccountID && negb (String.eqb firstPart EmptyString)
              then "/" +:+ gostrings.Join (tl pathParts) "/"
              else path in
            with_query relativePath (RawQuery parsedURL)
          else fullPath
        else fullPath
    end.

End ExtractPath.

(** ** The request core *)

Record Client := {
  accountID : string;
  accessToken : string;
  baseURL : string
}.

Definition getBaseURL (c : Client) : string :=
  baseURL c +:+ "/" +:+ accountID c.

(** An HTTP response: the status, the body as read to its end, and the
    value of the Link header. *)
Record Response := {
  StatusCode : Z;
  Body : string;
  Header_Link : string
}.

Definition StatusUnauthorized : Z := 401.
Definition StatusNotFound : Z := 404.
Definition StatusTooManyRequests : Z := 429.

(** The resource name guessed from the path of a 404. *)
Definition guess_resource (path : string) : string :=
  let parts := gostrings.Split path "/" in
  if Nat.ltb 2 (length parts)
  then gostrings.TrimSuffix (nth (length parts - 2) parts EmptyString) "s"
  else "resource".

(** The switch on the status of a response with [StatusCode >= 400]. *)
Definition classify (path : string) (resp : Response) : error :=
  let status := StatusCode resp in
  if status =? StatusUnauthorized
  then NewAuthenticationError (errorString ("unauthorized: " +:+ Body resp))
  else if status =? StatusNotFound
  then NewNotFoundError (guess_resource path) EmptyString
         (errorString ("not found: " +:+ Body resp))
  else NewAPIError status (Body resp) None.

Section RequestCore.
(** http.NewRequestWithContext, as the check it makes of the method and of
    the URL: [Some] is its error. *)
Variable NewRequestWithContext : string -> string -> option error.

(** [doRequestWithHeadersContext], given what [c.httpClient.Do] answers. *)
Definition doRequestWithHeadersContext (c : Client) (method path : string)
    (answer : error + Response) : error + Response :=
  let url := getBaseURL c +:+ path in
  match NewRequestWithContext method url with
  | Some err => inl (wrapError "failed to create request" err)
  | None =>
    match answer with
    | inl err => inl (wrapError "request failed" err)
    | inr resp =>
      if 400 <=? StatusCode resp then inl (classify path resp)
      else inr resp
    end
  end.

Definition doRequestContext (c : Client) (method path : string)
    (answer : error + Response) : error + Response :=
  doRequestWithHeadersContext c method path answer.

End RequestCore.

(** ** The paginated fetcher *)

(** A context, as the answers of [ctx.Err()] at the start of each turn of
    the loop of [GetAll], counted from 0. *)
Definition Context : Type := nat -> option error.

(** The error of a cancelled context. *)
Definition Canceled : error := errorString "context canceled".

Definition Background : Context := fun _ => None.

(** The [result] argument of [GetAll], an interface value: the nil
    interface, or a dynamic type with a value.  Of the value the model
    keeps whether it is a nil pointer; the slice a pointer to a slice
    refers to is the field [slice] of the world. *)
Inductive ResultArg : Type :=
| nilInterface
| Iface (t : rtype) (nilPointer : bool).

(** What [GetAll] can change or cause outside itself.  [slice]: the slice
    variable of the caller that [result] points to; [waits]: the calls of
    [rateLimiter.Wait], one token each; [requests]: the paths requested, in
    order; [slept]: the time spent in time.Sleep. *)
Record World (T : Type) := mkWorld {
  slice : list T;
  waits : nat;
  requests : list string;
  slept : time.Duration
}.
Arguments mkWorld {T}.
Arguments slice {T}.
Arguments waits {T}.
Arguments requests {T}.
Arguments slept {T}.

(** How a call ends: it returns its error result, it panics, it is left
    without an answer of the transport to its request of [path], or it
    runs forever. *)
Inductive Outcome : Type :=
| Returns (err : option error)
| Panics
| NoAnswer (path : string)
| Hangs.

Record PaginatedRequest (T : Type) := mkPaginatedRequest {
  client : Client;
  ctx : option Context;
  maxPages : Z;
  pageCheck : option (Page T -> bool)
}.
Arguments mkPaginatedRequest {T}.
Arguments client {T}.
Arguments ctx {T}.
Arguments maxPages {T}.
Arguments pageCheck {T}.

Definition NewPaginatedRequest {T : Type} (c : Client) : PaginatedRequest T :=
  {| client := c; ctx := None; maxPages := 0; pageCheck := None |}.

Definition WithMaxPages {T : Type} (n : Z) (pr : PaginatedRequest T)
    : PaginatedRequest T :=
  {| client := client pr; ctx := ctx pr; maxPages := n;
     pageCheck := pageCheck pr |}.

Definition WithContext {T : Type} (c : Context) (pr : PaginatedRequest T)
    : PaginatedRequest T :=
  {| client := client pr; ctx := Some c; maxPages := maxPages pr;
     pageCheck := pageCheck pr |}.

Definition WithPageCheck {T : Type} (fn : Page T -> bool)
    (pr : PaginatedRequest T) : PaginatedRequest T :=
  {| client := client pr; ctx := ctx pr; maxPages := maxPages pr;
     pageCheck := Some fn |}.

Section GetAll.
Context {T : Type}.
(** The JSON decoder of a page body into a slice of [T]. *)
Variable decode : string -> error + list T.
Variable url_Parse : string -> option ParsedURL.
Variable NewRequestWithContext : string -> string -> option error.

Definition errNotSlicePointer : error :=
  errorString "result must be a pointer to a slice".

(** The path of the next page, from the Link header of a response; [None]
    when the parser of the header does not terminate. *)
Definition next_path (linkHeader : string) : option string :=
  match linkHeader with
  | EmptyString => Some EmptyString
  | String _ _ =>
    match parseNextLinkURL linkHeader with
    | None => None
    | Some EmptyString => Some EmptyString
    | Some nextURL => Some (extractPathFromURL url_Parse nextURL)
    end
  end.

(** The loop over the pages, while [currentPath] is not empty.  [answers]
    are the answers of the transport to the requests still to come,
    [pageCount] the pages fetched so far, [sliceType] the type of the
    slice of the caller. *)
Fixpoint GetAll_loop (pr : PaginatedRequest T) (sliceType : rtype)
    (answers : list (error + Response)) (currentPath : string)
    (pageCount : nat) (w : World T) : Outcome * World T :=
  match currentPath with
  | EmptyString => (Returns None, w)
  | String _ _ =>
    match default Background (ctx pr) pageCount with
    | Some err => (Returns (Some err), w)
    | None =>
      let w := mkWorld (slice w) (S (waits w)) (requests w) (slept w) in
      match answers with
      | [] => (NoAnswer currentPath, w)
      | answer :: answers' =>
        let w := mkWorld (slice w) (waits w) (requests w ++ [currentPath])
                   (slept w) in
        match doRequestContext NewRequestWithContext (client pr)
                "GET" currentPath answer with
        | inl err =>
          (Returns (Some (wrapError "failed to fetch paginated results" err)), w)
        | inr resp =>
          match decode (Body resp) with
          | inl err =>
            (Returns (Some (wrapError "failed to decode paginated results" err)),
             w)
          | inr pageSlice =>
            let w := mkWorld (slice w ++ pageSlice) (waits w) (requests w)
                       (slept w) in
            let pageCount := S pageCount in
            if Nat.eqb (length pageSlice) 0 then (Returns None, w)
            else if (0 <? maxPages pr) && (maxPages pr <=? Z.of_nat pageCount)
            then (Returns None, w)
            else if match pageCheck pr with
                    | Some check => negb (check (mkPage sliceType pageSlice))
                    | None => false
                    end
            then (Returns None, w)
            else
              match next_path (Header_Link resp) with
              | None => (Hangs, w)
              | Some EmptyString => (Returns None, w)
              | Some next =>
                let w := mkWorld (slice w) (waits w) (requests w)
                           (slept w + 100 * time.Millisecond) in
                GetAll_loop pr sliceType answers' next pageCount w
              end
          end
        end
      end
    end
  end.

(** [GetAll]: the check of the type of [result] by reflection, then the
    loop. *)
Definition GetAll (pr : PaginatedRequest T) (answers : list (error + Response))
    (path : string) (result : ResultArg) (w : World T) : Outcome * World T :=
  match result with
  | nilInterface =>
    (* reflect.TypeOf(nil) is nil, and Kind() is called on it *)
    (Panics, w)
  | Iface resultType nilPointer =>
    if negb (Kind_eqb (rtype_Kind resultType) KPtr)
       || negb (match rtype_Elem resultType with
                | Some e => Kind_eqb (rtype_Kind e) KSlice
                | None => false
                end)
    then (Returns (Some errNotSlicePointer), w)
    else
      match rtype_Elem resultType with
      | Some sliceType =>
        if nilPointer
        then (* Elem() of a nil pointer is the zero Value; Type() panics *)
          (Panics, w)
        else GetAll_loop pr sliceType answers path 0 w
      | None => (Panics, w)
      end
  end.

End GetAll.

(** The result argument of a caller that passes the address of a slice
    variable with elements of type [elem]. *)
Definition pointer_to_slice_of (elem : rtype) : ResultArg :=
  Iface (TPtr (TSlice elem)) false.

Section ListRecordings.
Variable decode : string -> error + list Recording.
Variable url_Parse : string -> option ParsedURL.
Variable NewRequestWithContext : string -> string -> option error.

(** [listRecordingsByType], from the path it has built on: a fresh slice
    variable, the page check when [since] is not nil, then [GetAll].  On an
    error the function returns nil for the recordings. *)
Definition listRecordingsByType (c : Client) (context : Context)
    (path : string) (since : option time.Time)
    (answers : list (error + Response))
    : Outcome * option (list Recording) :=
  let pr := WithContext context (NewPaginatedRequest c) in
  let pr :=
    match since with
    | Some cutoff => WithPageCheck (sincePageCheck cutoff) pr
    | None => pr
    end in
  match GetAll decode url_Parse NewRequestWithContext pr answers path
          (pointer_to_slice_of tRecording) (mkWorld [] 0 [] 0) with
  | (Returns (Some err), _) => (Returns (Some err), None)
  | (Returns None, w) => (Returns None, Some (slice w))
  | (other, _) => (other, None)
  end.

End ListRecordings.

(** ** Go's [regexp] package, for the patterns of the sources

    Every pattern of the sources is a sequence of byte classes, each taken
    once, at most once or any number of times, with capture groups around
    runs of them; none matches the empty string.  Matching is leftmost and
    greedy with backtracking, the order in which Go's regexp prefers
    matches.  The delimiters of every pattern are ASCII, so matching bytes
    and matching runes find the same text. *)

Module regexp.

Inductive Repeat : Type := One | Opt | Star.

(** A byte class, how often it is taken, and the capture group its bytes
    belong to (0: none). *)
Record Piece := mkPiece {
  cls : ascii -> bool;
  rep : Repeat;
  group : nat
}.

Definition Regexp : Type := list Piece.

(** Go's submatch slice: index 0 is the whole match, index [g] group [g]. *)
Definition Submatch : Type := list string.

Fixpoint push (g : nat) (c : ascii) (m : Submatch) : Submatch :=
  match m, g with
  | [], _ => []
  | x :: r, O => String c x :: r
  | x :: r, S g' => x :: push g' c r
  end.

Definition record (g : nat) (c : ascii) (m : Submatch) : Submatch :=
  match g with
  | O => push 0 c m
  | S _ => push g c (push 0 c m)
  end.

Definition consumed (g : nat) (c : ascii) (r : option (Submatch * string))
    : option (Submatch * string) :=
  match r with
  | Some (m, rest) => Some (record g c m, rest)
  | None => None
  end.

(** [match_here re ngroups s]: the preferred match of [re] that starts at
    the first byte of [s], with the text after it. *)
Fixpoint match_here (re : Regexp) (ngroups : nat) (s : string)
    : option (Submatch * string) :=
  match re with
  | [] => Some (replicate (S ngroups) EmptyString, s)
  | p :: re' =>
    match rep p with
    | One =>
      match s with
      | String c s' =>
        if cls p c then consumed (group p) c (match_here re' ngroups s')
        else None
      | EmptyString => None
      end
    | Opt =>
      match
        match s with
        | String c s' =>
          if cls p c then consumed (group p) c (match_here re' ngroups s')
          else None
        | EmptyString => None
        end
      with
      | Some r => Some r
      | None => match_here re' ngroups s
      end
    | Star =>
      (fix star (s : string) : option (Submatch * string) :=
         match
           match s with
           | String c s' =>
             if cls p c then consumed (group p) c (star s') else None
           | EmptyString => None
           end
         with
         | Some r => Some r
         | None => match_here re' ngroups s
         end) s
    end
  end.

Definition whole_length (m : Submatch) : nat :=
  String.length (hd EmptyString m).

(** [FindAllStringSubmatch(s, -1)]: the successive matches that do not
    overlap, from the left.  [skip] counts the bytes of the last match
    that are still to be passed. *)
Fixpoint find_all_from (re : Regexp) (ngroups skip : nat) (s : string)
    : list Submatch :=
  match s with
  | EmptyString => []
  | String _ s' =>
    match skip with
    | S k => find_all_from re ngroups k s'
    | O =>
      match match_here re ngroups s with
      | Some (m, _) => m :: find_all_from re ngroups (whole_length m - 1) s'
      | None => find_all_from re ngroups 0 s'
      end
    end
  end.

Definition FindAllStringSubmatch (re : Regexp) (ngroups : nat) (s : string)
    : list Submatch :=
  find_all_from re ngroups 0 s.

(** [ReplaceAllString] for a replacement without a dollar sign. *)
Fixpoint replace_all_from (re : Regexp) (skip : nat) (s repl : string)
    : string :=
  match s with
  | EmptyString => EmptyString
  | String c s' =>
    match skip with
    | S k => replace_all_from re k s' repl
    | O =>
      match match_here re 0 s with
      | Some (m, _) => repl +:+ replace_all_from re (whole_length m - 1) s' repl
      | None => String c (replace_all_from re 0 s' repl)
      end
    end
  end.

Definition ReplaceAllString (re : Regexp) (s repl : string) : string :=
  replace_all_from re 0 s repl.

(** [MatchString] for a pattern that starts with the anchor [^]. *)
Definition MatchString_anchored (re : Regexp) (s : string) : bool :=
  match match_here re 0 s with
  | Some _ => true
  | None => false
  end.

(** Building patterns. *)
Definition one (p : ascii -> bool) : Regexp := [mkPiece p One 0].
Definition opt (p : ascii -> bool) : Regexp := [mkPiece p Opt 0].
Definition star (p : ascii -> bool) : Regexp := [mkPiece p Star 0].
Definition plus (p : ascii -> bool) : Regexp :=
  [mkPiece p One 0; mkPiece p Star 0].

Fixpoint lit (s : string) : Regexp :=
  match s with
  | EmptyString => []
  | String c s' => mkPiece (Ascii.eqb c) One 0 :: lit s'
  end.

(** [(re)] as group [g]. *)
Definition capture (g : nat) (re : Regexp) : Regexp :=
  map (fun p => mkPiece (cls p) (rep p) g) re.

(** The classes [\s], [\w], [\d] of Go and the negated singleton. *)
Definition space (c : ascii) : bool :=
  byte_is 9 c || byte_is 10 c || byte_is 12 c || byte_is 13 c || byte_is 32 c.
Definition digit (c : ascii) : bool := byte_in 48 57 c.
Definition letter (c : ascii) : bool := byte_in 65 90 c || byte_in 97 122 c.
Definition word (c : ascii) : bool := digit c || letter c || byte_is 95 c.
Definition not_byte (x : ascii) (c : ascii) : bool := negb (Ascii.eqb c x).

End regexp.

(** ** The Markdown converter *)

Module markdown.

Import regexp.

Definition quoted (s : string) : string := str dquote +:+ s +:+ str dquote.

(** The markdown patterns that rule out the plain-text path. *)
Definition markdownPatterns : list string :=
  ["**"; "*"; "~~"; "`"; "["; "]"; "("; ")"; "#"; ">"; "+";
   "<"; ">"; "&"; "@"; "http://"; "https://"; "mailto:"].

(** At the start: a hyphen or a plus sign, then a space. *)
Definition listMarkerRegex : Regexp :=
  one (fun c => Ascii.eqb c "-" || Ascii.eqb c "+") ++ one space.

(** At the start: one or more digits, then a dot. *)
Definition numberedRegex : Regexp := plus digit ++ lit ".".

Definition isSimplePlainText (input : string) : bool :=
  if String.eqb (gostrings.TrimSpace input) EmptyString then false
  else if gostrings.Contains input (str newline) then false
  else if existsb (fun pattern => gostrings.Contains input pattern)
            markdownPatterns
  then false
  else if MatchString_anchored listMarkerRegex (gostrings.TrimSpace input)
  then false
  else if MatchString_anchored numberedRegex (gostrings.TrimSpace input)
  then false
  else true.

(** [cleanListFormatting] *)
Definition cleanListFormatting (html : string) : string :=
  let nl := str newline in
  let html := gostrings.ReplaceAll html "</li><ul>" ("</li>" +:+ nl +:+ "<ul>") in
  let html := gostrings.ReplaceAll html "</li><ol>" ("</li>" +:+ nl +:+ "<ol>") in
  let html :=
    gostrings.ReplaceAll html "</ul></li>" ("</ul>" +:+ nl +:+ "</li>") in
  let html :=
    gostrings.ReplaceAll html "</ol></li>" ("</ol>" +:+ nl +:+ "</li>") in
  let html := gostrings.ReplaceAll html "</ul><" ("</ul>" +:+ nl +:+ "<") in
  let html := gostrings.ReplaceAll html "</ol><" ("</ol>" +:+ nl +:+ "<") in
  let html := gostrings.ReplaceAll html "</li><li>" ("</li>" +:+ nl +:+ "<li>") in
  let html := gostrings.TrimRight html newline in
  if gostrings.HasSuffix html "</ul>" || gostrings.HasSuffix html "</ol>"
  then
    if negb (gostrings.HasSuffix html "</ul>")
       && negb (gostrings.HasSuffix html "</ol>")
    then html +:+ str newline
    else html
  else html.

(** A space, the attribute name, the equals sign and a value in double
    quotes that holds no double quote. *)
Definition attributeRegex (name : string) : Regexp :=
  lit (" " +:+ name +:+ "=" +:+ str dquote)
  ++ star (not_byte dquote) ++ lit (str dquote).

(** [stripUnsupportedTags] *)
Definition stripUnsupportedTags (html : string) : string :=
  let html :=
    ReplaceAllString (lit "<span" ++ star (not_byte ">") ++ lit ">")
      html EmptyString in
  let html := gostrings.ReplaceAll html "</span>" EmptyString in
  let html := ReplaceAllString (attributeRegex "style") html EmptyString in
  let html := ReplaceAllString (attributeRegex "class") html EmptyString in
  let html := ReplaceAllString (attributeRegex "id") html EmptyString in
  let html := gostrings.ReplaceAll html "<!-- raw HTML omitted -->" EmptyString in
  gostrings.ReplaceAll html "raw HTML" EmptyString.

(** One turn of the loop [for i := 2; i <= 6; i++] over the heading
    levels, with [d] the digit of the level. *)
Definition collapse_heading (html : string) (d : ascii) : string :=
  let html := gostrings.ReplaceAll html ("<h" +:+ str d +:+ ">") "<h1>" in
  let html := gostrings.ReplaceAll html ("</h" +:+ str d +:+ ">") "</h1>" in
  ReplaceAllString (lit ("<h" +:+ str d) ++ star (not_byte ">") ++ lit ">")
    html "<h1>".

(** [postProcessHTML] *)
Definition postProcessHTML (html : string) : string :=
  let br := "<br>" +:+ str newline in
  let html := gostrings.ReplaceAll html "<p>" "<div>" in
  let html := gostrings.ReplaceAll html "</p>" "</div>" in
  let html := fold_left collapse_heading ["2"; "3"; "4"; "5"; "6"]%char html in
  let html := gostrings.ReplaceAll html "<del>" "<strike>" in
  let html := gostrings.ReplaceAll html "</del>" "</strike>" in
  let html := gostrings.ReplaceAll html "<code>" "<pre>" in
  let html := gostrings.ReplaceAll html "</code>" "</pre>" in
  let html :=
    ReplaceAllString (lit "<pre><code" ++ star (not_byte ">") ++ lit ">")
      html "<pre>" in
  let html := gostrings.ReplaceAll html "</code></pre>" "</pre>" in
  let html := gostrings.ReplaceAll html "<pre><pre>" "<pre>" in
  let html := gostrings.ReplaceAll html "</pre></pre>" "</pre>" in
  let html := gostrings.ReplaceAll html "<hr />" br in
  let html := gostrings.ReplaceAll html "<hr/>" br in
  let html := gostrings.ReplaceAll html "<hr>" br in
  let html := gostrings.ReplaceAll html "<br />" "<br>" in
  let html := cleanListFormatting html in
  let html := stripUnsupportedTags html in
  let html := gostrings.ReplaceAll html "&#39;" "'" in
  let html :=
    ReplaceAllString (lit "<!-- " ++ star (not_byte ">") ++ lit " -->")
      html EmptyString in
  let html :=
    gostrings.ReplaceAll html ("<blockquote>" +:+ str newline) "<blockquote>" in
  let html :=
    gostrings.ReplaceAll html (str newline +:+ "</blockquote>") "</blockquote>" in
  let nl := Ascii.eqb newline in
  let html :=
    ReplaceAllString (one nl ++ one nl ++ one nl ++ star nl) html
      (str newline +:+ str newline) in
  gostrings.ReplaceAll html br "<br>".

(** The tags Basecamp supports. *)
Definition supportedTags : gmap string bool :=
  list_to_map
    (map (fun tag => (tag, true))
       ["div"; "h1"; "br"; "strong"; "em"; "strike"; "a"; "pre"; "ol"; "ul";
        "li"; "blockquote";
        "table"; "tr"; "td"; "th"; "thead"; "tbody"; "details"; "summary";
        "figure"; "figcaption"; "img";
        "bc-attachment"]).

(** The tag pattern: an opening angle bracket, an optional slash (group
    1), the tag name (group 2: a letter, then letters, digits and
    hyphens), any bytes other than a closing bracket, a closing bracket. *)
Definition tagRegex : Regexp :=
  lit "<"
  ++ capture 1 (opt (Ascii.eqb "/"))
  ++ capture 2 (one letter
                ++ star (fun c => letter c || digit c || Ascii.eqb c "-"))
  ++ star (not_byte ">")
  ++ lit ">".

(** The attribute pattern: the two bytes that open an anchor tag, one or
    more spaces, any bytes other than a closing bracket, one or more
    spaces, a word (group 1), an equals sign. *)
Definition attrRegex : Regexp :=
  lit "<a"
  ++ plus space
  ++ star (not_byte ">")
  ++ plus space
  ++ capture 1 (plus word)
  ++ lit "=".

(** The first loop of the validator: the first tag that is not supported. *)
Fixpoint check_tags (matches : list Submatch) : option error :=
  match matches with
  | [] => None
  | m :: matches' =>
    if Nat.leb 3 (length m)
    then
      let tagName := gostrings.ToLower (nth 2 m EmptyString) in
      if default false (supportedTags !! tagName)
      then check_tags matches'
      else Some (errorString ("unsupported HTML tag: " +:+ tagName))
    else check_tags matches'
  end.

(** The second loop: the first captured attribute that is not href. *)
Fixpoint check_attrs (matches : list Submatch) : option error :=
  match matches with
  | [] => None
  | m :: matches' =>
    if Nat.leb 2 (length m)
    then
      let attrName := gostrings.ToLower (nth 1 m EmptyString) in
      if negb (String.eqb attrName "href")
      then Some (errorString ("unsupported attribute '" +:+ attrName
                              +:+ "' on <a> tag (only 'href' is allowed)"))
      else check_attrs matches'
    else check_attrs matches'
  end.

(** [ValidateBasecampHTML]; [None] is the nil error. *)
Definition ValidateBasecampHTML (html : string) : option error :=
  match html with
  | EmptyString => None
  | String _ _ =>
    match check_tags (FindAllStringSubmatch tagRegex 2 html) with
    | Some err => Some err
    | None => check_attrs (FindAllStringSubmatch attrRegex 1 html)
    end
  end.

Section Converter.
(** The Markdown renderer (goldmark with the GFM extension); [inl] is its
    error. *)
Variable md_Convert : string -> error + string.

(** [MarkdownToRichText]: the pair of the result and the error. *)
Definition MarkdownToRichText (markdown : string) : string * option error :=
  let input := gostrings.TrimSpace markdown in
  match input with
  | EmptyString => (EmptyString, None)
  | String _ _ =>
    if isSimplePlainText input then (input, None)
    else
      match md_Convert input with
      | inl err =>
        (EmptyString, Some (wrapError "failed to convert markdown" err))
      | inr html =>
        let html := postProcessHTML html in
        let result := gostrings.TrimSpace html in
        if String.eqb result EmptyString || String.eqb result "<div></div>"
        then (EmptyString, None)
        else
          match ValidateBasecampHTML result with
          | Some err =>
            (EmptyString,
             Some (wrapError "generated HTML contains unsupported tags" err))
          | None => (result, None)
          end
      end
  end.

End Converter.

End markdown.

(** ** Sample data for the examples *)

Definition person (id : Z) : Person :=
  {| Person_ID := id; Person_Name := EmptyString;
     Person_EmailAddress := EmptyString; Person_Title := EmptyString;
     Person_AvatarURL := EmptyString; Person_Company := None;
     Person_CreatedAt := EmptyString; Person_Admin := false;
     Person_Owner := false |}.

(** A recording with the given id, instant of last update and creator. *)
Definition recording (id : Z) (updatedAt : time.Time) (creator : Z)
    : Recording :=
  {| ID := id; Title := EmptyString; Status := EmptyString;
     Type_ := EmptyString; CreatedAt := 0; UpdatedAt := updatedAt;
     URL := EmptyString; AppURL := EmptyString; Creator := person creator;
     Bucket_ := {| Bucket_ID := 0; Bucket_Name := EmptyString;
                   Bucket_Type := EmptyString |};
     Parent_ := None |}.

Definition options (since : option time.Time) (personID limit : Z)
    : ActivityListOptions :=
  {| Since := since; RecordingTypes := []; PersonID := personID;
     Limit := limit |}.

(** [keeps opts r]: the recording passes the two filters of
    [filterRecordings]. *)
Definition keeps (opts : ActivityListOptions) (r : Recording) : bool :=
  negb match Since opts with
       | Some since => time.Before (UpdatedAt r) since
       | None => false
       end
  && negb ((0 <? PersonID opts)
           && negb (Person_ID (Creator r) =? PersonID opts)).

(** Descending order of the instants of last update. *)
Definition descending (l : list Recording) : Prop :=
  StronglySorted
    (fun a b => time.After (UpdatedAt b) (UpdatedAt a) = false) l.

(** The recordings of [l] last updated at [t], in their order in [l]. *)
Definition updated_at (t : time.Time) (l : list Recording) : list Recording :=
  List.filter (fun r => time.Equal (UpdatedAt r) t) l.

(** The process-wide limiter of [GetRateLimiter], 50 requests per 10
    seconds, as [NewRateLimiter] builds it at the instant 0. *)
Definition globalRateLimiter : RateLimiter :=
  {| tokens := 50; maxTokens := 50; refillRate := 200 * time.Millisecond;
     lastRefill := 0 |}.

(** A limiter at the end of the int range: [NewRateLimiter] called at the
    instant 0 with [max_int64] tokens per [max_int64] nanoseconds. *)
Definition fullRangeLimiter : RateLimiter :=
  {| tokens := max_int64; maxTokens := max_int64; refillRate := 1;
     lastRefill := 0 |}.

(** Headers for the examples.  [quoted_rel r] is the parameter rel with
    the value [r] in double quotes. *)
Definition quoted_rel (r : string) : string :=
  "rel=" +:+ str dquote +:+ r +:+ str dquote.

Definition next_link_header : string :=
  "<https://api.example.com/x?page=2>; " +:+ quoted_rel "next".

Definition prev_link_header : string :=
  "<https://api.example.com/x?page=2>; " +:+ quoted_rel "prev".

Definition next_prefetch_link_header : string :=
  "<https://api.example.com/x?page=2>; " +:+ quoted_rel "next prefetch".

(** A header whose first parameter has an empty name. *)
Definition empty_name_link_header : string :=
  "<https://api.example.com/x?page=2>; =1; " +:+ quoted_rel "next".

(** A client, a request check that accepts every URL, and responses for
    the examples. *)
Definition sampleClient : Client :=
  {| accountID := "123456"; accessToken := "token";
     baseURL := "https://3.basecampapi.com" |}.

Definition anyRequest : string -> string -> option error := fun _ _ => None.

Definition response (status : Z) (body link : string) : Response :=
  {| StatusCode := status; Body := body; Header_Link := link |}.

Section FetchPage.
Context {T : Type}.
Variable decode : string -> error + list T.
Variable NewRequestWithContext : string -> string -> option error.

(** What one turn of the loop of [GetAll] makes of the answer to its
    request: the error it returns, or the response with its decoded
    page. *)
Definition fetch_page (pr : PaginatedRequest T) (path : string)
    (answer : error + Response) : error + (Response * list T) :=
  match doRequestContext NewRequestWithContext (client pr) "GET" path answer
  with
  | inl err => inl (wrapError "failed to fetch paginated results" err)
  | inr resp =>
    match decode (Body resp) with
    | inl err => inl (wrapError "failed to decode paginated results" err)
    | inr pageSlice => inr (resp, pageSlice)
    end
  end.

(** The pages that a run of answers decodes to. *)
Definition decoded (pr : PaginatedRequest T)
    (answers : list (error + Response)) (pages : list (list T)) : Prop :=
  Forall2
    (fun answer page =>
       exists path resp, fetch_page pr path answer = inr (resp, page))
    answers pages.

End FetchPage.

(** A page decoder, a URL parser and answers for the examples: pages of
    integers, the bodies of the test server. *)
Definition sampleDecode (body : string) : error + list Z :=
  if String.eqb body "[1,2]" then inr [1; 2]
  else if String.eqb body "[3]" then inr [3]
  else if String.eqb body "[]" then inr []
  else inl (errorString "invalid character").

Definition sampleParse (u : string) : option ParsedURL :=
  if String.eqb u "https://api.example.com/x?page=2"
  then Some {| Scheme := "https"; Host := "api.example.com"; Path := "/x";
               RawQuery := "page=2" |}
  else None.

Definition tInt : rtype := TNamed "int" NInt.

Definition emptyWorld : World Z := mkWorld [] 0 [] 0.

(** The context of TestGetAll_WithContext_CancellationStopsPagination: the
    page check cancels it after the first page. *)
Definition canceledAfterFirstPage : Context :=
  fun n => match n with O => None | S _ => Some Canceled end.

(** Rich text for the examples. *)
Definition attribute (name value : string) : string :=
  name +:+ "=" +:+ str dquote +:+ value +:+ str dquote.

(** An anchor whose only attribute is target. *)
Definition anchor_with_target : string :=
  "<a " +:+ attribute "target" "_blank" +:+ ">x</a>".

(** An anchor with target before href. *)
Definition anchor_with_target_then_href : string :=
  "<a " +:+ attribute "target" "_blank" +:+ " "
  +:+ attribute "href" "https://example.com" +:+ ">x</a>".

(** An anchor with target after href. *)
Definition anchor_with_href_then_target : string :=
  "<a " +:+ attribute "href" "https://example.com" +:+ " "
  +:+ attribute "target" "_blank" +:+ ">x</a>".

(** An anchor whose only attribute is href. *)
Definition anchor_with_href : string :=
  "<a " +:+ attribute "href" "https://example.com" +:+ ">x</a>".

(** The renderer on the input of the bold test: what goldmark writes for
    it. *)
Definition renderBold : string -> error + string :=
  fun _ => inr ("<p>This is <strong>bold</strong> text</p>" +:+ str newline).

(** No byte of [s] is the opening angle bracket. *)
Fixpoint no_open_bracket (s : string) : bool :=
  match s with
  | EmptyString => true
  | String c s' => negb (Ascii.eqb "<" c) && no_open_bracket s'
  end.

(** The slice built so far leaves room under a positive [Limit]. *)
Definition under_limit (opts : ActivityListOptions) (n : nat) : Prop :=
  0 < Limit opts -> Z.of_nat n < Limit opts.

(** The recordings of TestFilterRecordings, minutes counted back from
    [now]. *)
Definition test_recordings (now : time.Time) : list Recording :=
  [recording 1 (now - 60 * time.Minute) 100;
   recording 2 (now - 180 * time.Minute) 200;
   recording 3 (now - 30 * time.Minute) 100;
   recording 4 (now - 90 * time.Minute) 300].

(** The order [less] of a descending sort by an integer key. *)
Definition descending_by {A : Type} (key : A -> Z) (x y : A) : bool :=
  key y <? key x.

(** No byte of [s] is in the class of white space of the patterns. *)
Fixpoint no_space (s : string) : bool :=
  match s with
  | EmptyString => true
  | String c s' => negb (regexp.space c) && no_space s'
  end.

(** The pages of TestListRecordingsByType_EarlyTermination, minutes
    counted back from the instant [100 * time.Hour], behind the bodies
    page1, page2 and page3. *)
Definition sampleDecodeRecordings (body : string) : error + list Recording :=
  let now := 100 * time.Hour in
  if String.eqb body "page1"
  then inr [recording 1 (now - 60 * time.Minute) 0;
            recording 2 (now - 90 * time.Minute) 0]
  else if String.eqb body "page2"
  then inr [recording 3 (now - 180 * time.Minute) 0;
            recording 4 (now - 240 * time.Minute) 0]
  else if String.eqb body "page3"
  then inr [recording 5 (now - 300 * time.Minute) 0]
  else inl (errorString "invalid character").

(** * Part I, continued: the limiter in use, the aggregator, the reverse
      conversion and the resolvers *)

(** ** The limiter in use *)

(** Whether a critical section hands out a token: a turn of [Wait] that
    takes one (the call then returns), a [TryAcquire] that answers true. *)
Definition limiter_grants (op : LimiterOp) (rl : RateLimiter)
    : option (RateLimiter * bool) :=
  match op with
  | OpWaitTurn now now' =>
    match Wait_turn now now' rl with
    | Some (rl1, Acquired) => Some (rl1, true)
    | Some (rl1, Sleeps _) => Some (rl1, false)
    | None => None
    end
  | OpTryAcquire now => TryAcquire now rl
  | OpReset now => Some (Reset now rl, false)
  end.

(** The number of tokens a run of critical sections hands out. *)
Fixpoint granted (ops : list LimiterOp) (rl : RateLimiter)
    : option (RateLimiter * nat) :=
  match ops with
  | [] => Some (rl, 0%nat)
  | op :: ops' =>
    match limiter_grants op rl with
    | None => None
    | Some (rl1, ok) =>
      match granted ops' rl1 with
      | None => None
      | Some (rl2, n) => Some (rl2, if ok then S n else n)
      end
    end
  end.

(** The instant a critical section reads for its refill; [Reset] is not
    one of the sections that hand out tokens. *)
Definition acquires_before (horizon : time.Time) (op : LimiterOp) : Prop :=
  match op with
  | OpWaitTurn now _ | OpTryAcquire now => now <= horizon
  | OpReset _ => False
  end.

(** Successive calls of [TryAcquire] at the instants [clock], with their
    answers. *)
Fixpoint TryAcquire_each (clock : list time.Time) (rl : RateLimiter)
    : option (RateLimiter * list bool) :=
  match clock with
  | [] => Some (rl, [])
  | now :: clock' =>
    match TryAcquire now rl with
    | None => None
    | Some (rl1, ok) =>
      match TryAcquire_each clock' rl1 with
      | None => None
      | Some (rl2, oks) => Some (rl2, ok :: oks)
      end
    end
  end.

(** ** The aggregator of the activity feed *)

(** The types fetched when the options name none. *)
Definition defaultTypes : list string :=
  ["Todo"; "Message"; "Document"; "Comment"].

(** The local [typesToFetch] of [ListRecordings]. *)
Definition typesToFetch (opts : option ActivityListOptions) : list string :=
  match opts with
  | Some o =>
    if Nat.ltb 0 (length (RecordingTypes o)) then RecordingTypes o
    else defaultTypes
  | None => defaultTypes
  end.

(** The local [since] of [ListRecordings]. *)
Definition since_of (opts : option ActivityListOptions) : option time.Time :=
  match opts with
  | Some o => Since o
  | None => None
  end.

Section ListRecordingsAll.
(** What the goroutine of index [i] gets from its call
    [c.listRecordingsByType(gctx, projectID, recordingType, since)]; the
    function itself is [listRecordingsByType] above. *)
Variable fetch : nat -> string -> option time.Time -> error + list Recording.

(** The closure passed to [g.Go] for the index [i] of the loop (the loop
    variables are per iteration): its error result, and what it has then
    written to [results[i]]. *)
Definition fetch_type (since : option time.Time) (i : nat)
    (recordingType : string) : option error * list Recording :=
  match fetch i recordingType since with
  | inl err =>
    (Some (wrapError ("failed to list " +:+ recordingType +:+ " recordings") err),
     [])
  | inr recs => (None, recs)
  end.

(** [g.Wait()]: the first error that a goroutine has returned.  [finished]
    lists the indices of the goroutines in the order in which they have
    returned. *)
Fixpoint group_Wait (outcomes : list (option error * list Recording))
    (finished : list nat) : option error :=
  match finished with
  | [] => None
  | i :: finished' =>
    match outcomes !! i with
    | Some (Some err, _) => Some err
    | _ => group_Wait outcomes finished'
    end
  end.

(** [ListRecordings]; [opts] is a pointer in the source, and the nil slice
    returned with an error is [None]. *)
Definition ListRecordings (opts : option ActivityListOptions)
    (finished : list nat) : option (list Recording) * option error :=
  let outcomes := imap (fetch_type (since_of opts)) (typesToFetch opts) in
  match group_Wait outcomes finished with
  | Some err => (None, Some err)
  | None =>
    let allRecordings := concat (map snd outcomes) in
    let allRecordings := sortRecordings allRecordings in
    match opts with
    | Some o => (Some (filterRecordings allRecordings o), None)
    | None => (Some allRecordings, None)
    end
  end.

End ListRecordingsAll.

(** The filters of [filterRecordings] under optional options. *)
Definition passes (opts : option ActivityListOptions) (r : Recording) : bool :=
  match opts with
  | Some o => keeps o r
  | None => true
  end.

(** The positive limit of the options, if any. *)
Definition limit_of (opts : option ActivityListOptions) : option Z :=
  match opts with
  | Some o => if 0 <? Limit o then Some (Limit o) else None
  | None => None
  end.

(** What the goroutines have fetched when all of them succeed, in the
    order of the types. *)
Definition fetched (fetch : nat -> string -> option time.Time ->
                            error + list Recording)
    (opts : option ActivityListOptions) : list Recording :=
  concat (map snd (imap (fetch_type fetch (since_of opts)) (typesToFetch opts))).

(** ** The paginated fetcher: what a call has cost *)

(** The pause of [GetAll] between two pages. *)
Definition pagePause : time.Duration := 100 * time.Millisecond.

(** The cost of a call that took the world from [w] to [w']: the paths
    requested, the tokens taken from the limiter and the pauses made. *)
Record Cost := {
  made : list string;
  tokensTaken : nat;
  pauses : nat
}.

Definition cost_of {T : Type} (w w' : World T) (c : Cost) : Prop :=
  requests w' = requests w ++ made c /\
  waits w' = (waits w + tokensTaken c)%nat /\
  slept w' = slept w + Z.of_nat (pauses c) * pagePause.

(** ** Link headers as the server writes them *)

(** The header of a page that has a next page: the URL in angle brackets
    and the relation next. *)
Definition next_header (url : string) : string :=
  "<" +:+ url +:+ ">; " +:+ quoted_rel "next".

(** No byte of [s] closes an angle bracket. *)
Definition no_close_bracket (s : string) : bool :=
  all_bytes (fun c => negb (Ascii.eqb c ">")) s.

(** ** From rich text back to Markdown *)

Module richtext.

Import regexp.

(** [MatchString] for a pattern without anchor: some suffix of [s] starts
    with a match.  The two patterns it is used with hold one class that
    takes a single rune, next to ASCII delimiters: a rune outside ASCII
    matches the class with its last byte before the delimiters and with
    its first byte after them, so a match of bytes exists exactly when a
    match of runes does. *)
Fixpoint MatchString (re : Regexp) (s : string) : bool :=
  match match_here re 0 s with
  | Some _ => true
  | None =>
    match s with
    | EmptyString => false
    | String _ s' => MatchString re s'
    end
  end.

(** [processLists] *)
Definition processLists (html : string) : string :=
  let result := html in
  let result := gostrings.ReplaceAll result "<ul>" EmptyString in
  let result := gostrings.ReplaceAll result "</ul>" (str newline) in
  let result := ReplaceAllString (lit "<li>" ++ star space) result "- " in
  ReplaceAllString (star space ++ lit "</li>") result (str newline).

(** [processCodeElements]: inline code when a pre tag has other content
    before it or after it on the line, a code block otherwise. *)
Definition processCodeElements (html : string) : string :=
  let result := html in
  if MatchString
       (one (fun c => negb (Ascii.eqb c ">") && negb (space c))
        ++ star space ++ lit "<pre>") result
     || MatchString
          (lit "</pre>" ++ star space
           ++ one (fun c => negb (Ascii.eqb c "<") && negb (space c))) result
  then
    let result := gostrings.ReplaceAll result "<pre>" "`" in
    gostrings.ReplaceAll result "</pre>" "`"
  else
    let result :=
      ReplaceAllString (lit "<pre>" ++ star space) result
        ("```" +:+ str newline) in
    ReplaceAllString (star space ++ lit "</pre>") result
      (str newline +:+ "```").

(** [decodeHTMLEntities] *)
Definition decodeHTMLEntities (html : string) : string :=
  let result := html in
  let result := gostrings.ReplaceAll result "&amp;" "&" in
  let result := gostrings.ReplaceAll result "&lt;" "<" in
  let result := gostrings.ReplaceAll result "&gt;" ">" in
  let result := gostrings.ReplaceAll result "&quot;" (str dquote) in
  let result := gostrings.ReplaceAll result "&#39;" "'" in
  gostrings.ReplaceAll result "&nbsp;" " ".

(** [RichTextToMarkdown]: the pair of the result and the error, which is
    always nil. *)
Definition RichTextToMarkdown (richtext : string) : string * option error :=
  if String.eqb richtext EmptyString || String.eqb richtext "<div></div>"
  then (EmptyString, None)
  else
    let html := gostrings.ReplaceAll richtext "<div>" "<p>" in
    let html := gostrings.ReplaceAll html "</div>" "</p>" in
    let result := html in
    let result :=
      ReplaceAllString (lit "<h1" ++ star (not_byte ">") ++ lit ">") result
        "# " in
    let result :=
      gostrings.ReplaceAll result "</h1>" (str newline +:+ str newline) in
    let result := gostrings.ReplaceAll result "<p>" EmptyString in
    let result :=
      gostrings.ReplaceAll result "</p>" (str newline +:+ str newline) in
    let result := gostrings.ReplaceAll result "<strong>" "**" in
    let result := gostrings.ReplaceAll result "</strong>" "**" in
    let result := gostrings.ReplaceAll result "<b>" "**" in
    let result := gostrings.ReplaceAll result "</b>" "**" in
    let result := gostrings.ReplaceAll result "<em>" "*" in
    let result := gostrings.ReplaceAll result "</em>" "*" in
    let result := gostrings.ReplaceAll result "<i>" "*" in
    let result := gostrings.ReplaceAll result "</i>" "*" in
    let result := gostrings.ReplaceAll result "<strike>" "~~" in
    let result := gostrings.ReplaceAll result "</strike>" "~~" in
    let result := gostrings.ReplaceAll result "<del>" "~~" in
    let result := gostrings.ReplaceAll result "</del>" "~~" in
    let result := gostrings.ReplaceAll result "<br>" (str newline) in
    let result := gostrings.ReplaceAll result "<br/>" (str newline) in
    let result := gostrings.ReplaceAll result "<br />" (str newline) in
    let result := processLists result in
    let result := gostrings.ReplaceAll result "<blockquote>" "> " in
    let result :=
      gostrings.ReplaceAll result "</blockquote>" (str newline +:+ str newline) in
    let result := processCodeElements result in
    let result := decodeHTMLEntities result in
    let nl := Ascii.eqb newline in
    let result :=
      ReplaceAllString (one nl ++ one nl ++ one nl ++ star nl) result
        (str newline +:+ str newline) in
    (gostrings.TrimSpace result, None).

End richtext.

(** No byte of [s] is [c]. *)
Definition without_byte (c : ascii) (s : string) : bool :=
  all_bytes (fun b => negb (Ascii.eqb b c)) s.

(** The pattern takes the byte [c] once, at some place: every text it
    matches holds [c]. *)
Definition needs (c : ascii) (re : regexp.Regexp) : Prop :=
  Exists (fun p => regexp.rep p = regexp.One /\ regexp.cls p = Ascii.eqb c) re.

(** ** The user resolver (internal/utils) *)

Module utils.

Section UserResolver.
(** strings.ToLower on names and e-mail addresses, which are not bound to
    ASCII: the mapping of the letters to lower case is left open. *)
Variable ToLower : string -> string.

(** The cache of the resolver: [people] and [cached]. *)
Record UserResolver := {
  people : list Person;
  cached : bool
}.

(** [ensurePeopleCached], with [answer] what
    [ur.client.GetProjectPeople(ctx, ur.projectID)] returns when it is
    called. *)
Definition ensurePeopleCached (answer : error + list Person)
    (ur : UserResolver) : option error * UserResolver :=
  if cached ur then (None, ur)
  else
    match answer with
    | inl err => (Some (wrapError "failed to fetch project people" err), ur)
    | inr fetched_ => (None, {| people := fetched_; cached := true |})
    end.

(** The result of a loop [for _, person := range ur.people] that returns
    the ID of the first person passing [test]. *)
Definition first_person (test : Person -> bool) (ps : list Person)
    : option Z :=
  Person_ID <$> List.find test ps.

(** [findByEmail] *)
Definition findByEmail (ur : UserResolver) (email : string) : Z * bool :=
  let email := ToLower (gostrings.TrimSpace email) in
  match first_person
          (fun person => String.eqb (ToLower (Person_EmailAddress person)) email)
          (people ur) with
  | Some id => (id, true)
  | None => (0, false)
  end.

(** [findByName]: the whole name, then one of its words, then a part of
    it. *)
Definition findByName (ur : UserResolver) (name : string) : Z * bool :=
  let name := ToLower (gostrings.TrimSpace name) in
  match first_person
          (fun person => String.eqb (ToLower (Person_Name person)) name)
          (people ur) with
  | Some id => (id, true)
  | None =>
    match first_person
            (fun person =>
               existsb (fun part => String.eqb part name)
                 (gostrings.Fields (ToLower (Person_Name person))))
            (people ur) with
    | Some id => (id, true)
    | None =>
      match first_person
              (fun person =>
                 gostrings.Contains (ToLower (Person_Name person)) name)
              (people ur) with
      | Some id => (id, true)
      | None => (0, false)
      end
    end
  end.

(** [resolveIdentifier] *)
Definition resolveIdentifier (ur : UserResolver) (identifier : string)
    : Z * bool :=
  let identifier := gostrings.TrimSpace identifier in
  if String.eqb identifier EmptyString then (0, false)
  else if gostrings.HasPrefix identifier "@"
  then findByName ur (gostrings.TrimPrefix identifier "@")
  else if gostrings.Contains identifier "@"
  then findByEmail ur identifier
  else
    match findByName ur identifier with
    | (id, true) => (id, true)
    | _ => findByEmail ur identifier
    end.

(** The loop of [ResolveUsers] over the identifiers, with the slices
    [personIDs] and [notFound] built so far. *)
Fixpoint ResolveUsers_loop (ur : UserResolver) (identifiers : list string)
    (personIDs : list Z) (notFound : list string) : list Z * list string :=
  match identifiers with
  | [] => (personIDs, notFound)
  | identifier :: rest =>
    let identifier := gostrings.TrimSpace identifier in
    if String.eqb identifier EmptyString
    then ResolveUsers_loop ur rest personIDs notFound
    else
      match resolveIdentifier ur identifier with
      | (personID, true) =>
        let duplicate := existsb (fun id => id =? personID) personIDs in
        if negb duplicate
        then ResolveUsers_loop ur rest (personIDs ++ [personID]) notFound
        else ResolveUsers_loop ur rest personIDs notFound
      | (_, false) =>
        ResolveUsers_loop ur rest personIDs (notFound ++ [identifier])
      end
  end.

(** The error that names the identifiers not found. *)
Definition errNotFound (notFound : list string) : error :=
  errorString ("could not find users: " +:+ gostrings.Join notFound ", ").

(** [ResolveUsers]: the IDs (nil is the empty list), the error, and the
    resolver as the call leaves it. *)
Definition ResolveUsers (answer : error + list Person) (ur : UserResolver)
    (identifiers : list string) : list Z * option error * UserResolver :=
  match ensurePeopleCached answer ur with
  | (Some err, ur) => ([], Some err, ur)
  | (None, ur) =>
    let (personIDs, notFound) := ResolveUsers_loop ur identifiers [] [] in
    if Nat.ltb 0 (length notFound)
    then ([], Some (errNotFound notFound), ur)
    else (personIDs, None, ur)
  end.

(** The loop of [ResolvePeople]. *)
Fixpoint ResolvePeople_loop (ur : UserResolver) (identifiers : list string)
    (found : list Person) (notFound : list string)
    : list Person * list string :=
  match identifiers with
  | [] => (found, notFound)
  | identifier :: rest =>
    let identifier := gostrings.TrimSpace identifier in
    if String.eqb identifier EmptyString
    then ResolvePeople_loop ur rest found notFound
    else
      match resolveIdentifier ur identifier with
      | (_, false) =>
        ResolvePeople_loop ur rest found (notFound ++ [identifier])
      | (personID, true) =>
        match List.find (fun p => Person_ID p =? personID) (people ur) with
        | Some p => ResolvePeople_loop ur rest (found ++ [p]) notFound
        | None => ResolvePeople_loop ur rest found notFound
        end
      end
  end.

(** [ResolvePeople] *)
Definition ResolvePeople (answer : error + list Person) (ur : UserResolver)
    (identifiers : list string) : list Person * option error * UserResolver :=
  match ensurePeopleCached answer ur with
  | (Some err, ur) => ([], Some err, ur)
  | (None, ur) =>
    let (found, notFound) := ResolvePeople_loop ur identifiers [] [] in
    if Nat.ltb 0 (length notFound)
    then ([], Some (errNotFound notFound), ur)
    else (found, None, ur)
  end.

(** [GetPeople] *)
Definition GetPeople (answer : error + list Person) (ur : UserResolver)
    : list Person * option error * UserResolver :=
  match ensurePeopleCached answer ur with
  | (Some err, ur) => ([], Some err, ur)
  | (None, ur) => (people ur, None, ur)
  end.

End UserResolver.

(** [NewUserResolver]: nothing is cached. *)
Definition NewUserResolver : UserResolver := {| people := []; cached := false |}.

End utils.

(** A person of a project, for the examples. *)
Definition member (id : Z) (name email : string) : Person :=
  {| Person_ID := id; Person_Name := name; Person_EmailAddress := email;
     Person_Title := EmptyString; Person_AvatarURL := EmptyString;
     Person_Company := None; Person_CreatedAt := EmptyString;
     Person_Admin := false; Person_Owner := false |}.

(** The identifiers of a call that are not blank, trimmed. *)
Definition named (identifiers : list string) : list string :=
  List.filter (fun i => negb (String.eqb i EmptyString))
    (map gostrings.TrimSpace identifiers).

(** ** Card tables: the column of a move (cmd/card) *)

Record OnHoldStatus := {
  OnHold_ID : Z;
  OnHold_Enabled : bool;
  OnHold_CardsCount : Z;
  OnHold_CardsURL : string
}.

Record Column := {
  Column_ID : Z;
  Column_Title : string;
  Column_Name : string;
  Column_Type : string;
  Column_Color : string;
  Column_Status : string;
  Column_OnHold : OnHoldStatus;
  Column_CardsCount : Z;
  Column_CardsURL : string;
  Column_CreatedAt : time.Time;
  Column_UpdatedAt : time.Time
}.

Record CardTable := {
  CardTable_ID : Z;
  CardTable_Title : string;
  CardTable_Name : string;
  CardTable_Description : string;
  CardTable_Status : string;
  CardTable_CreatedAt : time.Time;
  CardTable_UpdatedAt : time.Time;
  Lists : list Column;
  CardTable_CardsCount : Z;
  CardTable_URL : string
}.

Record Step := {
  Step_ID : Z;
  Step_Title : string;
  Step_Status : string;
  Step_Completed : bool;
  Step_DueOn : option string;
  Step_Assignees : list Person;
  Step_Creator : option Person;
  Step_CreatedAt : time.Time;
  Step_UpdatedAt : time.Time
}.

Record Card := {
  Card_ID : Z;
  Card_Title : string;
  Card_Content : string;
  Card_Status : string;
  Card_DueOn : option string;
  Card_Assignees : list Person;
  Card_Steps : list Step;
  Card_StepsCount : Z;
  Card_CommentsCount : Z;
  Card_Creator : option Person;
  Card_CreatedAt : time.Time;
  Card_UpdatedAt : time.Time;
  Card_Parent : option Column;
  Card_URL : string;
  Card_IsOnHold : bool
}.

Module strconv.

(** The value of a run of decimal digits; [None] for any other byte. *)
Fixpoint digits (s : string) (acc : Z) : option Z :=
  match s with
  | EmptyString => Some acc
  | String c s' =>
    if is_digit c
    then digits s' (10 * acc + (Z.of_nat (nat_of_ascii c) - 48))
    else None
  end.

(** [ParseInt(s, 10, 64)]: an optional sign, then one or more digits, then
    the test of the range; [None] stands for every error. *)
Definition ParseInt (s : string) : option Z :=
  match s with
  | EmptyString => None
  | String c s' =>
    let neg := Ascii.eqb c "-" in
    let body := if Ascii.eqb c "+" || Ascii.eqb c "-" then s' else s in
    match body with
    | EmptyString => None
    | String _ _ =>
      match digits body 0 with
      | None => None
      | Some un =>
        let n := if neg then - un else un in
        if (min_int64 <=? n) && (n <=? max_int64) then Some n else None
      end
    end
  end.

(** The verb [%d] of fmt on an integer. *)
Definition FormatInt (n : Z) : string :=
  DecimalString.NilZero.string_of_int (Z.to_int n).

End strconv.

Module card.

Section FindColumn.
(** strings.ToLower on titles, which are not bound to ASCII. *)
Variable ToLower : string -> string.

(** A loop [for i := range cardTable.Lists] that returns the address of
    the first column passing [test]: its index. *)
Fixpoint first_column (test : Column -> bool) (lists : list Column) (i : nat)
    : option nat :=
  match lists with
  | [] => None
  | col :: rest => if test col then Some i else first_column test rest (S i)
  end.

(** [findColumn]; the pointer returned is [&cardTable.Lists[i]]. *)
Definition findColumn (cardTable : CardTable) (columnName : string)
    (card_ : Card) : error + nat :=
  if negb (String.eqb columnName EmptyString)
  then
    match strconv.ParseInt columnName with
    | Some id =>
      match first_column (fun col => Column_ID col =? id) (Lists cardTable) 0 with
      | Some i => inr i
      | None =>
        inl (errorString
               ("column ID " +:+ strconv.FormatInt id
                +:+ " not found in card table '" +:+ CardTable_Title cardTable
                +:+ "'"))
      end
    | None =>
      let columnNameLower := ToLower columnName in
      match first_column
              (fun col => String.eqb (ToLower (Column_Title col)) columnNameLower)
              (Lists cardTable) 0 with
      | Some i => inr i
      | None =>
        inl (errorString
               ("column '" +:+ columnName +:+ "' not found in card table '"
                +:+ CardTable_Title cardTable +:+ "'"))
      end
    end
  else
    match Card_Parent card_ with
    | None => inl (errorString "card has no parent column")
    | Some parent =>
      match first_column (fun col => Column_ID col =? Column_ID parent)
              (Lists cardTable) 0 with
      | Some i => inr i
      | None =>
        inl (errorString "could not find card's current column in card table")
      end
    end.

End FindColumn.

End card.

(** A column with an ID and a title, for the examples. *)
Definition column (id : Z) (title : string) : Column :=
  {| Column_ID := id; Column_Title := title; Column_Name := EmptyString;
     Column_Type := EmptyString; Column_Color := EmptyString;
     Column_Status := EmptyString;
     Column_OnHold := {| OnHold_ID := 0; OnHold_Enabled := false;
                         OnHold_CardsCount := 0;
                         OnHold_CardsURL := EmptyString |};
     Column_CardsCount := 0; Column_CardsURL := EmptyString;
     Column_CreatedAt := 0; Column_UpdatedAt := 0 |}.

Definition cardTableOf (title : string) (lists : list Column) : CardTable :=
  {| CardTable_ID := 0; CardTable_Title := title; CardTable_Name := EmptyString;
     CardTable_Description := EmptyString; CardTable_Status := EmptyString;
     CardTable_CreatedAt := 0; CardTable_UpdatedAt := 0; Lists := lists;
     CardTable_CardsCount := 0; CardTable_URL := EmptyString |}.

Definition cardIn (parent : option Column) : Card :=
  {| Card_ID := 0; Card_Title := EmptyString; Card_Content := EmptyString;
     Card_Status := EmptyString; Card_DueOn := None; Card_Assignees := [];
     Card_Steps := []; Card_StepsCount := 0; Card_CommentsCount := 0;
     Card_Creator := None; Card_CreatedAt := 0; Card_UpdatedAt := 0;
     Card_Parent := parent; Card_URL := EmptyString; Card_IsOnHold := false |}.

(** ** Headers on which the Link parser terminates *)

(** The bytes after which the parser may start a parameter. *)
Definition is_delimiter (c : ascii) : bool :=
  is_sp_tab c || Ascii.eqb c ";" || Ascii.eqb c ">" || Ascii.eqb c dquote.

(** No equals sign of [s] stands directly after a delimiter; [prev] is the
    byte before [s]. *)
Fixpoint equals_after (prev : ascii) (s : string) : bool :=
  match s with
  | EmptyString => true
  | String c s' =>
    negb (Ascii.eqb c "=" && is_delimiter prev) && equals_after c s'
  end.

(** The same for a whole header, whose first byte follows nothing. *)
Definition equals_follow_names (linkHeader : string) : bool :=
  match linkHeader with
  | EmptyString => true
  | String c s => equals_after c s
  end.

Definition starts_with_equals (s : string) : bool :=
  match s with
  | String c _ => Ascii.eqb c "="
  | EmptyString => false
  end.

(** The rest of a header at which a turn of the loop over the parameters
    can start without finding an empty name. *)
Definition turn_start (prev : ascii) (s : string) : Prop :=
  equals_after prev s = true /\
  (is_delimiter prev = true \/ starts_with_equals s = false).

(** ** Tags as the validator reads them *)

(** The bytes of a tag name after its first letter. *)
Definition tag_name_byte (c : ascii) : bool :=
  regexp.letter c || regexp.digit c || Ascii.eqb c "-".

(** A tag name: a letter, then letters, digits and hyphens. *)
Definition is_tag_name (name : string) : bool :=
  match name with
  | EmptyString => false
  | String c name' => regexp.letter c && all_bytes tag_name_byte name'
  end.

(** A tag without attributes. *)
Definition bare_tag (name : string) : string := "<" +:+ name +:+ ">".

(** * Part II: the properties *)

(** ** The stable sort *)

Section SinkFacts.
Context {A : Type} (key : A -> Z).

Lemma sink_perm (x : A) (rprefix : list A) :
  Permutation (sink (descending_by key) x rprefix) (x :: rprefix).
Proof.
  induction rprefix as [|y r IH]; simpl; [reflexivity|].
  destruct (descending_by key x y).
  - rewrite IH. apply perm_swap.
  - reflexivity.
Qed.

Lemma sink_sorted (x : A) (rprefix : list A) :
  StronglySorted (fun a b => key a <= key b) rprefix ->
  StronglySorted (fun a b => key a <= key b) (sink (descending_by key) x rprefix).
Proof.
  induction rprefix as [|y r IH]; intros Hs; simpl.
  - repeat constructor.
  - inversion Hs as [|? ? Hr Hall]; subst.
    unfold descending_by at 1. destruct (Z.ltb_spec (key y) (key x)) as [Hlt|Hge].
    + constructor; [apply IH; assumption|].
      eapply Permutation_Forall; [symmetry; apply sink_perm|].
      constructor; [lia|assumption].
    + constructor; [assumption|].
      constructor; [assumption|].
      eapply List.Forall_impl; [|exact Hall]. simpl. intros; lia.
Qed.

Lemma sink_filter (t : Z) (x : A) (rprefix : list A) :
  List.filter (fun a => key a =? t) (sink (descending_by key) x rprefix) =
  List.filter (fun a => key a =? t) (x :: rprefix).
Proof.
  induction rprefix as [|y r IH]; [reflexivity|].
  cbn [sink]. unfold descending_by at 1.
  destruct (Z.ltb_spec (key y) (key x)) as [Hlt|Hge]; [|reflexivity].
  cbn [List.filter] in *. rewrite IH.
  destruct (Z.eqb_spec (key y) t), (Z.eqb_spec (key x) t); try reflexivity.
  lia.
Qed.

Lemma fold_sink_perm (data acc : list A) :
  Permutation (fold_left (fun rp x => sink (descending_by key) x rp) data acc)
    (rev data ++ acc).
Proof.
  revert acc. induction data as [|x data IH]; intros acc; simpl.
  - reflexivity.
  - rewrite IH, sink_perm, <- app_assoc. simpl.
    apply Permutation_app_head. reflexivity.
Qed.

Lemma fold_sink_sorted (data acc : list A) :
  StronglySorted (fun a b => key a <= key b) acc ->
  StronglySorted (fun a b => key a <= key b)
    (fold_left (fun rp x => sink (descending_by key) x rp) data acc).
Proof.
  revert acc. induction data as [|x data IH]; intros acc Hs; simpl.
  - assumption.
  - apply IH, sink_sorted, Hs.
Qed.

Lemma fold_sink_filter (t : Z) (data acc : list A) :
  List.filter (fun a => key a =? t)
    (fold_left (fun rp x => sink (descending_by key) x rp) data acc) =
  List.filter (fun a => key a =? t) (rev data ++ acc).
Proof.
  revert acc. induction data as [|x data IH]; intros acc; simpl.
  - reflexivity.
  - rewrite IH, <- app_assoc, !List.filter_app, sink_filter.
    cbn [List.filter app]. destruct (key x =? t); reflexivity.
Qed.

Lemma sorted_snoc (R : A -> A -> Prop) (l : list A) (x : A) :
  StronglySorted R l -> Forall (fun a => R a x) l ->
  StronglySorted R (l ++ [x]).
Proof.
  induction 1 as [|a l Hs IH Hall]; intros Hx; simpl.
  - repeat constructor.
  - inversion Hx; subst. constructor; [apply IH; assumption|].
    apply Forall_app; split; [assumption|]. repeat constructor. assumption.
Qed.

Lemma sorted_rev (l : list A) :
  StronglySorted (fun a b => key a <= key b) l ->
  StronglySorted (fun a b => key b <= key a) (rev l).
Proof.
  induction 1 as [|a l Hs IH Hall]; simpl; [constructor|].
  apply sorted_snoc; [assumption|].
  eapply Permutation_Forall; [apply Permutation_rev|]. exact Hall.
Qed.

End SinkFacts.

(** The sort is a permutation, puts later updates first, and keeps the
    recordings of every one instant in their input order. *)
Lemma sortRecordings_perm (recordings : list Recording) :
  Permutation (sortRecordings recordings) recordings.
Proof.
  unfold sortRecordings, SliceStable, insertionSort.
  rewrite <- Permutation_rev.
  etransitivity; [apply (fold_sink_perm UpdatedAt)|].
  rewrite app_nil_r. symmetry. apply Permutation_rev.
Qed.

Lemma sortRecordings_descending (recordings : list Recording) :
  descending (sortRecordings recordings).
Proof.
  unfold descending, sortRecordings, SliceStable, insertionSort.
  eapply StronglySorted_ind with
    (P := fun l => StronglySorted
            (fun a b => time.After (UpdatedAt b) (UpdatedAt a) = false) l).
  - constructor.
  - intros a l _ IH Hall. constructor; [exact IH|].
    eapply List.Forall_impl; [|exact Hall].
    intros b Hb. unfold time.After. apply Z.ltb_ge. exact Hb.
  - apply (sorted_rev UpdatedAt).
    apply (fold_sink_sorted UpdatedAt). constructor.
Qed.

Lemma sortRecordings_keeps_order (t : time.Time) (recordings : list Recording) :
  updated_at t (sortRecordings recordings) = updated_at t recordings.
Proof.
  unfold updated_at, sortRecordings, SliceStable, insertionSort, time.Equal,
    time.After.
  rewrite List.filter_rev.
  pose proof (fold_sink_filter UpdatedAt t recordings []) as Hfold.
  unfold descending_by in Hfold. rewrite Hfold.
  rewrite app_nil_r, <- List.filter_rev, rev_involutive. reflexivity.
Qed.

Lemma in_updated_at (t : time.Time) (l : list Recording) (r : Recording) :
  In r (updated_at t l) <-> In r l /\ UpdatedAt r = t.
Proof.
  unfold updated_at, time.Equal. rewrite List.filter_In, Z.eqb_eq. reflexivity.
Qed.

Lemma descending_head (a : Recording) (l : list Recording) (r : Recording) :
  descending (a :: l) -> In r (a :: l) -> UpdatedAt r <= UpdatedAt a.
Proof.
  intros Hd [->|Hin]; [lia|].
  inversion Hd as [|? ? _ Hall]; subst.
  rewrite List.Forall_forall in Hall. specialize (Hall r Hin).
  unfold time.After in Hall. apply Z.ltb_ge in Hall. exact Hall.
Qed.

(** A descending list is determined by its recordings of each instant in
    their order: there is one stable descending arrangement of a slice, the
    one any stable sort returns. *)
Lemma stable_descending_unique (l1 l2 : list Recording) :
  descending l1 -> descending l2 ->
  (forall t, updated_at t l1 = updated_at t l2) ->
  l1 = l2.
Proof.
  revert l2. induction l1 as [|a l1 IH]; intros l2 H1 H2 Heq.
  - destruct l2 as [|b l2]; [reflexivity|].
    specialize (Heq (UpdatedAt b)). unfold updated_at, time.Equal in Heq.
    cbn [List.filter] in Heq. rewrite Z.eqb_refl in Heq. discriminate.
  - destruct l2 as [|b l2].
    + specialize (Heq (UpdatedAt a)). unfold updated_at, time.Equal in Heq.
      cbn [List.filter] in Heq. rewrite Z.eqb_refl in Heq. discriminate.
    + assert (Hab : UpdatedAt a = UpdatedAt b).
      { apply Z.le_antisymm.
        - apply (descending_head b l2 a H2).
          apply (in_updated_at (UpdatedAt a)). rewrite <- Heq.
          apply in_updated_at. split; [left; reflexivity|reflexivity].
        - apply (descending_head a l1 b H1).
          apply (in_updated_at (UpdatedAt b)). rewrite Heq.
          apply in_updated_at. split; [left; reflexivity|reflexivity]. }
      assert (Hhd : a = b /\ forall t, updated_at t l1 = updated_at t l2).
      { split.
        - specialize (Heq (UpdatedAt a)). unfold updated_at, time.Equal in Heq.
          cbn [List.filter] in Heq. rewrite <- Hab, Z.eqb_refl in Heq.
          congruence.
        - intros t. specialize (Heq t). unfold updated_at, time.Equal in *.
          cbn [List.filter] in Heq. rewrite <- Hab in Heq.
          destruct (UpdatedAt a =? t); congruence. }
      destruct Hhd as [-> Htl]. f_equal.
      apply IH; [inversion H1; assumption|inversion H2; assumption|exact Htl].
Qed.

(** C9: [sortRecordings] returns a permutation of its input in descending
    order of [UpdatedAt], and for every instant the recordings last
    updated at that instant stand in the output in the order they had in
    the input. *)
Theorem sortRecordings_stable_descending (recordings : list Recording) :
  Permutation (sortRecordings recordings) recordings /\
  descending (sortRecordings recordings) /\
  forall t, updated_at t (sortRecordings recordings) = updated_at t recordings.
Proof.
  split; [apply sortRecordings_perm|].
  split; [apply sortRecordings_descending|].
  intros t. apply sortRecordings_keeps_order.
Qed.

(** The cases of TestSortRecordings, with hours counted back from an
    instant [now]. *)
Example sortRecordings_by_instant :
  let now := 100 * time.Hour in
  map ID (sortRecordings [recording 1 (now - 3 * time.Hour) 0;
                          recording 2 (now - 1 * time.Hour) 0;
                          recording 3 (now - 2 * time.Hour) 0])
  = [2; 3; 1].
Proof. reflexivity. Qed.

Example sortRecordings_equal_instants :
  map ID (sortRecordings [recording 1 7 0; recording 2 7 0; recording 3 7 0])
  = [1; 2; 3].
Proof. reflexivity. Qed.

(** ** The filters of the activity feed *)

Lemma filterRecordings_loop_spec (opts : ActivityListOptions)
    (recordings filtered : list Recording) :
  under_limit opts (length filtered) ->
  filterRecordings_loop opts recordings filtered =
  filtered ++
    (if 0 <? Limit opts
     then firstn (Z.to_nat (Limit opts) - length filtered)
            (List.filter (keeps opts) recordings)
     else List.filter (keeps opts) recordings).
Proof.
  revert filtered. induction recordings as [|r rest IH]; intros filtered Hlim.
  - simpl. rewrite firstn_nil. destruct (0 <? Limit opts); now rewrite app_nil_r.
  - cbn [filterRecordings_loop List.filter].
    assert (Hk : keeps opts r =
                 negb match Since opts with
                      | Some since => time.Before (UpdatedAt r) since
                      | None => false end
                 && negb ((0 <? PersonID opts)
                          && negb (Person_ID (Creator r) =? PersonID opts)))
      by reflexivity.
    rewrite Hk. clear Hk.
    destruct (match Since opts with
              | Some since => time.Before (UpdatedAt r) since
              | None => false end); cbn [negb andb]; [apply IH, Hlim|].
    destruct ((0 <? PersonID opts)
              && negb (Person_ID (Creator r) =? PersonID opts));
      cbn [negb]; [apply IH, Hlim|].
    unfold under_limit in Hlim.
    destruct (Z.ltb_spec 0 (Limit opts)) as [Hpos|Hnon]; cbn [andb].
    + specialize (Hlim Hpos).
      replace (Z.to_nat (Limit opts) - length filtered)%nat
        with (S (Z.to_nat (Limit opts) - length (filtered ++ [r])))%nat
        by (rewrite length_app; simpl; lia).
      cbn [firstn].
      destruct (Z.leb_spec (Limit opts) (Z.of_nat (length (filtered ++ [r]))))
        as [Hfull|Hroom].
      * replace (Z.to_nat (Limit opts) - length (filtered ++ [r]))%nat
          with 0%nat by lia.
        reflexivity.
      * rewrite IH by (intros _; exact Hroom).
        destruct (Z.ltb_spec 0 (Limit opts)); [|lia].
        rewrite <- app_assoc. reflexivity.
    + rewrite IH by (intros ?; lia).
      destruct (Z.ltb_spec 0 (Limit opts)); [lia|].
      rewrite <- app_assoc. reflexivity.
Qed.

(** [filterRecordings] keeps, in order, the recordings that pass the two
    filters, cut to the first [Limit] of them when [Limit] is positive. *)
Lemma filterRecordings_spec (recordings : list Recording)
    (opts : ActivityListOptions) :
  filterRecordings recordings opts =
  if 0 <? Limit opts
  then firstn (Z.to_nat (Limit opts)) (List.filter (keeps opts) recordings)
  else List.filter (keeps opts) recordings.
Proof.
  unfold filterRecordings. rewrite filterRecordings_loop_spec.
  - simpl. rewrite Nat.sub_0_r. reflexivity.
  - intros H. simpl. lia.
Qed.

(** C3, as it stands, fails: a recording last updated exactly at [since]
    passes the filter. *)
Lemma filterRecordings_keeps_update_at_since :
  In (recording 1 5 100)
     (filterRecordings [recording 1 5 100] (options (Some 5) 0 0)) /\
  time.Equal (UpdatedAt (recording 1 5 100)) 5 = true.
Proof. split; [left; reflexivity|reflexivity]. Qed.

(** C3, amended: [since] is an inclusive lower bound.  No recording of the
    output was last updated strictly before [since]; a recording last
    updated exactly at [since] is in the output whenever it passes the
    person filter and no positive limit cuts the list. *)
Theorem filterRecordings_since_inclusive (recordings : list Recording)
    (opts : ActivityListOptions) (since : time.Time) :
  Since opts = Some since ->
  (forall r, In r (filterRecordings recordings opts) ->
             time.Before (UpdatedAt r) since = false) /\
  (forall r, In r recordings ->
             time.Equal (UpdatedAt r) since = true ->
             (PersonID opts <= 0 \/ Person_ID (Creator r) = PersonID opts) ->
             Limit opts <= 0 ->
             In r (filterRecordings recordings opts)).
Proof.
  intros Hsince. rewrite filterRecordings_spec. split.
  - intros r Hin.
    assert (Hf : In r (List.filter (keeps opts) recordings)).
    { destruct (0 <? Limit opts); [|exact Hin].
      rewrite <- (firstn_skipn (Z.to_nat (Limit opts))).
      apply in_or_app. left. exact Hin. }
    apply List.filter_In in Hf as [_ Hk]. unfold keeps in Hk.
    rewrite Hsince in Hk. apply andb_prop in Hk as [Hk _].
    now apply negb_true_iff in Hk.
  - intros r Hin Heq Hperson Hlimit.
    destruct (Z.ltb_spec 0 (Limit opts)); [lia|].
    apply List.filter_In. split; [exact Hin|].
    unfold keeps. rewrite Hsince. unfold time.Equal, time.Before in *.
    apply Z.eqb_eq in Heq. apply andb_true_intro. split.
    + apply negb_true_iff, Z.ltb_ge. lia.
    + apply negb_true_iff. destruct Hperson as [Hp|Hp].
      * destruct (Z.ltb_spec 0 (PersonID opts)); [lia|reflexivity].
      * rewrite Hp, Z.eqb_refl. apply andb_false_r.
Qed.

Lemma filterRecordings_since_inclusive_witness :
  (forall r,
     In r (filterRecordings [recording 1 5 100; recording 2 3 100]
             (options (Some 5) 0 0)) ->
     time.Before (UpdatedAt r) 5 = false) /\
  (forall r,
     In r [recording 1 5 100; recording 2 3 100] ->
     time.Equal (UpdatedAt r) 5 = true ->
     (PersonID (options (Some 5) 0 0) <= 0 \/
      Person_ID (Creator r) = PersonID (options (Some 5) 0 0)) ->
     Limit (options (Some 5) 0 0) <= 0 ->
     In r (filterRecordings [recording 1 5 100; recording 2 3 100]
             (options (Some 5) 0 0))).
Proof.
  apply (filterRecordings_since_inclusive
           [recording 1 5 100; recording 2 3 100] (options (Some 5) 0 0) 5).
  reflexivity.
Defined.

(** The cases of TestFilterRecordings. *)
Example filterRecordings_by_since :
  let now := 100 * time.Hour in
  map ID (filterRecordings (test_recordings now)
            (options (Some (now - 2 * time.Hour)) 0 0)) = [1; 3; 4].
Proof. reflexivity. Qed.

Example filterRecordings_by_person :
  map ID (filterRecordings (test_recordings (100 * time.Hour))
            (options None 100 0)) = [1; 3].
Proof. reflexivity. Qed.

Example filterRecordings_with_limit :
  map ID (filterRecordings (test_recordings (100 * time.Hour))
            (options None 0 2)) = [1; 2].
Proof. reflexivity. Qed.

Example filterRecordings_combined :
  let now := 100 * time.Hour in
  map ID (filterRecordings (test_recordings now)
            (options (Some (now - 2 * time.Hour)) 100 1)) = [1].
Proof. reflexivity. Qed.

(** ** The page check of the early termination *)

(** C4, as it stands, fails: the last recording of the page was updated
    exactly at the cutoff, so not after it, and the check says continue. *)
Lemma sincePageCheck_continues_at_cutoff :
  sincePageCheck 5
    (mkPage (TSlice tRecording) [recording 1 9 0; recording 2 5 0]) = true /\
  time.After (UpdatedAt (recording 2 5 0)) 5 = false.
Proof. split; reflexivity. Qed.

(** C4, amended: on a non-empty page of recordings the check returns false
    (stop after this page) exactly when the last recording was updated
    strictly before the cutoff, and true (continue) otherwise, so also when
    it was updated exactly at the cutoff. *)
Theorem sincePageCheck_stops_strictly_before (cutoff : time.Time)
    (recs : list Recording) (last_ : Recording) :
  last recs = Some last_ ->
  (sincePageCheck cutoff (mkPage (TSlice tRecording) recs) = false <->
   time.Before (UpdatedAt last_) cutoff = true) /\
  (sincePageCheck cutoff (mkPage (TSlice tRecording) recs) = true <->
   time.Before (UpdatedAt last_) cutoff = false) /\
  (time.Equal (UpdatedAt last_) cutoff = true ->
   sincePageCheck cutoff (mkPage (TSlice tRecording) recs) = true).
Proof.
  intros Hlast.
  assert (Hcheck : sincePageCheck cutoff (mkPage (TSlice tRecording) recs) =
                   negb (time.Before (UpdatedAt last_) cutoff)).
  { unfold sincePageCheck. cbn [page_type page_items].
    replace (rtype_eqb (TSlice tRecording) (TSlice tRecording)) with true
      by reflexivity.
    destruct recs as [|r recs]; [discriminate|].
    cbn [negb orb length Nat.eqb]. rewrite Hlast. reflexivity. }
  rewrite Hcheck. repeat split.
  - apply negb_false_iff.
  - intros ->. reflexivity.
  - apply negb_true_iff.
  - intros ->. reflexivity.
  - unfold time.Equal, time.Before. intros Heq%Z.eqb_eq.
    apply negb_true_iff, Z.ltb_ge. lia.
Qed.

Lemma sincePageCheck_stops_strictly_before_witness :
  (sincePageCheck 5
     (mkPage (TSlice tRecording) [recording 1 9 0; recording 2 4 0]) = false <->
   time.Before (UpdatedAt (recording 2 4 0)) 5 = true) /\
  (sincePageCheck 5
     (mkPage (TSlice tRecording) [recording 1 9 0; recording 2 4 0]) = true <->
   time.Before (UpdatedAt (recording 2 4 0)) 5 = false) /\
  (time.Equal (UpdatedAt (recording 2 4 0)) 5 = true ->
   sincePageCheck 5
     (mkPage (TSlice tRecording) [recording 1 9 0; recording 2 4 0]) = true).
Proof.
  apply (sincePageCheck_stops_strictly_before 5
           [recording 1 9 0; recording 2 4 0] (recording 2 4 0)).
  reflexivity.
Defined.

(** The check stops at a page that is not a slice of recordings and at an
    empty page. *)
Lemma sincePageCheck_other_page (cutoff : time.Time) (page : Page Recording) :
  page_type page <> TSlice tRecording \/ page_items page = [] ->
  sincePageCheck cutoff page = false.
Proof.
  unfold sincePageCheck. intros [Hty|Hnil].
  - destruct (rtype_eqb (page_type page) (TSlice tRecording)) eqn:E;
      [|reflexivity].
    exfalso. apply Hty. clear Hty.
    revert E. generalize (TSlice tRecording). generalize (page_type page).
    induction r as [n k|e IH|e IH]; intros [n' k'|e'|e']; simpl;
      try discriminate.
    + intros [Hn Hk]%andb_prop. apply String.eqb_eq in Hn. subst.
      destruct k, k'; try discriminate; reflexivity.
    + intros H. f_equal. auto.
    + intros H. f_equal. auto.
  - rewrite Hnil. simpl. rewrite orb_true_r. reflexivity.
Qed.

(** ** The rate limiter *)

Lemma wrap64_id (z : Z) : in_int64 z -> wrap64 z = z.
Proof.
  unfold in_int64, min_int64, max_int64, wrap64. intros H.
  rewrite Z.mod_small; lia.
Qed.

Lemma Sub_in_int64 (t u : time.Time) : in_int64 (time.Sub t u).
Proof. unfold in_int64, time.Sub, min_int64, max_int64. lia. Qed.

Lemma min_is_Zmin (a b : Z) : min a b = Z.min a b.
Proof. unfold min. destruct (Z.ltb_spec a b); lia. Qed.

Lemma config_ok_fits (now : time.Time) (rl : RateLimiter) :
  limiter_inv rl -> limiter_config_ok rl -> refill_fits now rl.
Proof.
  unfold limiter_inv, limiter_config_ok, refill_fits. intros Hinv [Hrate Hmax].
  pose proof (Sub_in_int64 now (lastRefill rl)) as [_ Hle].
  pose proof (Z.quot_le_mono _ _ (refillRate rl) Hrate Hle). lia.
Qed.

(** What [refill] computes when the addition stays in range: the whole
    refill intervals elapsed, added up to the cap, and the refill instant
    moved by as many intervals. *)
Lemma refill_spec (now : time.Time) (rl : RateLimiter) :
  limiter_inv rl -> 0 < refillRate rl -> refill_fits now rl ->
  let tokensToAdd := Z.max 0 (time.Sub now (lastRefill rl) / refillRate rl) in
  refill now rl =
  Some {| tokens := Z.min (tokens rl + tokensToAdd) (maxTokens rl);
          maxTokens := maxTokens rl;
          refillRate := refillRate rl;
          lastRefill := lastRefill rl + tokensToAdd * refillRate rl |}.
Proof.
  unfold limiter_inv, refill_fits. intros Hinv Hrate Hfits. cbv zeta.
  unfold refill.
  pose proof (Sub_in_int64 now (lastRefill rl)) as He.
  set (e := time.Sub now (lastRefill rl)) in *.
  destruct (Z.eqb_spec (refillRate rl) 0) as [H0|_]; [lia|].
  assert (Hq : in_int64 (Z.quot e (refillRate rl))).
  { unfold in_int64, min_int64, max_int64 in *.
    destruct (Z.le_gt_cases 0 e) as [Hpos|Hneg].
    - pose proof (Z.quot_pos e (refillRate rl) Hpos Hrate).
      pose proof (Z.quot_le_upper_bound e (refillRate rl) e Hrate).
      assert (e <= refillRate rl * e) by nia. lia.
    - pose proof (Z.quot_opp_l e (refillRate rl) ltac:(lia)) as Hopp.
      pose proof (Z.quot_pos (- e) (refillRate rl) ltac:(lia) Hrate).
      pose proof (Z.quot_le_upper_bound (- e) (refillRate rl) (- e) Hrate).
      assert (- e <= refillRate rl * - e) by nia. lia. }
  rewrite (wrap64_id _ Hq).
  destruct (Z.ltb_spec 0 (Z.quot e (refillRate rl))) as [Hadd|Hnone].
  - assert (Hepos : 0 <= e).
    { destruct (Z.le_gt_cases 0 e) as [Hpos|Hneg]; [exact Hpos|].
      pose proof (Z.quot_opp_l e (refillRate rl) ltac:(lia)).
      pose proof (Z.quot_pos (- e) (refillRate rl) ltac:(lia) Hrate). lia. }
    rewrite Z.quot_div_nonneg in * by lia.
    pose proof (Z.mul_div_le e (refillRate rl) Hrate) as Hmul.
    rewrite Z.max_r by lia.
    rewrite wrap64_id by
      (unfold in_int64, min_int64, max_int64 in *; lia).
    rewrite wrap64_id by
      (unfold in_int64, min_int64, max_int64 in *; nia).
    rewrite min_is_Zmin. unfold time.Add. reflexivity.
  - assert (Hdiv : e / refillRate rl <= 0).
    { destruct (Z.le_gt_cases 0 e) as [Hpos|Hneg].
      - rewrite <- Z.quot_div_nonneg by lia. exact Hnone.
      - pose proof (Z.div_lt_upper_bound e (refillRate rl) 0 Hrate). lia. }
    rewrite Z.max_l by lia. rewrite Z.add_0_r, Z.mul_0_l, Z.add_0_r.
    rewrite Z.min_l by lia. destruct rl; reflexivity.
Qed.

Lemma refill_inv (now : time.Time) (rl : RateLimiter) :
  limiter_inv rl -> 0 < refillRate rl -> refill_fits now rl ->
  exists rl1, refill now rl = Some rl1 /\ limiter_inv rl1 /\
              maxTokens rl1 = maxTokens rl /\ refillRate rl1 = refillRate rl.
Proof.
  intros Hinv Hrate Hfits. eexists. split; [apply refill_spec; assumption|].
  unfold limiter_inv in *. cbn. repeat split; lia.
Qed.

Lemma TryAcquire_inv (now : time.Time) (rl : RateLimiter) :
  limiter_inv rl -> 0 < refillRate rl -> refill_fits now rl ->
  exists rl1 ok, TryAcquire now rl = Some (rl1, ok) /\ limiter_inv rl1 /\
                 maxTokens rl1 = maxTokens rl /\ refillRate rl1 = refillRate rl.
Proof.
  intros Hinv Hrate Hfits.
  destruct (refill_inv now rl Hinv Hrate Hfits) as (rl1 & Hr & Hinv1 & Hm & Hrr).
  unfold TryAcquire. rewrite Hr. unfold limiter_inv in *.
  destruct (Z.ltb_spec 0 (tokens rl1)).
  - eexists _, _. split; [reflexivity|]. cbn. repeat split; lia.
  - eexists _, _. split; [reflexivity|]. repeat split; lia.
Qed.

Lemma Wait_turn_inv (now now' : time.Time) (rl : RateLimiter) :
  limiter_inv rl -> 0 < refillRate rl -> refill_fits now rl ->
  exists rl1 step, Wait_turn now now' rl = Some (rl1, step) /\ limiter_inv rl1 /\
                   maxTokens rl1 = maxTokens rl /\ refillRate rl1 = refillRate rl.
Proof.
  intros Hinv Hrate Hfits.
  destruct (refill_inv now rl Hinv Hrate Hfits) as (rl1 & Hr & Hinv1 & Hm & Hrr).
  unfold Wait_turn. rewrite Hr. unfold limiter_inv in *.
  destruct (Z.ltb_spec 0 (tokens rl1)).
  - eexists _, _. split; [reflexivity|]. cbn. repeat split; lia.
  - eexists _, _. split; [reflexivity|]. repeat split; lia.
Qed.

Lemma Reset_inv (now : time.Time) (rl : RateLimiter) :
  limiter_inv rl -> limiter_inv (Reset now rl).
Proof. unfold limiter_inv, Reset. cbn. lia. Qed.

Lemma Wait_inv (clock : list (time.Time * time.Time)) (rl : RateLimiter) :
  limiter_inv rl -> limiter_config_ok rl ->
  limiter_inv (fst (Wait clock rl)) /\ limiter_config_ok (fst (Wait clock rl)).
Proof.
  revert rl. induction clock as [|[now now'] clock IH]; intros rl Hinv Hok.
  - simpl. split; assumption.
  - cbn [Wait].
    destruct (Wait_turn_inv now now' rl Hinv (proj1 Hok)
                (config_ok_fits now rl Hinv Hok))
      as (rl1 & step & Hw & Hinv1 & Hm & Hr).
    rewrite Hw.
    assert (Hok1 : limiter_config_ok rl1).
    { unfold limiter_config_ok in *. rewrite Hm, Hr. exact Hok. }
    destruct step; [split; assumption|]. apply IH; assumption.
Qed.

(** Whatever critical sections the goroutines interleave, at whatever
    instants, the limiter keeps its invariant. *)
Lemma limiter_run_inv (ops : list LimiterOp) (rl : RateLimiter) :
  limiter_inv rl -> limiter_config_ok rl ->
  exists rl1, limiter_run ops rl = Some rl1 /\ limiter_inv rl1 /\
              limiter_config_ok rl1.
Proof.
  revert rl. induction ops as [|op ops IH]; intros rl Hinv Hok.
  - exists rl. split; [reflexivity|]. split; assumption.
  - assert (Hstep : exists rl1, limiter_step op rl = Some rl1 /\
                      limiter_inv rl1 /\ limiter_config_ok rl1).
    { destruct op as [now now'|now|now]; cbn [limiter_step].
      - destruct (Wait_turn_inv now now' rl Hinv (proj1 Hok)
                    (config_ok_fits now rl Hinv Hok))
          as (rl1 & step & Hw & Hinv1 & Hm & Hr).
        exists rl1. rewrite Hw. split; [reflexivity|]. split; [assumption|].
        unfold limiter_config_ok in *. rewrite Hm, Hr. exact Hok.
      - destruct (TryAcquire_inv now rl Hinv (proj1 Hok)
                    (config_ok_fits now rl Hinv Hok))
          as (rl1 & b & Hw & Hinv1 & Hm & Hr).
        exists rl1. rewrite Hw. split; [reflexivity|]. split; [assumption|].
        unfold limiter_config_ok in *. rewrite Hm, Hr. exact Hok.
      - exists (Reset now rl). split; [reflexivity|].
        split; [apply Reset_inv; assumption|exact Hok]. }
    destruct Hstep as (rl1 & Hs & Hinv1 & Hok1).
    cbn [limiter_run]. rewrite Hs. apply IH; assumption.
Qed.

Example NewRateLimiter_global :
  NewRateLimiter 0 50 (10 * time.Second) = Some globalRateLimiter.
Proof. reflexivity. Qed.

(** C7, as it stands, fails at the end of the int range: the limiter
    [NewRateLimiter] builds for [max_int64] tokens per [max_int64]
    nanoseconds satisfies the invariant, and the refill one nanosecond
    later leaves it with a negative number of tokens, the addition having
    wrapped. *)
Lemma refill_wraps_at_full_capacity :
  NewRateLimiter 0 max_int64 max_int64 = Some fullRangeLimiter /\
  limiter_inv fullRangeLimiter /\
  exists rl1, refill 1 fullRangeLimiter = Some rl1 /\ tokens rl1 = min_int64 /\
              ~ limiter_inv rl1.
Proof.
  split; [reflexivity|].
  split; [unfold limiter_inv; cbn; unfold max_int64; lia|].
  eexists. split; [reflexivity|]. split; [reflexivity|].
  intros [Hneg _]. vm_compute in Hneg. apply Hneg. reflexivity.
Qed.

(** C7, amended: on a limiter that satisfies the invariant and has a
    positive refill interval, every operation whose refill addition stays
    inside the int range keeps [0 <= tokens <= maxTokens]: [refill] and
    [TryAcquire] at every instant at which the addition fits, and [Wait],
    [Reset] and every interleaving of the critical sections at all instants
    when the capacity leaves room for any addition.  [refill] adds the
    whole number of refill intervals elapsed, capped at [maxTokens], and
    moves [lastRefill] forward by that many intervals, so that the part of
    an interval already elapsed is kept instead of being cut off at the
    current time. *)
Theorem limiter_invariant_and_refill (rl : RateLimiter) :
  limiter_inv rl -> 0 < refillRate rl ->
  (forall now, refill_fits now rl ->
     let elapsed := time.Sub now (lastRefill rl) in
     let tokensToAdd := Z.max 0 (elapsed / refillRate rl) in
     exists rl1,
       refill now rl = Some rl1 /\ limiter_inv rl1 /\
       tokens rl1 = Z.min (tokens rl + tokensToAdd) (maxTokens rl) /\
       lastRefill rl1 = lastRefill rl + tokensToAdd * refillRate rl /\
       (0 <= now - lastRefill rl <= max_int64 ->
        now - lastRefill rl1 = (now - lastRefill rl) mod refillRate rl)) /\
  (forall now, refill_fits now rl ->
     exists rl1 ok, TryAcquire now rl = Some (rl1, ok) /\ limiter_inv rl1) /\
  (forall now, limiter_inv (Reset now rl)) /\
  (limiter_config_ok rl ->
   (forall now, refill_fits now rl) /\
   (forall clock, limiter_inv (fst (Wait clock rl))) /\
   (forall ops, exists rl1,
      limiter_run ops rl = Some rl1 /\ limiter_inv rl1)).
Proof.
  intros Hinv Hrate.
  split; [|split; [|split]].
  - intros now Hfits elapsed tokensToAdd.
    pose proof (refill_spec now rl Hinv Hrate Hfits) as Hspec.
    cbv zeta in Hspec. fold elapsed in Hspec. fold tokensToAdd in Hspec.
    eexists. split; [exact Hspec|]. cbn.
    assert (0 <= tokensToAdd) by (unfold tokensToAdd; lia).
    unfold limiter_inv in *. cbn.
    split; [lia|]. split; [reflexivity|]. split; [reflexivity|].
    intros Hrange. unfold tokensToAdd, elapsed, time.Sub, min_int64.
    rewrite (Z.min_r max_int64) by lia.
    rewrite (Z.max_r (- 2 ^ 63)) by lia.
    pose proof (Z.div_pos (now - lastRefill rl) (refillRate rl)
                  ltac:(lia) Hrate).
    rewrite Z.max_r by lia.
    rewrite (Z.mod_eq (now - lastRefill rl) (refillRate rl)) by lia. lia.
  - intros now Hfits.
    destruct (TryAcquire_inv now rl Hinv Hrate Hfits)
      as (rl1 & ok & H1 & H2 & _).
    exists rl1, ok. split; assumption.
  - intros now. apply Reset_inv; assumption.
  - intros Hok. split; [|split].
    + intros now. apply config_ok_fits; assumption.
    + intros clock. apply Wait_inv; assumption.
    + intros ops.
      destruct (limiter_run_inv ops rl Hinv Hok) as (rl1 & H1 & H2 & _).
      exists rl1. split; assumption.
Qed.

Lemma limiter_invariant_and_refill_witness :
  limiter_inv globalRateLimiter /\ 0 < refillRate globalRateLimiter /\
  limiter_config_ok globalRateLimiter /\
  (forall clock, limiter_inv (fst (Wait clock globalRateLimiter))) /\
  (forall ops, exists rl1,
     limiter_run ops globalRateLimiter = Some rl1 /\ limiter_inv rl1).
Proof.
  assert (Hinv : limiter_inv globalRateLimiter)
    by (unfold limiter_inv; simpl; lia).
  assert (Hrate : 0 < refillRate globalRateLimiter) by reflexivity.
  assert (Hok : limiter_config_ok globalRateLimiter)
    by (unfold limiter_config_ok; split; vm_compute; [reflexivity|discriminate]).
  split; [exact Hinv|]. split; [exact Hrate|]. split; [exact Hok|].
  apply (limiter_invariant_and_refill globalRateLimiter Hinv Hrate).
  exact Hok.
Defined.

(** The limiter of TestRateLimiter_TryAcquire: two tokens, then none. *)
Example TryAcquire_drains :
  let rl0 := {| tokens := 2; maxTokens := 2; refillRate := time.Second;
                lastRefill := 0 |} in
  exists rl1 rl2 rl3,
    TryAcquire 10 rl0 = Some (rl1, true) /\
    TryAcquire 20 rl1 = Some (rl2, true) /\
    TryAcquire 30 rl2 = Some (rl3, false) /\ tokens rl3 = 0.
Proof. simpl. eexists _, _, _. repeat split. Qed.

(** The limiter of TestRateLimiter_Refill, drained, 150 ms later. *)
Example refill_after_150ms :
  let rl0 := {| tokens := 0; maxTokens := 2;
                refillRate := 100 * time.Millisecond; lastRefill := 0 |} in
  refill (150 * time.Millisecond) rl0 =
  Some {| tokens := 1; maxTokens := 2; refillRate := 100 * time.Millisecond;
          lastRefill := 100 * time.Millisecond |}.
Proof. reflexivity. Qed.

(** A turn of [Wait] that finds a token takes it and returns; one that
    finds none leaves the state of [refill] and sleeps. *)
Lemma Wait_returns_with_token (now now' : time.Time)
    (clock : list (time.Time * time.Time)) (rl rl1 : RateLimiter) :
  refill now rl = Some rl1 -> 0 < tokens rl1 ->
  Wait ((now, now') :: clock) rl = (take_token rl1, WaitReturned).
Proof.
  intros Hr Hpos. cbn [Wait]. unfold Wait_turn. rewrite Hr.
  destruct (Z.ltb_spec 0 (tokens rl1)); [reflexivity|lia].
Qed.

(** ** The Link header parser *)

Example parseNextLinkURL_next :
  parseNextLinkURL next_link_header = Some "https://api.example.com/x?page=2".
Proof. vm_compute. reflexivity. Qed.

Example parseNextLinkURL_prev_only :
  parseNextLinkURL prev_link_header = Some EmptyString.
Proof. vm_compute. reflexivity. Qed.

Example parseNextLinkURL_multi_relation :
  parseNextLinkURL next_prefetch_link_header =
  Some "https://api.example.com/x?page=2".
Proof. vm_compute. reflexivity. Qed.

Example parseNextLinkURL_second_entry :
  parseNextLinkURL
    ("<https://a/1>; " +:+ quoted_rel "prev" +:+ ", <https://a/3>; rel=NEXT")
  = Some "https://a/3".
Proof. vm_compute. reflexivity. Qed.

(** A comma inside a quoted value does not end the entry. *)
Example parseLinkHeaderEntries_quoted_comma :
  (fun entries => map LinkEntry_URL <$> entries)
    (parseLinkHeaderEntries
       ("<https://a/1>; title=" +:+ str dquote +:+ "a, b" +:+ str dquote
        +:+ "; rel=next, <https://a/2>; rel=prev"))
  = Some ["https://a/1"; "https://a/2"].
Proof. vm_compute. reflexivity. Qed.

(** One turn of the loop over the parameters. *)
Lemma params_loop_turn (fuel : nat) (s : string) (params : gmap string string) :
  params_loop (S fuel) s params =
  match s with
  | EmptyString => Some (params, EmptyString)
  | String _ _ =>
    match skip_blank_semi s with
    | EmptyString => Some (params, EmptyString)
    | String c s1 =>
      if Ascii.eqb c "," then Some (params, s1)
      else
        let (paramName, s2) := read_name (String c s1) in
        match paramName with
        | EmptyString => params_loop fuel (String c s1) params
        | String _ _ =>
          let (paramValue, s3) := read_value s2 in
          params_loop fuel s3 (<[paramName := paramValue]> params)
        end
    end
  end.
Proof. reflexivity. Qed.

(** *** Turns that repeat themselves *)

(** A parameter position that starts with the equals sign: the name is
    empty, the turn changes nothing, and no amount of fuel ends the
    loop. *)
Lemma params_loop_spins (fuel : nat) (s rest : string)
    (params : gmap string string) :
  skip_blank_semi s = String "=" rest ->
  params_loop fuel s params = None.
Proof.
  revert s. induction fuel as [|fuel IH]; intros s Hs; [reflexivity|].
  rewrite params_loop_turn. destruct s as [|c s']; [discriminate|].
  rewrite Hs. cbn. apply IH. reflexivity.
Qed.

Lemma read_name_empty (c : ascii) (s rest : string) :
  skip_blank_semi s = String c rest ->
  Ascii.eqb c "," = false ->
  fst (read_name (String c rest)) = EmptyString ->
  c = "="%char.
Proof.
  intros Hs Hcomma Hname.
  assert (Hblank : is_sp_tab c = false).
  { clear Hname Hcomma. induction s as [|d s IH]; [discriminate|].
    cbn in Hs. destruct (is_sp_tab d) eqn:Hd; cbn in Hs; [auto|].
    destruct (Ascii.eqb d ";"); [auto|]. congruence. }
  cbn in Hname. rewrite Hcomma, Hblank in Hname.
  destruct (Ascii.eqb_spec c "="); [assumption|].
  cbn in Hname. destruct (read_name rest). discriminate.
Qed.

(** *** Fuel *)

Lemma params_loop_mono (fuel fuel' : nat) (s : string)
    (params : gmap string string) (r : gmap string string * string) :
  params_loop fuel s params = Some r -> (fuel <= fuel')%nat ->
  params_loop fuel' s params = Some r.
Proof.
  revert fuel' s params.
  induction fuel as [|fuel IH]; intros fuel' s params Hr Hle; [discriminate|].
  destruct fuel' as [|fuel']; [lia|].
  rewrite params_loop_turn in Hr |- *. destruct s as [|c0 s0]; [exact Hr|].
  destruct (skip_blank_semi (String c0 s0)) as [|c s1]; [exact Hr|].
  destruct (Ascii.eqb c ","); [exact Hr|].
  destruct (read_name (String c s1)) as [name s2].
  destruct name as [|n name].
  - apply IH; [exact Hr|lia].
  - destruct (read_value s2) as [value s3]. apply IH; [exact Hr|lia].
Qed.

Lemma skip_blank_length (s : string) :
  (String.length (skip_blank s) <= String.length s)%nat.
Proof.
  induction s as [|c s IH]; [reflexivity|]. cbn [skip_blank].
  destruct (is_sp_tab c); cbn [String.length]; lia.
Qed.

Lemma skip_blank_semi_length (s : string) :
  (String.length (skip_blank_semi s) <= String.length s)%nat.
Proof.
  induction s as [|c s IH]; [reflexivity|]. cbn [skip_blank_semi].
  destruct (is_sp_tab c || Ascii.eqb c ";"); cbn [String.length]; lia.
Qed.

Lemma read_name_length (s : string) :
  String.length s =
  (String.length (fst (read_name s)) + String.length (snd (read_name s)))%nat.
Proof.
  induction s as [|c s IH]; [reflexivity|]. cbn [read_name].
  destruct (Ascii.eqb c "=" || Ascii.eqb c "," || is_sp_tab c);
    [reflexivity|].
  destruct (read_name s) as [name rest]. cbn in *. lia.
Qed.

Lemma read_unquoted_length (s : string) :
  (String.length (snd (read_unquoted s)) <= String.length s)%nat.
Proof.
  induction s as [|c s IH]; [reflexivity|]. cbn [read_unquoted].
  destruct (is_sp_tab c || Ascii.eqb c ";" || Ascii.eqb c ",");
    [reflexivity|].
  destruct (read_unquoted s) as [value rest]. cbn in *. lia.
Qed.

Lemma read_quoted_length (prev : ascii) (seen s : string) :
  (String.length (snd (read_quoted prev seen s)) <= String.length s)%nat.
Proof.
  revert prev seen. induction s as [|c s IH]; intros prev seen; [reflexivity|].
  cbn [read_quoted].
  destruct (Ascii.eqb c dquote && negb (Ascii.eqb prev backslash)).
  - cbn. lia.
  - specialize (IH c (String c seen)). cbn [String.length]. lia.
Qed.

Lemma read_value_length (s : string) :
  (String.length (snd (read_value s)) <= String.length s)%nat.
Proof.
  unfold read_value. pose proof (skip_blank_length s) as Hs.
  destruct (skip_blank s) as [|c s1]; [cbn; lia|].
  destruct (Ascii.eqb c "="); [|cbn in *; lia].
  pose proof (skip_blank_length s1) as Hs1.
  destruct (skip_blank s1) as [|q s3] eqn:E; [cbn; lia|].
  destruct (Ascii.eqb q dquote).
  - pose proof (read_quoted_length q EmptyString s3). cbn in *. lia.
  - pose proof (read_unquoted_length (String q s3)). cbn in *. lia.
Qed.

Lemma until_gt_length (s url rest : string) :
  until_gt s = Some (url, rest) ->
  (String.length rest < String.length s)%nat.
Proof.
  revert url rest. induction s as [|c s IH]; intros url rest; [discriminate|].
  cbn [until_gt]. destruct (Ascii.eqb c ">").
  - intros [= <- <-]. cbn. lia.
  - destruct (until_gt s) as [[u r]|]; [|discriminate].
    intros [= <- <-]. specialize (IH u r eq_refl). cbn. lia.
Qed.

Lemma read_url_length (s : string) :
  (String.length (snd (read_url s)) <= String.length s)%nat.
Proof.
  unfold read_url. destruct (until_gt s) as [[u r]|] eqn:E.
  - apply until_gt_length in E. cbn. lia.
  - cbn. lia.
Qed.

Lemma params_loop_length (fuel : nat) (s : string)
    (params params' : gmap string string) (rest : string) :
  params_loop fuel s params = Some (params', rest) ->
  (String.length rest <= String.length s)%nat.
Proof.
  revert s params.
  induction fuel as [|fuel IH]; intros s params Hr; [discriminate|].
  rewrite params_loop_turn in Hr.
  destruct s as [|c0 s0]; [injection Hr as <- <-; lia|].
  pose proof (skip_blank_semi_length (String c0 s0)) as Hskip.
  destruct (skip_blank_semi (String c0 s0)) as [|c s1];
    [injection Hr as <- <-; cbn; lia|].
  destruct (Ascii.eqb c ","); [injection Hr as <- <-; cbn in *; lia|].
  pose proof (read_name_length (String c s1)) as Hname.
  destruct (read_name (String c s1)) as [name s2].
  destruct name as [|n name].
  - apply IH in Hr. lia.
  - pose proof (read_value_length s2) as Hvalue.
    destruct (read_value s2) as [value s3]. apply IH in Hr. cbn in *. lia.
Qed.

(** Fuel beyond the length of the rest of the header is never needed. *)
Lemma params_loop_enough (fuel : nat) (s : string)
    (params : gmap string string) (r : gmap string string * string) :
  params_loop fuel s params = Some r ->
  params_loop (S (String.length s)) s params = Some r.
Proof.
  revert s params.
  induction fuel as [|fuel IH]; intros s params Hr; [discriminate|].
  rewrite params_loop_turn in Hr |- *. destruct s as [|c0 s0]; [exact Hr|].
  pose proof (skip_blank_semi_length (String c0 s0)) as Hskip.
  destruct (skip_blank_semi (String c0 s0)) as [|c s1] eqn:Hs0; [exact Hr|].
  destruct (Ascii.eqb c ",") eqn:Hcomma; [exact Hr|].
  pose proof (read_name_length (String c s1)) as Hname.
  pose proof (read_name_empty c (String c0 s0) s1 Hs0 Hcomma) as Hempty.
  destruct (read_name (String c s1)) as [name s2].
  destruct name as [|n name].
  - rewrite (params_loop_spins fuel (String c s1) s1 params) in Hr;
      [discriminate|].
    rewrite (Hempty eq_refl). reflexivity.
  - pose proof (read_value_length s2) as Hvalue.
    destruct (read_value s2) as [value s3].
    apply IH in Hr. eapply params_loop_mono; [exact Hr|].
    cbn in *. lia.
Qed.

(** One turn of the loop over the entries. *)
Lemma entries_loop_turn (fuel : nat) (s : string) (entries : list LinkEntry) :
  entries_loop (S fuel) s entries =
  match skip_blank s with
  | EmptyString => Some entries
  | String c s1 =>
    if Ascii.eqb c "<"
    then
      match params_loop fuel (snd (read_url s1)) ∅ with
      | None => None
      | Some (params, s3) =>
        match fst (read_url s1) with
        | EmptyString => entries_loop fuel s3 entries
        | String _ _ =>
          entries_loop fuel s3
            (entries ++ [{| LinkEntry_URL := fst (read_url s1);
                            Params := params |}])
        end
      end
    else entries_loop fuel s1 entries
  end.
Proof.
  cbn [entries_loop]. destruct (skip_blank s) as [|c s1]; [reflexivity|].
  destruct (read_url s1) as [url s2]. reflexivity.
Qed.

Lemma entries_loop_mono (fuel fuel' : nat) (s : string)
    (entries r : list LinkEntry) :
  entries_loop fuel s entries = Some r -> (fuel <= fuel')%nat ->
  entries_loop fuel' s entries = Some r.
Proof.
  revert fuel' s entries.
  induction fuel as [|fuel IH]; intros fuel' s entries Hr Hle; [discriminate|].
  destruct fuel' as [|fuel']; [lia|].
  rewrite entries_loop_turn in Hr |- *.
  destruct (skip_blank s) as [|c s1]; [exact Hr|].
  destruct (Ascii.eqb c "<"); [|apply IH; [exact Hr|lia]].
  destruct (params_loop fuel (snd (read_url s1)) ∅) as [[params s3]|] eqn:Hp;
    [|discriminate].
  rewrite (params_loop_mono fuel fuel' _ _ _ Hp) by lia.
  destruct (fst (read_url s1)); apply IH; try exact Hr; lia.
Qed.

Lemma entries_loop_enough (fuel : nat) (s : string)
    (entries r : list LinkEntry) :
  entries_loop fuel s entries = Some r ->
  entries_loop (S (String.length s)) s entries = Some r.
Proof.
  revert s entries.
  induction fuel as [|fuel IH]; intros s entries Hr; [discriminate|].
  rewrite entries_loop_turn in Hr |- *.
  pose proof (skip_blank_length s) as Hskip.
  destruct (skip_blank s) as [|c s1]; [exact Hr|]. cbn in Hskip.
  destruct (Ascii.eqb c "<").
  - pose proof (read_url_length s1) as Hurl.
    destruct (params_loop fuel (snd (read_url s1)) ∅) as [[params s3]|] eqn:Hp;
      [|discriminate].
    pose proof (params_loop_length _ _ _ _ _ Hp) as Hlen.
    apply params_loop_enough in Hp.
    rewrite (params_loop_mono _ (String.length s) _ _ _ Hp) by lia.
    destruct (fst (read_url s1)); apply IH in Hr;
      (eapply entries_loop_mono; [exact Hr|lia]).
  - apply IH in Hr. eapply entries_loop_mono; [exact Hr|lia].
Qed.

(** The parser with [enough_fuel] answers as it does with any fuel that
    gives an answer: [None] from [parseLinkHeaderEntries] says that the
    loops of the source never end on the header. *)
Lemma parseLinkHeaderEntries_total_or_hangs (linkHeader : string) :
  (exists entries,
     parseLinkHeaderEntries linkHeader = Some entries /\
     forall fuel r, parseLinkHeaderEntries_fuel fuel linkHeader = Some r ->
                    r = entries) \/
  (parseLinkHeaderEntries linkHeader = None /\
   forall fuel, parseLinkHeaderEntries_fuel fuel linkHeader = None).
Proof.
  unfold parseLinkHeaderEntries, parseLinkHeaderEntries_fuel, enough_fuel.
  destruct (entries_loop (S (S (String.length linkHeader))) linkHeader [])
    as [entries|] eqn:E.
  - left. exists entries. split; [reflexivity|]. intros fuel r Hr.
    apply entries_loop_enough in Hr.
    apply (entries_loop_mono _ (S (S (String.length linkHeader)))) in Hr;
      [congruence|lia].
  - right. split; [reflexivity|]. intros fuel.
    destruct (entries_loop fuel linkHeader []) as [r|] eqn:Hr; [|reflexivity].
    apply entries_loop_enough in Hr.
    apply (entries_loop_mono _ (S (S (String.length linkHeader)))) in Hr;
      [congruence|lia].
Qed.

(** The loop over the parsed entries returns the URL of the first entry
    that has the relation, and the empty string when none has it. *)
Lemma first_next_spec (links : list LinkEntry) :
  (forall before link after,
     links = before ++ link :: after ->
     Forall (fun l => hasRelation l "next" = false) before ->
     hasRelation link "next" = true ->
     first_next links = LinkEntry_URL link) /\
  (Forall (fun l => hasRelation l "next" = false) links ->
   first_next links = EmptyString).
Proof.
  split.
  - intros before link after -> Hbefore Hlink.
    induction Hbefore as [|l before Hl _ IH]; cbn.
    + rewrite Hlink. reflexivity.
    + rewrite Hl. exact IH.
  - induction 1 as [|l links Hl _ IH]; cbn; [reflexivity|].
    rewrite Hl. exact IH.
Qed.

(** What [hasRelation] tests: some word of the value of rel, its quotes
    trimmed, equals the relation without regard to case. *)
Lemma hasRelation_spec (le : LinkEntry) (rel : string) :
  hasRelation le rel = true <->
  exists relValue word,
    Params le !! "rel" = Some relValue /\
    In word (gostrings.Fields (gostrings.Trim relValue dquote)) /\
    gostrings.EqualFold word rel = true.
Proof.
  unfold hasRelation. destruct (Params le !! "rel") as [relValue|].
  - rewrite existsb_exists. split.
    + intros (word & Hin & Heq). exists relValue, word. auto.
    + intros (v & word & [= <-] & Hin & Heq). exists word. auto.
  - split; [discriminate|]. intros (v & word & Hv & _). discriminate.
Qed.

(** On a header on which the parser terminates [parseNextLinkURL] is the
    loop over its entries; on the empty header it returns the empty
    string. *)
Lemma parseNextLinkURL_on_entries (linkHeader : string)
    (entries : list LinkEntry) :
  parseLinkHeaderEntries linkHeader = Some entries ->
  parseNextLinkURL linkHeader = Some (first_next entries).
Proof.
  unfold parseNextLinkURL, parseNextLinkURL_fuel, parseLinkHeaderEntries.
  intros H. destruct linkHeader as [|c h].
  - vm_compute in H. injection H as <-. reflexivity.
  - rewrite H. reflexivity.
Qed.

(** C8 fails on the code: on a header with a parameter position that
    starts with the equals sign the parser never returns, whatever the
    fuel, where the claim has [parseNextLinkURL] return the URL of the
    entry with the relation next. *)
Theorem parseNextLinkURL_hangs_on_empty_name :
  (forall fuel, parseNextLinkURL_fuel fuel empty_name_link_header = None) /\
  parseNextLinkURL empty_name_link_header = None.
Proof.
  assert (H : forall fuel,
             parseNextLinkURL_fuel fuel empty_name_link_header = None).
  { intros fuel. unfold parseNextLinkURL_fuel, parseLinkHeaderEntries_fuel.
    change empty_name_link_header with
      (String "<" (gostrings.drop 1 empty_name_link_header)).
    cbv iota. destruct fuel as [|fuel]; [reflexivity|].
    rewrite entries_loop_turn.
    replace (skip_blank (String "<" (gostrings.drop 1 empty_name_link_header)))
      with (String "<" (gostrings.drop 1 empty_name_link_header))
      by reflexivity.
    cbv iota beta. replace (Ascii.eqb "<" "<") with true by reflexivity.
    cbv iota.
    rewrite (params_loop_spins fuel _
               (gostrings.drop 37 empty_name_link_header)); [reflexivity|].
    vm_compute. reflexivity. }
  split; [exact H|]. apply H.
Qed.

(** ** The request core *)

(** C2, as it stands, fails: a response with status 429 is answered from
    the default branch of the switch, with the generic API error that
    carries the status and the body, as a response with status 500 is. *)
Lemma doRequest_429_is_generic_api_error :
  doRequestWithHeadersContext anyRequest sampleClient "GET" "/projects.json"
    (inr (response 429 "slow down" EmptyString))
  = inl (NewAPIError 429 "slow down" None) /\
  doRequestWithHeadersContext anyRequest sampleClient "GET" "/projects.json"
    (inr (response 500 "slow down" EmptyString))
  = inl (NewAPIError 500 "slow down" None) /\
  kind_of (NewAPIError 429 "slow down" None) = KindAPI /\
  KindAPI <> KindRateLimited.
Proof. repeat split. discriminate. Qed.

(** C2, amended: for every response with status 429 the request core
    returns the generic API error with the status code 429 and the raw
    body, from the branch that every status of 400 or more other than 401
    and 404 takes; it has no rate-limit error of its own. *)
Theorem doRequest_429_takes_default_branch
    (NewRequestWithContext : string -> string -> option error)
    (c : Client) (method path : string) (resp : Response) :
  NewRequestWithContext method (getBaseURL c +:+ path) = None ->
  400 <= StatusCode resp ->
  StatusCode resp <> StatusUnauthorized ->
  StatusCode resp <> StatusNotFound ->
  doRequestWithHeadersContext NewRequestWithContext c method path (inr resp)
  = inl (NewAPIError (StatusCode resp) (Body resp) None) /\
  (StatusCode resp = StatusTooManyRequests ->
   doRequestWithHeadersContext NewRequestWithContext c method path (inr resp)
   = inl (NewAPIError 429 (Body resp) None) /\
   kind_of (NewAPIError 429 (Body resp) None) = KindAPI).
Proof.
  intros Hreq Hstatus H401 H404.
  assert (Hgen : doRequestWithHeadersContext NewRequestWithContext c method
                   path (inr resp)
                 = inl (NewAPIError (StatusCode resp) (Body resp) None)).
  { unfold doRequestWithHeadersContext. rewrite Hreq.
    destruct (Z.leb_spec 400 (StatusCode resp)); [|lia].
    unfold classify.
    destruct (Z.eqb_spec (StatusCode resp) StatusUnauthorized); [contradiction|].
    destruct (Z.eqb_spec (StatusCode resp) StatusNotFound); [contradiction|].
    reflexivity. }
  split; [exact Hgen|]. intros H429. rewrite Hgen, H429. split; reflexivity.
Qed.

Lemma doRequest_429_takes_default_branch_witness :
  doRequestWithHeadersContext anyRequest sampleClient "GET" "/projects.json"
    (inr (response 429 "slow down" EmptyString))
  = inl (NewAPIError 429 "slow down" None).
Proof.
  refine (proj1 (doRequest_429_takes_default_branch anyRequest sampleClient
                   "GET" "/projects.json"
                   (response 429 "slow down" EmptyString) _ _ _ _)).
  - reflexivity.
  - simpl. lia.
  - discriminate.
  - discriminate.
Defined.

(** The other branches of the switch, and the responses below 400. *)
Lemma doRequest_classification
    (NewRequestWithContext : string -> string -> option error)
    (c : Client) (method path : string) (resp : Response) :
  NewRequestWithContext method (getBaseURL c +:+ path) = None ->
  doRequestWithHeadersContext NewRequestWithContext c method path (inr resp) =
  if StatusCode resp <? 400 then inr resp
  else if StatusCode resp =? 401
  then inl (NewAuthenticationError
              (errorString ("unauthorized: " +:+ Body resp)))
  else if StatusCode resp =? 404
  then inl (NewNotFoundError (guess_resource path) EmptyString
              (errorString ("not found: " +:+ Body resp)))
  else inl (NewAPIError (StatusCode resp) (Body resp) None).
Proof.
  intros Hreq. unfold doRequestWithHeadersContext. rewrite Hreq.
  destruct (Z.leb_spec 400 (StatusCode resp)), (Z.ltb_spec (StatusCode resp) 400);
    try lia; [|reflexivity].
  unfold classify, StatusUnauthorized, StatusNotFound.
  destruct (StatusCode resp =? 401); [reflexivity|].
  destruct (StatusCode resp =? 404); reflexivity.
Qed.

Example guess_resource_of_path :
  guess_resource "/buckets/123/projects/456" = "project".
Proof. reflexivity. Qed.

(** ** The paginated fetcher *)

Section GetAllFacts.
Context {T : Type}.
Variable decode : string -> error + list T.
Variable url_Parse : string -> option ParsedURL.
Variable NewRequestWithContext : string -> string -> option error.

(** C10 fails on the code for the nil interface, a result argument that is
    not a pointer to a slice: reflect.TypeOf gives the nil Type and the
    call of its method Kind panics, where the claim has [GetAll] return the
    error.  Nothing else happens: no token, no request, no change. *)
Theorem GetAll_nil_result_panics (pr : PaginatedRequest T)
    (answers : list (error + Response)) (path : string) (w : World T) :
  GetAll decode url_Parse NewRequestWithContext pr answers path nilInterface w
  = (Panics, w).
Proof. reflexivity. Qed.

(** For every other result argument that is not a pointer to a slice
    [GetAll] returns the error at once, the world unchanged: no token is
    taken from the limiter, no request is issued and nothing the argument
    refers to is written. *)
Lemma GetAll_rejects_other_results (pr : PaginatedRequest T)
    (answers : list (error + Response)) (path : string) (w : World T)
    (t : rtype) (nilPointer : bool) :
  (forall elem, t <> TPtr (TSlice elem)) ->
  GetAll decode url_Parse NewRequestWithContext pr answers path
    (Iface t nilPointer) w
  = (Returns (Some (errorString "result must be a pointer to a slice")), w).
Proof.
  intros Hnot. unfold GetAll.
  destruct t as [name k|e|e]; cbn.
  - destruct k; reflexivity.
  - reflexivity.
  - destruct e as [name k|e'|e']; cbn.
    + destruct k; reflexivity.
    + exfalso. apply (Hnot e'). reflexivity.
    + reflexivity.
Qed.

(** One turn of the loop of [GetAll] on a path that is not empty. *)
Lemma GetAll_loop_turn (pr : PaginatedRequest T) (sliceType : rtype)
    (answer : error + Response) (answers : list (error + Response))
    (c : ascii) (path : string) (pageCount : nat) (w : World T) :
  default Background (ctx pr) pageCount = None ->
  GetAll_loop decode url_Parse NewRequestWithContext pr sliceType
    (answer :: answers) (String c path) pageCount w =
  let w1 := mkWorld (slice w) (S (waits w)) (requests w ++ [String c path])
              (slept w) in
  match fetch_page decode NewRequestWithContext pr (String c path) answer with
  | inl err => (Returns (Some err), w1)
  | inr (resp, pageSlice) =>
    let w2 := mkWorld (slice w ++ pageSlice) (waits w1) (requests w1)
                (slept w1) in
    if Nat.eqb (length pageSlice) 0 then (Returns None, w2)
    else if (0 <? maxPages pr) && (maxPages pr <=? Z.of_nat (S pageCount))
    then (Returns None, w2)
    else if match pageCheck pr with
            | Some check => negb (check (mkPage sliceType pageSlice))
            | None => false
            end
    then (Returns None, w2)
    else
      match next_path url_Parse (Header_Link resp) with
      | None => (Hangs, w2)
      | Some EmptyString => (Returns None, w2)
      | Some next =>
        GetAll_loop decode url_Parse NewRequestWithContext pr sliceType
          answers next (S pageCount)
          (mkWorld (slice w2) (waits w2) (requests w2)
             (slept w2 + 100 * time.Millisecond))
      end
  end.
Proof.
  intros Hctx. cbn [GetAll_loop]. rewrite Hctx. unfold fetch_page. cbn.
  destruct (doRequestContext NewRequestWithContext (client pr) "GET"
              (String c path) answer) as [err|resp]; [reflexivity|].
  destruct (decode (Body resp)) as [err|pageSlice]; reflexivity.
Qed.

Lemma GetAll_loop_failure (pr : PaginatedRequest T) (sliceType : rtype)
    (earlier : list (error + Response)) (failing : error + Response)
    (later : list (error + Response)) (path next : string) (pageCount : nat)
    (w w1 : World T) (err : error) :
  GetAll_loop decode url_Parse NewRequestWithContext pr sliceType
    earlier path pageCount w = (NoAnswer next, w1) ->
  fetch_page decode NewRequestWithContext pr next failing = inl err ->
  GetAll_loop decode url_Parse NewRequestWithContext pr sliceType
    (earlier ++ failing :: later) path pageCount w
  = (Returns (Some err),
     mkWorld (slice w1) (waits w1) (requests w1 ++ [next]) (slept w1)) /\
  exists pages, decoded decode NewRequestWithContext pr earlier pages /\
                slice w1 = slice w ++ concat pages.
Proof.
  revert path pageCount w.
  induction earlier as [|answer earlier IH]; intros path pageCount w Hrun Hfail.
  - (* no earlier page: the failing answer is the first *)
    destruct path as [|c path]; [discriminate|].
    cbn [GetAll_loop] in Hrun.
    destruct (default Background (ctx pr) pageCount) eqn:Hctx; [discriminate|].
    injection Hrun as <- <-. split.
    + cbn [app]. rewrite GetAll_loop_turn by exact Hctx.
      cbv zeta. rewrite Hfail. reflexivity.
    + exists []. split; [constructor|]. cbn. rewrite app_nil_r. reflexivity.
  - destruct path as [|c path]; [discriminate|].
    destruct (default Background (ctx pr) pageCount) eqn:Hctx;
      [cbn [GetAll_loop] in Hrun; rewrite Hctx in Hrun; discriminate|].
    rewrite <- app_comm_cons.
    rewrite GetAll_loop_turn in Hrun |- * by exact Hctx. cbv zeta in *.
    destruct (fetch_page decode NewRequestWithContext pr (String c path) answer)
      as [e|[resp pageSlice]] eqn:Hpage; [discriminate|].
    destruct (Nat.eqb (length pageSlice) 0); [discriminate|].
    destruct ((0 <? maxPages pr) && (maxPages pr <=? Z.of_nat (S pageCount)));
      [discriminate|].
    destruct (match pageCheck pr with
              | Some check => negb (check (mkPage sliceType pageSlice))
              | None => false
              end); [discriminate|].
    destruct (next_path url_Parse (Header_Link resp)) as [[|c' next']|];
      [discriminate| |discriminate].
    destruct (IH _ _ _ Hrun Hfail) as [Hgoal (pages & Hdec & Hslice)].
    split; [exact Hgoal|].
    exists (pageSlice :: pages). split.
    + constructor; [|exact Hdec]. exists (String c path), resp. exact Hpage.
    + rewrite Hslice. cbn. rewrite <- app_assoc. reflexivity.
Qed.

(** However a run of the loop ends, the slice of the caller has grown by
    whole pages: those that the first answers decoded to, in order. *)
Lemma GetAll_loop_slice_grows (pr : PaginatedRequest T) (sliceType : rtype)
    (answers : list (error + Response)) (path : string) (pageCount : nat)
    (w w' : World T) (out : Outcome) :
  GetAll_loop decode url_Parse NewRequestWithContext pr sliceType
    answers path pageCount w = (out, w') ->
  exists pages,
    decoded decode NewRequestWithContext pr
      (firstn (length pages) answers) pages /\
    slice w' = slice w ++ concat pages.
Proof.
  assert (Hnone : forall (v v' : World T) (o : Outcome) (l : list (error + Response)),
             (o, v') = (o, v') -> slice v' = slice v ->
             exists pages,
               decoded decode NewRequestWithContext pr
                 (firstn (length pages) l) pages /\
               slice v' = slice v ++ concat pages).
  { intros v v' o l _ Hs. exists []. split; [constructor|].
    cbn. rewrite app_nil_r. exact Hs. }
  revert path pageCount w.
  induction answers as [|answer answers IH]; intros path pageCount w Hrun.
  - apply (Hnone w w' out []); [reflexivity|].
    destruct path as [|c path]; cbn [GetAll_loop] in Hrun.
    + injection Hrun as _ <-. reflexivity.
    + destruct (default Background (ctx pr) pageCount);
        injection Hrun as _ <-; reflexivity.
  - destruct path as [|c path].
    { apply (Hnone w w' out (answer :: answers)); [reflexivity|].
      cbn [GetAll_loop] in Hrun. injection Hrun as _ <-. reflexivity. }
    destruct (default Background (ctx pr) pageCount) eqn:Hctx.
    { apply (Hnone w w' out (answer :: answers)); [reflexivity|].
      cbn [GetAll_loop] in Hrun. rewrite Hctx in Hrun.
      injection Hrun as _ <-. reflexivity. }
    rewrite GetAll_loop_turn in Hrun by exact Hctx. cbv zeta in Hrun.
    destruct (fetch_page decode NewRequestWithContext pr (String c path) answer)
      as [e|[resp pageSlice]] eqn:Hpage.
    { apply (Hnone w w' out (answer :: answers)); [reflexivity|].
      injection Hrun as _ <-. reflexivity. }
    assert (Hone : forall o, (o, mkWorld (slice w ++ pageSlice) (S (waits w))
                                   (requests w ++ [String c path]) (slept w))
                             = (out, w') ->
              exists pages,
                decoded decode NewRequestWithContext pr
                  (firstn (length pages) (answer :: answers)) pages /\
                slice w' = slice w ++ concat pages).
    { intros o [= _ <-]. exists [pageSlice]. split.
      - cbn. constructor; [|constructor].
        exists (String c path), resp. exact Hpage.
      - cbn. rewrite app_nil_r. reflexivity. }
    destruct (Nat.eqb (length pageSlice) 0); [exact (Hone _ Hrun)|].
    destruct ((0 <? maxPages pr) && (maxPages pr <=? Z.of_nat (S pageCount)));
      [exact (Hone _ Hrun)|].
    destruct (match pageCheck pr with
              | Some check => negb (check (mkPage sliceType pageSlice))
              | None => false
              end); [exact (Hone _ Hrun)|].
    destruct (next_path url_Parse (Header_Link resp)) as [[|c' next']|];
      [exact (Hone _ Hrun)| |exact (Hone _ Hrun)].
    apply IH in Hrun as (pages & Hdec & Hslice). cbn [slice] in Hslice.
    exists (pageSlice :: pages). split.
    + cbn. constructor; [|exact Hdec].
      exists (String c path), resp. exact Hpage.
    + rewrite Hslice. cbn. rewrite <- app_assoc. reflexivity.
Qed.

End GetAllFacts.

(** C1, as it stands, fails: the first page is decoded and appended to the
    slice of the caller, the request of the second page is answered with
    status 500, and [GetAll] returns the error with the items of the first
    page in the slice. *)
Lemma GetAll_error_leaves_first_page :
  GetAll sampleDecode sampleParse anyRequest (NewPaginatedRequest sampleClient)
    [inr (response 200 "[1,2]" next_link_header);
     inr (response 500 "boom" EmptyString)]
    "/x" (pointer_to_slice_of tInt) emptyWorld
  = (Returns (Some (wrapError "failed to fetch paginated results"
                      (APIError 500 "boom"))),
     mkWorld [1; 2] 2 ["/x"; "/x?page=2"] (100 * time.Millisecond)).
Proof. vm_compute. reflexivity. Qed.

(** C1, amended: when the request of a page or the decoding of its body
    fails, after any number of pages fetched before it, [GetAll] returns
    that error at once, and the slice of the caller holds what it held
    before the call followed by the items of the pages decoded before the
    failure, in order; these items are not discarded by [GetAll].  The
    first hypothesis says that the answers [earlier] are the pages fetched
    before: run on them alone, the loop takes a page from each and is left
    waiting for the answer to its request of [next]. *)
Theorem GetAll_failure_keeps_earlier_pages {T : Type}
    (decode : string -> error + list T)
    (url_Parse : string -> option ParsedURL)
    (NewRequestWithContext : string -> string -> option error)
    (pr : PaginatedRequest T) (elem : rtype)
    (earlier : list (error + Response)) (failing : error + Response)
    (later : list (error + Response)) (path next : string)
    (w w1 : World T) (err : error) :
  GetAll decode url_Parse NewRequestWithContext pr earlier path
    (pointer_to_slice_of elem) w = (NoAnswer next, w1) ->
  fetch_page decode NewRequestWithContext pr next failing = inl err ->
  GetAll decode url_Parse NewRequestWithContext pr
    (earlier ++ failing :: later) path (pointer_to_slice_of elem) w
  = (Returns (Some err),
     mkWorld (slice w1) (waits w1) (requests w1 ++ [next]) (slept w1)) /\
  exists pages,
    decoded decode NewRequestWithContext pr earlier pages /\
    slice w1 = slice w ++ concat pages.
Proof.
  unfold GetAll, pointer_to_slice_of. cbn. apply GetAll_loop_failure.
Qed.

Lemma GetAll_failure_keeps_earlier_pages_witness :
  GetAll sampleDecode sampleParse anyRequest (NewPaginatedRequest sampleClient)
    ([inr (response 200 "[1,2]" next_link_header)]
     ++ inr (response 500 "boom" EmptyString) :: [])
    "/x" (pointer_to_slice_of tInt) emptyWorld
  = (Returns (Some (wrapError "failed to fetch paginated results"
                      (APIError 500 "boom"))),
     mkWorld [1; 2] 2 ([ "/x" ] ++ ["/x?page=2"]) (100 * time.Millisecond)) /\
  exists pages,
    decoded sampleDecode anyRequest (NewPaginatedRequest sampleClient)
      [inr (response 200 "[1,2]" next_link_header)] pages /\
    [1; 2] = [] ++ concat pages.
Proof.
  apply (GetAll_failure_keeps_earlier_pages sampleDecode sampleParse anyRequest
           (NewPaginatedRequest sampleClient) tInt
           [inr (response 200 "[1,2]" next_link_header)]
           (inr (response 500 "boom" EmptyString)) [] "/x" "/x?page=2"
           emptyWorld
           (mkWorld [1; 2] 2 ["/x"] (100 * time.Millisecond))).
  - vm_compute. reflexivity.
  - vm_compute. reflexivity.
Defined.

(** The failure of the first page: nothing is appended. *)
Lemma GetAll_first_page_failure {T : Type}
    (decode : string -> error + list T)
    (url_Parse : string -> option ParsedURL)
    (NewRequestWithContext : string -> string -> option error)
    (pr : PaginatedRequest T) (elem : rtype)
    (failing : error + Response) (later : list (error + Response))
    (c : ascii) (path : string) (w : World T) (err : error) :
  default Background (ctx pr) 0%nat = None ->
  fetch_page decode NewRequestWithContext pr (String c path) failing = inl err ->
  GetAll decode url_Parse NewRequestWithContext pr (failing :: later)
    (String c path) (pointer_to_slice_of elem) w
  = (Returns (Some err),
     mkWorld (slice w) (S (waits w)) (requests w ++ [String c path]) (slept w)).
Proof.
  intros Hctx Hfail. unfold GetAll, pointer_to_slice_of. cbn -[GetAll_loop].
  rewrite GetAll_loop_turn by exact Hctx. cbv zeta. rewrite Hfail. reflexivity.
Qed.

(** The callers drop the slice on an error: [listRecordingsByType] returns
    nil with it. *)
Lemma listRecordingsByType_error_returns_nil
    (decode : string -> error + list Recording)
    (url_Parse : string -> option ParsedURL)
    (NewRequestWithContext : string -> string -> option error)
    (c : Client) (context : Context) (path : string)
    (since : option time.Time) (answers : list (error + Response))
    (err : error) :
  fst (listRecordingsByType decode url_Parse NewRequestWithContext c context
         path since answers) = Returns (Some err) ->
  snd (listRecordingsByType decode url_Parse NewRequestWithContext c context
         path since answers) = None.
Proof.
  unfold listRecordingsByType.
  destruct (GetAll decode url_Parse NewRequestWithContext _ answers path
              (pointer_to_slice_of tRecording) (mkWorld [] 0 [] 0))
    as [[[e|]| | |] w']; cbn; congruence.
Qed.

(** The cases of the pagination tests. *)
Example GetAll_multiple_pages :
  GetAll sampleDecode sampleParse anyRequest (NewPaginatedRequest sampleClient)
    [inr (response 200 "[1,2]" next_link_header);
     inr (response 200 "[3]" EmptyString)]
    "/x" (pointer_to_slice_of tInt) emptyWorld
  = (Returns None,
     mkWorld [1; 2; 3] 2 ["/x"; "/x?page=2"] (100 * time.Millisecond)).
Proof. vm_compute. reflexivity. Qed.

Example GetAll_with_max_pages :
  GetAll sampleDecode sampleParse anyRequest
    (WithMaxPages 1 (NewPaginatedRequest sampleClient))
    [inr (response 200 "[1,2]" next_link_header);
     inr (response 200 "[3]" EmptyString)]
    "/x" (pointer_to_slice_of tInt) emptyWorld
  = (Returns None, mkWorld [1; 2] 1 ["/x"] 0).
Proof. vm_compute. reflexivity. Qed.

Example GetAll_page_check_stops :
  GetAll sampleDecode sampleParse anyRequest
    (WithPageCheck (fun page => Z.ltb (List.last (page_items page) 0) 2)
       (NewPaginatedRequest sampleClient))
    [inr (response 200 "[1,2]" next_link_header);
     inr (response 200 "[3]" EmptyString)]
    "/x" (pointer_to_slice_of tInt) emptyWorld
  = (Returns None, mkWorld [1; 2] 1 ["/x"] 0).
Proof. vm_compute. reflexivity. Qed.

Example GetAll_canceled_after_first_page :
  GetAll sampleDecode sampleParse anyRequest
    (WithContext canceledAfterFirstPage (NewPaginatedRequest sampleClient))
    [inr (response 200 "[1,2]" next_link_header);
     inr (response 200 "[3]" EmptyString)]
    "/x" (pointer_to_slice_of tInt) emptyWorld
  = (Returns (Some Canceled),
     mkWorld [1; 2] 1 ["/x"] (100 * time.Millisecond)).
Proof. vm_compute. reflexivity. Qed.

Example GetAll_empty_response :
  GetAll sampleDecode sampleParse anyRequest (NewPaginatedRequest sampleClient)
    [inr (response 200 "[]" EmptyString)]
    "/x" (pointer_to_slice_of tInt) emptyWorld
  = (Returns None, mkWorld [] 1 ["/x"] 0).
Proof. vm_compute. reflexivity. Qed.

Example GetAll_invalid_result_type :
  GetAll sampleDecode sampleParse anyRequest (NewPaginatedRequest sampleClient)
    [] "/items.json" (Iface (TPtr (TNamed "string" NString)) false) emptyWorld
  = (Returns (Some (errorString "result must be a pointer to a slice")),
     emptyWorld) /\
  GetAll sampleDecode sampleParse anyRequest (NewPaginatedRequest sampleClient)
    [] "/items.json" (Iface (TSlice tInt) false) emptyWorld
  = (Returns (Some (errorString "result must be a pointer to a slice")),
     emptyWorld).
Proof. split; reflexivity. Qed.

(** TestListRecordingsByType_EarlyTermination: with a cutoff two hours
    back the second page ends the pagination, and the third page is not
    fetched. *)
Example listRecordingsByType_early_termination :
  (fun r => (fst r, map ID <$> snd r))
    (listRecordingsByType sampleDecodeRecordings sampleParse anyRequest
       sampleClient Background "/projects/recordings.json?type=Todo"
       (Some (100 * time.Hour - 120 * time.Minute))
       [inr (response 200 "page1" next_link_header);
        inr (response 200 "page2" next_link_header);
        inr (response 200 "page3" EmptyString)])
  = (Returns None, Some [1; 2; 3; 4]).
Proof. vm_compute. reflexivity. Qed.

(** [extractPathFromURL] on the URL of the specification, with the parts
    url.Parse gives of it. *)
Example extractPathFromURL_account_id :
  extractPathFromURL
    (fun _ => Some {| Scheme := "https"; Host := "3.basecampapi.com";
                      Path := "/999999999/buckets/2085958496/messages.json";
                      RawQuery := "page=4" |})
    "https://3.basecampapi.com/999999999/buckets/2085958496/messages.json?page=4"
  = "/buckets/2085958496/messages.json?page=4".
Proof. vm_compute. reflexivity. Qed.

(** ** The validator of the rich text *)

(** C5 fails on the code: the attribute pattern asks for white space
    twice after the name of the tag, so the first attribute of an anchor is
    never examined, and being greedy it examines the last attribute only.
    An anchor whose one attribute is target, and an anchor with target
    before href, pass the validator, where the claim has it return an error
    that names target. *)
Theorem ValidateBasecampHTML_misses_attributes :
  markdown.ValidateBasecampHTML anchor_with_target = None /\
  markdown.ValidateBasecampHTML anchor_with_target_then_href = None.
Proof. split; vm_compute; reflexivity. Qed.

Lemma HasPrefix_empty (s : string) : gostrings.HasPrefix s EmptyString = true.
Proof. destruct s; reflexivity. Qed.

Lemma Contains_open_bracket (s : string) :
  gostrings.Contains s "<" = false -> no_open_bracket s = true.
Proof.
  induction s as [|c s IH]; [reflexivity|].
  cbn [gostrings.Contains gostrings.HasPrefix no_open_bracket].
  rewrite HasPrefix_empty, andb_true_r.
  intros [Hc Hs]%orb_false_elim.
  rewrite Ascii.eqb_sym, Hc. cbn. apply IH, Hs.
Qed.

(** A pattern that starts with the opening angle bracket finds nothing in
    a text without one. *)
Lemma find_all_without_open_bracket (re : regexp.Regexp) (g ngroups : nat)
    (skip : nat) (s : string) :
  no_open_bracket s = true ->
  regexp.find_all_from (regexp.mkPiece (Ascii.eqb "<") regexp.One g :: re)
    ngroups skip s = [].
Proof.
  revert skip. induction s as [|c s IH]; intros skip Hs; [reflexivity|].
  cbn [no_open_bracket] in Hs. apply andb_prop in Hs as [Hc Hs].
  apply negb_true_iff in Hc.
  cbn [regexp.find_all_from]. destruct skip as [|k]; [|apply IH, Hs].
  cbn [regexp.match_here regexp.rep regexp.cls]. rewrite Hc. apply IH, Hs.
Qed.

(** The defect in general.  A starred class either takes a byte and goes
    on, or leaves the text to the rest of the pattern. *)
Lemma match_here_star (p : ascii -> bool) (g : nat) (re : regexp.Regexp)
    (ngroups : nat) (s : string) :
  regexp.match_here (regexp.mkPiece p regexp.Star g :: re) ngroups s =
  match
    match s with
    | String c s' =>
      if p c
      then regexp.consumed g c
             (regexp.match_here (regexp.mkPiece p regexp.Star g :: re)
                ngroups s')
      else None
    | EmptyString => None
    end
  with
  | Some r => Some r
  | None => regexp.match_here re ngroups s
  end.
Proof. destruct s; reflexivity. Qed.

Lemma match_here_one (p : ascii -> bool) (g : nat) (re : regexp.Regexp)
    (ngroups : nat) (c : ascii) (s : string) :
  regexp.match_here (regexp.mkPiece p regexp.One g :: re) ngroups (String c s) =
  if p c then regexp.consumed g c (regexp.match_here re ngroups s) else None.
Proof. reflexivity. Qed.

Lemma match_here_needs_space (p : ascii -> bool) (re : regexp.Regexp)
    (ngroups : nat) (s : string) :
  no_space s = true ->
  regexp.match_here
    (regexp.mkPiece p regexp.Star 0
     :: regexp.mkPiece regexp.space regexp.One 0 :: re) ngroups s = None.
Proof.
  induction s as [|c s IH]; intros Hs; rewrite match_here_star.
  - reflexivity.
  - cbn [no_space] in Hs. apply andb_prop in Hs as [Hc Hs].
    apply negb_true_iff in Hc. rewrite (IH Hs), match_here_one, Hc.
    destruct (p c); reflexivity.
Qed.

(** After the name of the tag and one space, a text without further white
    space and without another tag is never matched: whatever the first
    attribute of an anchor is, the validator does not look at it. *)
Lemma attrRegex_skips_first_attribute (rest : string) :
  no_space rest = true -> no_open_bracket rest = true ->
  regexp.FindAllStringSubmatch markdown.attrRegex 1 ("<a " +:+ rest) = [].
Proof.
  intros Hspace Hbracket. unfold regexp.FindAllStringSubmatch.
  change ("<a " +:+ rest) with (String "<" (String "a" (String " " rest))).
  cbn [regexp.find_all_from].
  assert (Hhere : regexp.match_here markdown.attrRegex 1
                    (String "<" (String "a" (String " " rest))) = None).
  { set (tail := regexp.star regexp.space
                 ++ regexp.capture 1 (regexp.plus regexp.word)
                 ++ regexp.lit "=").
    change markdown.attrRegex with
      (regexp.mkPiece (Ascii.eqb "<") regexp.One 0
       :: regexp.mkPiece (Ascii.eqb "a") regexp.One 0
       :: regexp.mkPiece regexp.space regexp.One 0
       :: regexp.mkPiece regexp.space regexp.Star 0
       :: regexp.mkPiece (regexp.not_byte ">") regexp.Star 0
       :: regexp.mkPiece regexp.space regexp.One 0 :: tail).
    rewrite !match_here_one, !Ascii.eqb_refl.
    replace (regexp.space " ") with true by reflexivity.
    assert (Hrest : regexp.match_here
                      (regexp.mkPiece (regexp.not_byte ">") regexp.Star 0
                       :: regexp.mkPiece regexp.space regexp.One 0 :: tail)
                      1 rest = None)
      by (apply match_here_needs_space; exact Hspace).
    assert (Hstar : regexp.match_here
                      (regexp.mkPiece regexp.space regexp.Star 0
                       :: regexp.mkPiece (regexp.not_byte ">") regexp.Star 0
                       :: regexp.mkPiece regexp.space regexp.One 0 :: tail)
                      1 rest = None).
    { rewrite match_here_star. destruct rest as [|c rest'].
      - exact Hrest.
      - cbn [no_space] in Hspace. apply andb_prop in Hspace as [Hc _].
        apply negb_true_iff in Hc. rewrite Hc. exact Hrest. }
    rewrite Hstar. reflexivity. }
  rewrite Hhere.
  change markdown.attrRegex with
    (regexp.mkPiece (Ascii.eqb "<") regexp.One 0 :: tl markdown.attrRegex).
  apply find_all_without_open_bracket.
  cbn [no_open_bracket]. rewrite Hbracket. reflexivity.
Qed.

(** The cases in which the validator does what the claim says. *)
Example ValidateBasecampHTML_last_attribute :
  markdown.ValidateBasecampHTML anchor_with_href_then_target =
  Some (errorString
          "unsupported attribute 'target' on <a> tag (only 'href' is allowed)").
Proof. vm_compute. reflexivity. Qed.

Example ValidateBasecampHTML_href_only :
  markdown.ValidateBasecampHTML anchor_with_href = None.
Proof. vm_compute. reflexivity. Qed.

Example ValidateBasecampHTML_unsupported_tag :
  markdown.ValidateBasecampHTML "<div><span>x</span></div>" =
  Some (errorString "unsupported HTML tag: span").
Proof. vm_compute. reflexivity. Qed.

Example ValidateBasecampHTML_supported_tags :
  markdown.ValidateBasecampHTML
    "<DIV><h1>t</h1><ul><li>a</li></ul><br><bc-attachment></bc-attachment></DIV>"
  = None.
Proof. vm_compute. reflexivity. Qed.

(** ** The converter validates what it returns *)

Lemma ValidateBasecampHTML_without_open_bracket (s : string) :
  no_open_bracket s = true -> markdown.ValidateBasecampHTML s = None.
Proof.
  intros Hs. unfold markdown.ValidateBasecampHTML.
  destruct s as [|c s]; [reflexivity|].
  unfold regexp.FindAllStringSubmatch.
  change markdown.tagRegex with
    (regexp.mkPiece (Ascii.eqb "<") regexp.One 0 :: tl markdown.tagRegex).
  change markdown.attrRegex with
    (regexp.mkPiece (Ascii.eqb "<") regexp.One 0 :: tl markdown.attrRegex).
  rewrite !find_all_without_open_bracket by exact Hs. reflexivity.
Qed.

Lemma isSimplePlainText_no_open_bracket (input : string) :
  markdown.isSimplePlainText input = true -> no_open_bracket input = true.
Proof.
  unfold markdown.isSimplePlainText. intros H.
  destruct (String.eqb (gostrings.TrimSpace input) EmptyString); [discriminate|].
  destruct (gostrings.Contains input (str newline)); [discriminate|].
  destruct (existsb (fun pattern => gostrings.Contains input pattern)
              markdown.markdownPatterns) eqn:E; [discriminate|].
  clear H. apply Contains_open_bracket.
  destruct (gostrings.Contains input "<") eqn:Hlt; [|reflexivity].
  assert (Hex : existsb (fun pattern => gostrings.Contains input pattern)
                  markdown.markdownPatterns = true).
  { apply existsb_exists. exists "<". split; [|exact Hlt].
    unfold markdown.markdownPatterns. cbn. tauto. }
  congruence.
Qed.

(** C6: whatever the Markdown renderer does, a result that
    [MarkdownToRichText] returns without an error passes
    [ValidateBasecampHTML]: the empty result, the input returned unchanged
    on the plain-text path (it holds no opening angle bracket, so no tag),
    and the rendered result, which is returned only when the validator
    accepts it. *)
Theorem MarkdownToRichText_result_validates
    (md_Convert : string -> error + string) (markdown_ result : string) :
  markdown.MarkdownToRichText md_Convert markdown_ = (result, None) ->
  markdown.ValidateBasecampHTML result = None.
Proof.
  unfold markdown.MarkdownToRichText.
  destruct (gostrings.TrimSpace markdown_) as [|c input] eqn:Hinput.
  - intros [= <-]. reflexivity.
  - destruct (markdown.isSimplePlainText (String c input)) eqn:Hplain.
    + intros [= <-]. apply ValidateBasecampHTML_without_open_bracket.
      apply isSimplePlainText_no_open_bracket. exact Hplain.
    + destruct (md_Convert (String c input)) as [err|html]; [discriminate|].
      destruct (String.eqb _ EmptyString || String.eqb _ "<div></div>").
      * intros [= <-]. reflexivity.
      * destruct (markdown.ValidateBasecampHTML
                    (gostrings.TrimSpace (markdown.postProcessHTML html)))
          eqn:Hvalid; [discriminate|].
        intros [= <-]. exact Hvalid.
Qed.

Lemma MarkdownToRichText_result_validates_witness :
  markdown.MarkdownToRichText renderBold "This is **bold** text"
  = ("<div>This is <strong>bold</strong> text</div>", None) /\
  markdown.ValidateBasecampHTML "<div>This is <strong>bold</strong> text</div>"
  = None.
Proof.
  assert (H : markdown.MarkdownToRichText renderBold "This is **bold** text"
              = ("<div>This is <strong>bold</strong> text</div>", None))
    by (vm_compute; reflexivity).
  split; [exact H|].
  exact (MarkdownToRichText_result_validates renderBold
           "This is **bold** text"
           "<div>This is <strong>bold</strong> text</div>" H).
Defined.

(** The plain-text path and the empty input. *)
Example MarkdownToRichText_plain_text (md_Convert : string -> error + string) :
  markdown.MarkdownToRichText md_Convert "Hello world" = ("Hello world", None).
Proof. vm_compute. reflexivity. Qed.

Example MarkdownToRichText_only_whitespace
    (md_Convert : string -> error + string) :
  markdown.MarkdownToRichText md_Convert
    ("   " +:+ str newline +:+ str newline +:+ "   ") = (EmptyString, None).
Proof. vm_compute. reflexivity. Qed.

(** A renderer that writes a tag outside the allow-list: the error of the
    validator is returned, not the markup. *)
Example MarkdownToRichText_rejects_unsupported
    : markdown.MarkdownToRichText (fun _ => inr "<p><u>x</u></p>") "*x*"
      = (EmptyString,
         Some (wrapError "generated HTML contains unsupported tags"
                 (errorString "unsupported HTML tag: u"))).
Proof. vm_compute. reflexivity. Qed.

(** The rewriting of what goldmark writes for inputs of the tests. *)
Example postProcessHTML_heading :
  markdown.postProcessHTML
    ("<h2 " +:+ attribute "id" "heading-2" +:+ ">Heading 2</h2>" +:+ str newline)
  = "<h1>Heading 2</h1>".
Proof. vm_compute. reflexivity. Qed.

Example postProcessHTML_code_block :
  markdown.postProcessHTML
    ("<pre><code>echo hello" +:+ str newline +:+ "</code></pre>" +:+ str newline)
  = "<pre>echo hello" +:+ str newline +:+ "</pre>".
Proof. vm_compute. reflexivity. Qed.

(** * Part II, continued *)

(** ** The rate limiter in use *)

(** Before a whole refill interval has passed [refill] changes nothing. *)
Lemma refill_idle (now : time.Time) (rl : RateLimiter) :
  0 < refillRate rl -> now - lastRefill rl < refillRate rl ->
  refill now rl = Some rl.
Proof.
  intros Hrate Hlt. unfold refill.
  destruct (Z.eqb_spec (refillRate rl) 0) as [H0|_]; [lia|].
  pose proof (Sub_in_int64 now (lastRefill rl)) as He.
  assert (Hsub : time.Sub now (lastRefill rl) < refillRate rl)
    by (unfold time.Sub, min_int64, max_int64; lia).
  set (e := time.Sub now (lastRefill rl)) in *.
  assert (Hq : min_int64 <= Z.quot e (refillRate rl) <= 0).
  { unfold in_int64, min_int64, max_int64 in *.
    destruct (Z.le_gt_cases 0 e) as [Hpos|Hneg].
    - rewrite Z.quot_small by lia. lia.
    - pose proof (Z.quot_opp_l e (refillRate rl) ltac:(lia)) as Hopp.
      pose proof (Z.quot_pos (- e) (refillRate rl) ltac:(lia) Hrate).
      pose proof (Z.quot_le_upper_bound (- e) (refillRate rl) (- e) Hrate).
      assert (- e <= refillRate rl * - e) by nia. lia. }
  rewrite wrap64_id by (unfold in_int64, min_int64, max_int64 in *; lia).
  destruct (Z.ltb_spec 0 (Z.quot e (refillRate rl))); [lia|reflexivity].
Qed.

(** X1: the bucket is a burst allowance.  While less than one refill
    interval has passed since the last refill, successive calls of
    [TryAcquire] answer true as long as tokens are left and false from
    then on: of [n] calls the first [tokens] succeed, and nothing is
    refilled. *)
Theorem TryAcquire_burst (clock : list time.Time) (rl : RateLimiter) :
  limiter_inv rl -> 0 < refillRate rl ->
  Forall (fun now => now - lastRefill rl < refillRate rl) clock ->
  exists rl1,
    TryAcquire_each clock rl =
    Some (rl1,
          repeat true (Nat.min (length clock) (Z.to_nat (tokens rl))) ++
          repeat false (length clock - Z.to_nat (tokens rl))) /\
    tokens rl1 = Z.max 0 (tokens rl - Z.of_nat (length clock)) /\
    lastRefill rl1 = lastRefill rl /\
    maxTokens rl1 = maxTokens rl /\ refillRate rl1 = refillRate rl.
Proof.
  revert rl. induction clock as [|now clock IH]; intros rl Hinv Hrate Hall.
  - exists rl. cbn. unfold limiter_inv in Hinv. repeat split; lia.
  - inversion Hall as [|? ? Hnow Hrest]; subst.
    cbn [TryAcquire_each]. unfold TryAcquire.
    rewrite (refill_idle now rl Hrate Hnow).
    unfold limiter_inv in Hinv.
    destruct (Z.ltb_spec 0 (tokens rl)) as [Hpos|Hzero].
    + destruct (IH (take_token rl)) as (rl1 & Heach & Htok & Hlast & Hmax & Hrr).
      * unfold limiter_inv. cbn. lia.
      * exact Hrate.
      * exact Hrest.
      * rewrite Heach. exists rl1. cbn [take_token tokens lastRefill maxTokens
          refillRate] in *.
        split; [|repeat split; try assumption; cbn [length]; lia].
        f_equal. f_equal.
        replace (Z.to_nat (tokens rl)) with (S (Z.to_nat (tokens rl - 1))) by lia.
        cbn [length Nat.min Nat.sub repeat app]. reflexivity.
    + destruct (IH rl) as (rl1 & Heach & Htok & Hlast & Hmax & Hrr);
        [exact Hinv|exact Hrate|exact Hrest|].
      rewrite Heach. exists rl1.
      split; [|repeat split; try assumption; cbn [length]; lia].
      f_equal. f_equal.
      replace (Z.to_nat (tokens rl)) with 0%nat by lia.
      rewrite !Nat.min_0_r, !Nat.sub_0_r. reflexivity.
Qed.

Lemma TryAcquire_burst_witness :
  exists rl1,
    TryAcquire_each [10; 20; 30]
      {| tokens := 2; maxTokens := 2; refillRate := time.Second;
         lastRefill := 0 |} =
    Some (rl1, [true; true; false]) /\ tokens rl1 = 0.
Proof.
  destruct (TryAcquire_burst [10; 20; 30]
              {| tokens := 2; maxTokens := 2; refillRate := time.Second;
                 lastRefill := 0 |})
    as (rl1 & Heach & Htok & _).
  - unfold limiter_inv. cbn. lia.
  - reflexivity.
  - repeat constructor.
  - exists rl1. split; [exact Heach|exact Htok].
Defined.

(** What [refill] does to the balance of the bucket: the tokens held,
    counted in time, and the refill instant move together, and the refill
    instant never passes the instant read. *)
Lemma refill_balance (now : time.Time) (rl : RateLimiter) :
  limiter_inv rl -> limiter_config_ok rl ->
  exists rl1,
    refill now rl = Some rl1 /\ limiter_inv rl1 /\ limiter_config_ok rl1 /\
    refillRate rl1 = refillRate rl /\ maxTokens rl1 = maxTokens rl /\
    tokens rl1 * refillRate rl - lastRefill rl1 <=
      tokens rl * refillRate rl - lastRefill rl /\
    lastRefill rl <= lastRefill rl1 <= Z.max (lastRefill rl) now.
Proof.
  intros Hinv Hok.
  pose proof (config_ok_fits now rl Hinv Hok) as Hfits.
  destruct Hok as [Hrate Hmax].
  pose proof (refill_spec now rl Hinv Hrate Hfits) as Hspec. cbv zeta in Hspec.
  eexists. split; [exact Hspec|].
  unfold limiter_inv, limiter_config_ok in *. cbn.
  set (e := time.Sub now (lastRefill rl)) in *.
  assert (He : e <= 0 \/ e <= now - lastRefill rl)
    by (unfold e, time.Sub, min_int64, max_int64; lia).
  set (k := Z.max 0 (e / refillRate rl)).
  assert (Hk : 0 <= k) by (unfold k; lia).
  assert (Hkr : k * refillRate rl <= Z.max 0 e).
  { unfold k. destruct (Z.le_gt_cases 0 e) as [Hpos|Hneg].
    - pose proof (Z.mul_div_le e (refillRate rl) Hrate).
      pose proof (Z.div_pos e (refillRate rl) Hpos Hrate). lia.
    - pose proof (Z.div_lt_upper_bound e (refillRate rl) 0 Hrate). lia. }
  repeat split; try lia; nia.
Qed.

Lemma limiter_grants_balance (horizon : time.Time) (op : LimiterOp)
    (rl : RateLimiter) :
  limiter_inv rl -> limiter_config_ok rl -> acquires_before horizon op ->
  exists rl1 ok,
    limiter_grants op rl = Some (rl1, ok) /\
    limiter_inv rl1 /\ limiter_config_ok rl1 /\
    refillRate rl1 = refillRate rl /\
    (if ok then refillRate rl else 0) +
      tokens rl1 * refillRate rl - lastRefill rl1 <=
      tokens rl * refillRate rl - lastRefill rl /\
    lastRefill rl1 <= Z.max (lastRefill rl) horizon.
Proof.
  intros Hinv Hok Hop.
  destruct op as [now now'|now|now]; cbn in Hop; [| |contradiction].
  - destruct (refill_balance now rl Hinv Hok)
      as (rl1 & Hr & Hinv1 & Hok1 & Hrr & Hm & Hbal & Hlast).
    cbn. unfold Wait_turn. rewrite Hr.
    destruct (Z.ltb_spec 0 (tokens rl1)).
    + eexists _, true. split; [reflexivity|].
      unfold limiter_inv, limiter_config_ok in *. cbn. repeat split; lia.
    + eexists _, false. split; [reflexivity|].
      unfold limiter_inv, limiter_config_ok in *. repeat split; lia.
  - destruct (refill_balance now rl Hinv Hok)
      as (rl1 & Hr & Hinv1 & Hok1 & Hrr & Hm & Hbal & Hlast).
    cbn. unfold TryAcquire. rewrite Hr.
    destruct (Z.ltb_spec 0 (tokens rl1)).
    + eexists _, true. split; [reflexivity|].
      unfold limiter_inv, limiter_config_ok in *. cbn. repeat split; lia.
    + eexists _, false. split; [reflexivity|].
      unfold limiter_inv, limiter_config_ok in *. repeat split; lia.
Qed.

Lemma granted_balance (horizon : time.Time) (ops : list LimiterOp)
    (rl : RateLimiter) :
  limiter_inv rl -> limiter_config_ok rl ->
  Forall (acquires_before horizon) ops ->
  exists rl1 n,
    granted ops rl = Some (rl1, n) /\ limiter_inv rl1 /\
    Z.of_nat n * refillRate rl + tokens rl1 * refillRate rl - lastRefill rl1 <=
      tokens rl * refillRate rl - lastRefill rl /\
    lastRefill rl1 <= Z.max (lastRefill rl) horizon.
Proof.
  revert rl. induction ops as [|op ops IH]; intros rl Hinv Hok Hall.
  - exists rl, 0%nat. cbn. split; [reflexivity|]. split; [exact Hinv|]. lia.
  - inversion Hall as [|? ? Hop Hrest]; subst.
    destruct (limiter_grants_balance horizon op rl Hinv Hok Hop)
      as (rl1 & ok & Hg & Hinv1 & Hok1 & Hrr & Hbal & Hlast).
    destruct (IH rl1 Hinv1 Hok1 Hrest) as (rl2 & n & Hgr & Hinv2 & Hbal2 & Hlast2).
    cbn [granted]. rewrite Hg, Hgr. eexists _, _. split; [reflexivity|].
    rewrite Hrr in Hbal2.
    split; [exact Hinv2|]. split; [|lia].
    destruct ok; lia.
Qed.

(** X2: the limiter limits.  Whatever way goroutines interleave their
    calls of [Wait] and [TryAcquire] on a limiter that nobody resets, the
    tokens handed out up to an instant [horizon] are at most the tokens
    the bucket held at the start plus one for each whole refill interval
    between the last refill and [horizon]. *)
Theorem limiter_rate_bound (horizon : time.Time) (ops : list LimiterOp)
    (rl : RateLimiter) :
  limiter_inv rl -> limiter_config_ok rl -> lastRefill rl <= horizon ->
  Forall (acquires_before horizon) ops ->
  exists rl1 n,
    granted ops rl = Some (rl1, n) /\
    Z.of_nat n <= tokens rl + (horizon - lastRefill rl) / refillRate rl /\
    Z.of_nat n <= maxTokens rl + (horizon - lastRefill rl) / refillRate rl.
Proof.
  intros Hinv Hok Hlast Hall.
  destruct (granted_balance horizon ops rl Hinv Hok Hall)
    as (rl1 & n & Hg & Hinv1 & Hbal & Hlast1).
  exists rl1, n. split; [exact Hg|].
  destruct Hok as [Hrate _]. unfold limiter_inv in *.
  assert (Hn : Z.of_nat n <=
               tokens rl + (horizon - lastRefill rl) / refillRate rl).
  { assert (Hnonneg : 0 <= tokens rl1 * refillRate rl) by nia.
    assert (Hmul : (Z.of_nat n - tokens rl) * refillRate rl <=
                   horizon - lastRefill rl)
      by (rewrite Z.mul_sub_distr_r; lia).
    pose proof (Z.div_le_lower_bound (horizon - lastRefill rl) (refillRate rl)
                  (Z.of_nat n - tokens rl) Hrate) as Hdiv.
    assert (Hcomm : refillRate rl * (Z.of_nat n - tokens rl) <=
                    horizon - lastRefill rl) by lia.
    specialize (Hdiv Hcomm). lia. }
  split; [exact Hn|lia].
Qed.

Lemma limiter_rate_bound_witness :
  exists rl1 n,
    granted [OpTryAcquire 0; OpWaitTurn 1 1; OpTryAcquire 2;
             OpWaitTurn (250 * time.Millisecond) (250 * time.Millisecond)]
      {| tokens := 2; maxTokens := 50; refillRate := 200 * time.Millisecond;
         lastRefill := 0 |} = Some (rl1, n) /\
    Z.of_nat n <= 2 + (250 * time.Millisecond - 0) / (200 * time.Millisecond).
Proof.
  destruct (limiter_rate_bound (250 * time.Millisecond)
              [OpTryAcquire 0; OpWaitTurn 1 1; OpTryAcquire 2;
               OpWaitTurn (250 * time.Millisecond) (250 * time.Millisecond)]
              {| tokens := 2; maxTokens := 50;
                 refillRate := 200 * time.Millisecond; lastRefill := 0 |})
    as (rl1 & n & Hg & Hn & _).
  - unfold limiter_inv. cbn. lia.
  - unfold limiter_config_ok. cbn. split; [reflexivity|].
    vm_compute. discriminate.
  - cbn. unfold time.Millisecond. lia.
  - repeat constructor; cbn; unfold time.Millisecond; lia.
  - exists rl1, n. split; [exact Hg|exact Hn].
Defined.

(** X3: how long [Wait] sleeps.  With a clock that does not run backwards,
    a turn of [Wait] sleeps only on an empty bucket, for a positive time
    of at most one refill interval: to the instant the next token is due
    when that instant is still ahead, and for a whole interval when it has
    passed between the two readings of the clock. *)
Theorem Wait_turn_sleeps_until_next_token (now now' : time.Time)
    (rl rl1 : RateLimiter) (waitTime : time.Duration) :
  limiter_inv rl -> limiter_config_ok rl -> refillRate rl <= max_int64 ->
  lastRefill rl <= now' -> now <= now' ->
  Wait_turn now now' rl = Some (rl1, Sleeps waitTime) ->
  tokens rl1 = 0 /\
  0 < waitTime <= refillRate rl /\
  (now' + waitTime = lastRefill rl1 + refillRate rl \/
   lastRefill rl1 + refillRate rl <= now' /\ waitTime = refillRate rl).
Proof.
  intros Hinv Hok Hmax Hlast Hnow Hturn.
  destruct (refill_balance now rl Hinv Hok)
    as (rl2 & Hr & Hinv2 & Hok2 & Hrr & Hm & Hbal & Hlast2).
  unfold Wait_turn in Hturn. rewrite Hr in Hturn.
  destruct Hok as [Hrate _]. unfold limiter_inv in *.
  destruct (Z.ltb_spec 0 (tokens rl2)) as [Hpos|Hzero]; [discriminate|].
  injection Hturn as <- <-. rewrite Hrr.
  split; [lia|].
  assert (Hsub : time.Sub now' (lastRefill rl2) =
                 Z.min max_int64 (now' - lastRefill rl2))
    by (unfold time.Sub, min_int64, max_int64; lia).
  rewrite Hsub.
  rewrite wrap64_id by (unfold in_int64, min_int64, max_int64 in *; lia).
  destruct (Z.leb_spec (refillRate rl - Z.min max_int64 (now' - lastRefill rl2)) 0).
  - split; [lia|]. right. split; [lia|reflexivity].
  - split; [lia|]. left. lia.
Qed.

Lemma Wait_turn_sleeps_until_next_token_witness :
  tokens {| tokens := 0; maxTokens := 50; refillRate := 200 * time.Millisecond;
            lastRefill := 0 |} = 0 /\
  0 < 150 * time.Millisecond <= 200 * time.Millisecond.
Proof.
  destruct (Wait_turn_sleeps_until_next_token
              (40 * time.Millisecond) (50 * time.Millisecond)
              {| tokens := 0; maxTokens := 50;
                 refillRate := 200 * time.Millisecond; lastRefill := 0 |}
              {| tokens := 0; maxTokens := 50;
                 refillRate := 200 * time.Millisecond; lastRefill := 0 |}
              (150 * time.Millisecond))
    as (Htok & Hwait & _).
  - unfold limiter_inv. cbn. lia.
  - unfold limiter_config_ok. cbn. split; [reflexivity|].
    vm_compute. discriminate.
  - vm_compute. discriminate.
  - cbn. unfold time.Millisecond. lia.
  - unfold time.Millisecond. lia.
  - reflexivity.
  - split; [exact Htok|exact Hwait].
Defined.

(** X4: a refill interval below one nanosecond.  [NewRateLimiter] divides
    the duration by the number of tokens in integers: with fewer
    nanoseconds than tokens the refill interval is 0, and every later
    [TryAcquire] and [Wait] on the limiter divides by it and panics. *)
Theorem NewRateLimiter_zero_rate_panics (now : time.Time) (maxTokens_ : Z)
    (refillDuration : time.Duration) :
  0 <= refillDuration < maxTokens_ ->
  exists rl,
    NewRateLimiter now maxTokens_ refillDuration = Some rl /\
    refillRate rl = 0 /\ tokens rl = maxTokens_ /\
    (forall t, TryAcquire t rl = None) /\
    (forall t t' clock, Wait ((t, t') :: clock) rl = (rl, WaitPanicked)).
Proof.
  intros Hd. unfold NewRateLimiter.
  destruct (Z.eqb_spec maxTokens_ 0) as [H0|_]; [lia|].
  rewrite Z.quot_small by lia.
  eexists. split; [reflexivity|]. cbn. repeat split.
Qed.

Lemma NewRateLimiter_zero_rate_panics_witness :
  exists rl,
    NewRateLimiter 0 50 10 = Some rl /\ refillRate rl = 0 /\
    forall t, TryAcquire t rl = None.
Proof.
  destruct (NewRateLimiter_zero_rate_panics 0 50 10 ltac:(lia))
    as (rl & Hnew & Hrate & _ & Htry & _).
  exists rl. repeat split; assumption.
Defined.

(** X5: [Wait] returns once a token is due.  On a limiter with room for a
    token, a call of [Wait] whose turns include one at an instant at least
    a refill interval after the last refill has returned, with a token,
    by that turn. *)
Theorem Wait_returns_when_token_due (clock : list (time.Time * time.Time))
    (rl : RateLimiter) (now now' : time.Time) :
  limiter_inv rl -> limiter_config_ok rl -> refillRate rl <= max_int64 ->
  0 < maxTokens rl ->
  In (now, now') clock -> refillRate rl <= now - lastRefill rl ->
  exists rl1, Wait clock rl = (rl1, WaitReturned) /\ limiter_inv rl1.
Proof.
  intros Hinv Hok Hmax Hroom Hin Hdue.
  induction clock as [|[t t'] clock IH]; [contradiction|].
  pose proof (config_ok_fits t rl Hinv Hok) as Hfits.
  pose proof Hok as [Hrate _].
  pose proof (refill_spec t rl Hinv Hrate Hfits) as Hspec. cbv zeta in Hspec.
  cbn [Wait]. unfold Wait_turn. rewrite Hspec. cbn [tokens].
  set (k := Z.max 0 (time.Sub t (lastRefill rl) / refillRate rl)) in *.
  unfold limiter_inv in Hinv.
  destruct (Z.ltb_spec 0 (Z.min (tokens rl + k) (maxTokens rl))) as [Hpos|Hzero].
  - eexists. split; [reflexivity|]. unfold limiter_inv. cbn. lia.
  - assert (Hk : k = 0) by lia.
    assert (Htok : tokens rl = 0) by lia.
    assert (Hsame : {| tokens := Z.min (tokens rl + k) (maxTokens rl);
                       maxTokens := maxTokens rl;
                       refillRate := refillRate rl;
                       lastRefill := lastRefill rl + k * refillRate rl |} = rl).
    { rewrite Hk, Z.mul_0_l, !Z.add_0_r. rewrite Z.min_l by lia.
      clear. destruct rl; reflexivity. }
    rewrite Hsame.
    destruct Hin as [Heq|Hin]; [|exact (IH Hin)].
    injection Heq as -> ->.
    assert (Hsub : refillRate rl <= time.Sub now (lastRefill rl))
      by (unfold time.Sub, min_int64 in *; unfold max_int64 in *; lia).
    pose proof (Z.div_le_lower_bound (time.Sub now (lastRefill rl))
                  (refillRate rl) 1 Hrate ltac:(lia)).
    unfold k in Hk. lia.
Qed.

Lemma Wait_returns_when_token_due_witness :
  exists rl1,
    Wait [(50 * time.Millisecond, 50 * time.Millisecond);
          (210 * time.Millisecond, 210 * time.Millisecond)]
      {| tokens := 0; maxTokens := 50; refillRate := 200 * time.Millisecond;
         lastRefill := 0 |} = (rl1, WaitReturned) /\ limiter_inv rl1.
Proof.
  apply (Wait_returns_when_token_due _ _
           (210 * time.Millisecond) (210 * time.Millisecond)).
  - unfold limiter_inv. cbn. lia.
  - unfold limiter_config_ok. cbn. split; [reflexivity|].
    vm_compute. discriminate.
  - vm_compute. discriminate.
  - reflexivity.
  - right. left. reflexivity.
  - cbn. unfold time.Millisecond. lia.
Defined.

(** ** The activity feed: filter, sort and aggregation *)

Lemma filter_sublist {A : Type} (f : A -> bool) (l : list A) :
  sublist (List.filter f l) l.
Proof.
  induction l as [|a l IH]; cbn; [constructor|].
  destruct (f a); [apply sublist_skip|apply sublist_cons]; exact IH.
Qed.

Lemma filterRecordings_sublist (recordings : list Recording)
    (opts : ActivityListOptions) :
  sublist (filterRecordings recordings opts) recordings.
Proof.
  rewrite filterRecordings_spec.
  destruct (0 <? Limit opts).
  - etransitivity; [apply sublist_take|apply filter_sublist].
  - apply filter_sublist.
Qed.

Lemma sorted_sublist {A : Type} (R : A -> A -> Prop) (l1 l2 : list A) :
  sublist l1 l2 -> StronglySorted R l2 -> StronglySorted R l1.
Proof.
  induction 1 as [|x l1 l2 Hsub IH|x l1 l2 Hsub IH]; intros Hs.
  - constructor.
  - inversion Hs as [|? ? Hs' Hall]; subst. constructor; [apply IH, Hs'|].
    rewrite List.Forall_forall in *. intros y Hy. apply Hall.
    apply list_elem_of_In. eapply elem_of_sublist; [|exact Hsub].
    apply list_elem_of_In, Hy.
  - inversion Hs; subst. apply IH. assumption.
Qed.

Lemma filterRecordings_keeps (recordings : list Recording)
    (opts : ActivityListOptions) (r : Recording) :
  In r (filterRecordings recordings opts) ->
  In r recordings /\ keeps opts r = true.
Proof.
  rewrite filterRecordings_spec. intros Hin.
  assert (Hf : In r (List.filter (keeps opts) recordings)).
  { destruct (0 <? Limit opts); [|exact Hin].
    rewrite <- (firstn_skipn (Z.to_nat (Limit opts))). apply in_or_app.
    left. exact Hin. }
  apply List.filter_In in Hf. exact Hf.
Qed.

(** X6: what [filterRecordings] returns.  The result is a subsequence of
    the input, in the order of the input; each of its items passes the
    since filter and the person filter; under a positive limit it holds at
    most that many items, and without one it holds every item that passes;
    filtering the result again changes nothing. *)
Theorem filterRecordings_subsequence (recordings : list Recording)
    (opts : ActivityListOptions) :
  sublist (filterRecordings recordings opts) recordings /\
  (forall r, In r (filterRecordings recordings opts) -> keeps opts r = true) /\
  (0 < Limit opts ->
   Z.of_nat (length (filterRecordings recordings opts)) <= Limit opts) /\
  (Limit opts <= 0 ->
   forall r, In r recordings -> keeps opts r = true ->
             In r (filterRecordings recordings opts)) /\
  filterRecordings (filterRecordings recordings opts) opts =
  filterRecordings recordings opts.
Proof.
  split; [apply filterRecordings_sublist|].
  split; [intros r Hr; apply (filterRecordings_keeps _ _ _ Hr)|].
  split; [|split].
  - intros Hpos. rewrite filterRecordings_spec.
    destruct (Z.ltb_spec 0 (Limit opts)); [|lia].
    rewrite length_firstn. lia.
  - intros Hnone r Hin Hk. rewrite filterRecordings_spec.
    destruct (Z.ltb_spec 0 (Limit opts)); [lia|].
    apply List.filter_In. split; assumption.
  - rewrite !filterRecordings_spec.
    assert (Hidem : forall l,
              Forall (fun r => keeps opts r = true) l ->
              List.filter (keeps opts) l = l).
    { induction l as [|a l IH]; intros Hall; [reflexivity|].
      inversion Hall as [|? ? Ha Hl]; subst. cbn. rewrite Ha.
      f_equal. apply IH, Hl. }
    destruct (0 <? Limit opts).
    + rewrite Hidem.
      * rewrite firstn_firstn. f_equal. lia.
      * apply List.Forall_forall. intros r Hr.
        assert (Hf : In r (List.filter (keeps opts) recordings)).
        { rewrite <- (firstn_skipn (Z.to_nat (Limit opts))).
          apply in_or_app. left. exact Hr. }
        apply List.filter_In in Hf. apply Hf.
    + apply Hidem. apply List.Forall_forall. intros r Hr.
      apply List.filter_In in Hr. apply Hr.
Qed.

(** X7: [sortRecordings] leaves a list alone that is already in descending
    order of [UpdatedAt]; so sorting twice is sorting once. *)
Theorem sortRecordings_fixes_descending (recordings : list Recording) :
  (descending recordings -> sortRecordings recordings = recordings) /\
  sortRecordings (sortRecordings recordings) = sortRecordings recordings.
Proof.
  assert (Hfix : forall l, descending l -> sortRecordings l = l).
  { intros l Hl. apply stable_descending_unique.
    - apply sortRecordings_descending.
    - exact Hl.
    - intros t. apply sortRecordings_keeps_order. }
  split; [apply Hfix|]. apply Hfix, sortRecordings_descending.
Qed.

Lemma descending_last (recs : list Recording) (last_ : Recording) :
  descending recs -> last recs = Some last_ ->
  In last_ recs /\ forall r, In r recs -> UpdatedAt last_ <= UpdatedAt r.
Proof.
  unfold descending, time.After. induction recs as [|a recs IH]; [discriminate|].
  intros Hs Hlast. inversion Hs as [|? ? Hs' Hall]; subst.
  destruct recs as [|b recs].
  - injection Hlast as <-. split; [left; reflexivity|].
    intros r [<-|[]]. lia.
  - destruct (IH Hs' Hlast) as [Hin Hmin].
    split; [right; exact Hin|].
    intros r [<-|Hr]; [|apply Hmin, Hr].
    rewrite List.Forall_forall in Hall. specialize (Hall _ Hin).
    apply Z.ltb_ge in Hall. exact Hall.
Qed.

(** X8: the page check on a page in descending order.  On a page of
    recordings that is not empty and is ordered newest first, the check
    answers true (go on) exactly when no recording of the page was last
    updated before the cutoff, and false (stop) exactly when some recording
    of the page was. *)
Theorem sincePageCheck_descending_page (cutoff : time.Time)
    (recs : list Recording) :
  recs <> [] -> descending recs ->
  (sincePageCheck cutoff (mkPage (TSlice tRecording) recs) = true <->
   forall r, In r recs -> time.Before (UpdatedAt r) cutoff = false) /\
  (sincePageCheck cutoff (mkPage (TSlice tRecording) recs) = false <->
   exists r, In r recs /\ time.Before (UpdatedAt r) cutoff = true).
Proof.
  intros Hne Hdesc.
  destruct (last recs) as [last_|] eqn:Hlast.
  2:{ apply last_None in Hlast. contradiction. }
  destruct (descending_last recs last_ Hdesc Hlast) as [Hin Hmin].
  assert (Hcheck : sincePageCheck cutoff (mkPage (TSlice tRecording) recs) =
                   negb (time.Before (UpdatedAt last_) cutoff)).
  { unfold sincePageCheck. cbn [page_type page_items].
    replace (rtype_eqb (TSlice tRecording) (TSlice tRecording)) with true
      by reflexivity.
    destruct recs; [contradiction|]. cbn [negb orb length Nat.eqb].
    rewrite Hlast. reflexivity. }
  rewrite Hcheck. unfold time.Before in *. split; split.
  - intros Hgo r Hr. apply negb_true_iff in Hgo.
    apply Z.ltb_ge. apply Z.ltb_ge in Hgo. specialize (Hmin r Hr). lia.
  - intros Hall. rewrite (Hall last_ Hin). reflexivity.
  - intros Hstop. apply negb_false_iff in Hstop. exists last_. split; assumption.
  - intros (r & Hr & Hbefore). apply negb_false_iff.
    apply Z.ltb_lt. apply Z.ltb_lt in Hbefore. specialize (Hmin r Hr). lia.
Qed.

Lemma sincePageCheck_descending_page_witness :
  sincePageCheck 5
    (mkPage (TSlice tRecording) [recording 1 9 0; recording 2 4 0]) = false <->
  exists r, In r [recording 1 9 0; recording 2 4 0] /\
            time.Before (UpdatedAt r) 5 = true.
Proof.
  apply (sincePageCheck_descending_page 5 [recording 1 9 0; recording 2 4 0]).
  - discriminate.
  - unfold descending. repeat constructor.
Defined.

Lemma group_Wait_error (outcomes : list (option error * list Recording))
    (finished : list nat) (err : error) :
  group_Wait outcomes finished = Some err ->
  exists i recs, In i finished /\ outcomes !! i = Some (Some err, recs).
Proof.
  induction finished as [|i finished IH]; [discriminate|]. cbn.
  destruct (outcomes !! i) as [[[e|] recs]|] eqn:Hi.
  - intros [= <-]. exists i, recs. split; [left; reflexivity|exact Hi].
  - intros H. destruct (IH H) as (j & r & Hj & Hout).
    exists j, r. split; [right; exact Hj|exact Hout].
  - intros H. destruct (IH H) as (j & r & Hj & Hout).
    exists j, r. split; [right; exact Hj|exact Hout].
Qed.

Lemma group_Wait_none (outcomes : list (option error * list Recording))
    (finished : list nat) (i : nat) (err : error) (recs : list Recording) :
  group_Wait outcomes finished = None -> In i finished ->
  outcomes !! i = Some (Some err, recs) -> False.
Proof.
  induction finished as [|j finished IH]; [contradiction|]. cbn.
  intros Hw [->|Hin] Hi.
  - rewrite Hi in Hw. discriminate.
  - destruct (outcomes !! j) as [[[e|] r]|]; [discriminate| |];
      exact (IH Hw Hin Hi).
Qed.

Lemma descending_app (l1 l2 : list Recording) (r k : Recording) :
  descending (l1 ++ l2) -> In k l1 -> In r l2 -> UpdatedAt r <= UpdatedAt k.
Proof.
  unfold descending, time.After. induction l1 as [|a l1 IH]; [contradiction|].
  cbn. intros Hs [->|Hk] Hr; inversion Hs as [|? ? Hs' Hall]; subst.
  - rewrite List.Forall_forall in Hall.
    specialize (Hall r (in_or_app _ _ _ (or_intror Hr))).
    apply Z.ltb_ge in Hall. exact Hall.
  - exact (IH Hs' Hk Hr).
Qed.

(** X9: what [ListRecordings] returns.  When no goroutine has failed the
    result is in descending order of [UpdatedAt]; it holds only fetched
    recordings that pass the filters of the options; and a fetched
    recording that passes them is missing only when a positive limit is
    reached, and is then no newer than any recording returned.  Otherwise
    the result is nil with the error of one of the types, wrapped under
    the name of the type; and this is so as soon as one goroutine that has
    finished had failed. *)
Theorem ListRecordings_result
    (fetch : nat -> string -> option time.Time -> error + list Recording)
    (opts : option ActivityListOptions) (finished : list nat) :
  match ListRecordings fetch opts finished with
  | (Some recs, None) =>
    descending recs /\
    (forall r, In r recs -> In r (fetched fetch opts) /\ passes opts r = true) /\
    (forall r, In r (fetched fetch opts) -> passes opts r = true ->
       In r recs \/
       exists n, limit_of opts = Some n /\ Z.of_nat (length recs) = n /\
                 forall k, In k recs -> UpdatedAt r <= UpdatedAt k)
  | (None, Some err) =>
    exists i recordingType cause,
      In i finished /\
      typesToFetch opts !! i = Some recordingType /\
      fetch i recordingType (since_of opts) = inl cause /\
      err = wrapError ("failed to list " +:+ recordingType +:+ " recordings")
              cause
  | _ => False
  end /\
  (forall i recordingType cause,
     In i finished -> typesToFetch opts !! i = Some recordingType ->
     fetch i recordingType (since_of opts) = inl cause ->
     fst (ListRecordings fetch opts finished) = None).
Proof.
  unfold ListRecordings. fold (fetched fetch opts).
  set (outcomes := imap (fetch_type fetch (since_of opts)) (typesToFetch opts)).
  assert (Hout : forall i, outcomes !! i =
                   fetch_type fetch (since_of opts) i <$> typesToFetch opts !! i)
    by (intros i; apply list_lookup_imap).
  destruct (group_Wait outcomes finished) as [err|] eqn:Hwait.
  - split; [|reflexivity].
    destruct (group_Wait_error _ _ _ Hwait) as (i & recs & Hin & Hi).
    rewrite Hout in Hi.
    destruct (typesToFetch opts !! i) as [ty|] eqn:Hty; [|discriminate].
    cbn in Hi. unfold fetch_type in Hi.
    destruct (fetch i ty (since_of opts)) as [cause|?] eqn:Hf; [|discriminate].
    injection Hi as <- _. exists i, ty, cause. repeat split; assumption.
  - split.
    2:{ intros i ty cause Hin Hty Hf. exfalso.
        apply (group_Wait_none outcomes finished i
                 (wrapError ("failed to list " +:+ ty +:+ " recordings") cause)
                 [] Hwait Hin).
        rewrite Hout, Hty. cbn. unfold fetch_type. rewrite Hf. reflexivity. }
    pose proof (sortRecordings_perm (fetched fetch opts)) as Hperm.
    pose proof (sortRecordings_descending (fetched fetch opts)) as Hdesc.
    destruct opts as [o|]; cbn [passes limit_of].
    + split; [|split].
      * eapply sorted_sublist; [apply filterRecordings_sublist|exact Hdesc].
      * intros r Hr. apply filterRecordings_keeps in Hr as [Hr Hk].
        split; [|exact Hk]. eapply Permutation_in; [exact Hperm|exact Hr].
      * intros r Hr Hk.
        assert (Hs : In r (List.filter (keeps o)
                             (sortRecordings (fetched fetch (Some o))))).
        { apply List.filter_In. split; [|exact Hk].
          eapply Permutation_in; [symmetry; exact Hperm|exact Hr]. }
        rewrite filterRecordings_spec.
        destruct (Z.ltb_spec 0 (Limit o)) as [Hpos|Hnone]; [|left; exact Hs].
        set (kept := List.filter (keeps o)
                       (sortRecordings (fetched fetch (Some o)))) in *.
        rewrite <- (firstn_skipn (Z.to_nat (Limit o)) kept) in Hs.
        apply in_app_or in Hs as [Hs|Hs]; [left; exact Hs|right].
        exists (Limit o). split; [reflexivity|]. split.
        -- rewrite length_firstn.
           assert (Hlen : (Z.to_nat (Limit o) < length kept)%nat).
           { destruct (Nat.lt_ge_cases (Z.to_nat (Limit o)) (length kept))
               as [Hlt|Hge]; [exact Hlt|].
             rewrite skipn_all2 in Hs by exact Hge. contradiction. }
           lia.
        -- intros k Hk'. eapply descending_app; [|exact Hk'|exact Hs].
           rewrite firstn_skipn. unfold kept.
           eapply sorted_sublist; [apply filter_sublist|exact Hdesc].
    + split; [exact Hdesc|]. split.
      * intros r Hr. split; [|reflexivity].
        eapply Permutation_in; [exact Hperm|exact Hr].
      * intros r Hr _. left.
        eapply Permutation_in; [symmetry; exact Hperm|exact Hr].
Qed.

(** ** The paginated fetcher: requests, tokens and pauses *)

Section GetAllCost.
Context {T : Type}.
Variable decode : string -> error + list T.
Variable url_Parse : string -> option ParsedURL.
Variable NewRequestWithContext : string -> string -> option error.

(** The account of a run of the loop: every request is of a path that is
    not empty and follows a token of its own; the run pauses between two
    turns only; a positive [maxPages] bounds the pages. *)
Lemma GetAll_loop_cost (pr : PaginatedRequest T) (sliceType : rtype)
    (answers : list (error + Response)) (path : string) (pageCount : nat)
    (w w' : World T) (out : Outcome) :
  GetAll_loop decode url_Parse NewRequestWithContext pr sliceType
    answers path pageCount w = (out, w') ->
  exists c,
    cost_of w w' c /\
    (length (made c) <= length answers)%nat /\
    Forall (fun p => p <> EmptyString) (made c) /\
    tokensTaken c = match out with
                    | NoAnswer _ => S (length (made c))
                    | _ => length (made c)
                    end /\
    (length (made c) - 1 <= pauses c <= length (made c))%nat /\
    (0 < maxPages pr ->
     Z.of_nat (length (made c)) <=
       Z.max 1 (maxPages pr - Z.of_nat pageCount)).
Proof.
  assert (Hnone : forall (v : World T) (o : Outcome)
                         (l : list (error + Response)) (p : nat),
             match o with NoAnswer _ => False | _ => True end ->
             exists c,
               cost_of v v c /\
               (length (made c) <= length l)%nat /\
               Forall (fun p => p <> EmptyString) (made c) /\
               tokensTaken c = match o with
                               | NoAnswer _ => S (length (made c))
                               | _ => length (made c)
                               end /\
               (length (made c) - 1 <= pauses c <= length (made c))%nat /\
               (0 < maxPages pr ->
                Z.of_nat (length (made c)) <=
                  Z.max 1 (maxPages pr - Z.of_nat p))).
  { intros v o l p Ho. exists {| made := []; tokensTaken := 0; pauses := 0 |}.
    unfold cost_of. cbn. rewrite app_nil_r, Nat.add_0_r.
    repeat split; try lia; try constructor.
    destruct o; try reflexivity. contradiction. }
  revert path pageCount w.
  induction answers as [|answer answers IH]; intros path pageCount w Hrun.
  - destruct path as [|ch path]; cbn [GetAll_loop] in Hrun.
    + injection Hrun as <- <-. exact (Hnone w (Returns None) _ _ I).
    + destruct (default Background (ctx pr) pageCount) as [e|].
      * injection Hrun as <- <-. exact (Hnone w (Returns (Some e)) _ _ I).
      * injection Hrun as <- <-.
        exists {| made := []; tokensTaken := 1; pauses := 0 |}.
        unfold cost_of. cbn. rewrite app_nil_r.
        repeat split; try lia; try constructor.
  - destruct path as [|ch path].
    { cbn [GetAll_loop] in Hrun. injection Hrun as <- <-.
      exact (Hnone w (Returns None) _ _ I). }
    destruct (default Background (ctx pr) pageCount) as [e|] eqn:Hctx.
    { cbn [GetAll_loop] in Hrun. rewrite Hctx in Hrun.
      injection Hrun as <- <-. exact (Hnone w (Returns (Some e)) _ _ I). }
    rewrite GetAll_loop_turn in Hrun by exact Hctx. cbv zeta in Hrun.
    assert (Hone : forall o v,
              (o, mkWorld v (S (waits w)) (requests w ++ [String ch path])
                    (slept w)) = (out, w') ->
              match o with NoAnswer _ => False | _ => True end ->
              exists c,
                cost_of w w' c /\
                (length (made c) <= length (answer :: answers))%nat /\
                Forall (fun p => p <> EmptyString) (made c) /\
                tokensTaken c = match out with
                                | NoAnswer _ => S (length (made c))
                                | _ => length (made c)
                                end /\
                (length (made c) - 1 <= pauses c <= length (made c))%nat /\
                (0 < maxPages pr ->
                 Z.of_nat (length (made c)) <=
                   Z.max 1 (maxPages pr - Z.of_nat pageCount))).
    { intros o v [= <- <-] Ho.
      exists {| made := [String ch path]; tokensTaken := 1; pauses := 0 |}.
      unfold cost_of. cbn. repeat split; try lia.
      - constructor; [discriminate|constructor].
      - destruct o; try reflexivity. contradiction. }
    destruct (fetch_page decode NewRequestWithContext pr (String ch path) answer)
      as [e|[resp pageSlice]] eqn:Hpage; [exact (Hone _ _ Hrun I)|].
    destruct (Nat.eqb (length pageSlice) 0); [exact (Hone _ _ Hrun I)|].
    destruct ((0 <? maxPages pr) && (maxPages pr <=? Z.of_nat (S pageCount)))
      eqn:Hmax; [exact (Hone _ _ Hrun I)|].
    destruct (match pageCheck pr with
              | Some check => negb (check (mkPage sliceType pageSlice))
              | None => false
              end); [exact (Hone _ _ Hrun I)|].
    destruct (next_path url_Parse (Header_Link resp)) as [[|c' next']|];
      [exact (Hone _ _ Hrun I)| |exact (Hone _ _ Hrun I)].
    apply IH in Hrun as (c & (Hreq & Hwaits & Hslept) & Hlen & Hne & Htok
                         & Hpause & Hbound).
    cbn [requests waits slept] in Hreq, Hwaits, Hslept.
    exists {| made := String ch path :: made c;
              tokensTaken := S (tokensTaken c);
              pauses := S (pauses c) |}.
    unfold cost_of. cbn [made tokensTaken pauses length].
    split; [|split; [|split; [|split; [|split]]]].
    + split; [rewrite Hreq, <- app_assoc; reflexivity|].
      split; [lia|]. rewrite Hslept. unfold pagePause. lia.
    + lia.
    + constructor; [discriminate|exact Hne].
    + rewrite Htok. destruct out; reflexivity.
    + destruct (made c); cbn [length] in *; lia.
    + intros Hpos. specialize (Hbound Hpos).
      apply andb_false_iff in Hmax as [Hmax|Hmax];
        [apply Z.ltb_ge in Hmax; lia|apply Z.leb_gt in Hmax; lia].
Qed.

Lemma GetAll_cost_of_loop (pr : PaginatedRequest T)
    (answers : list (error + Response)) (path : string) (result : ResultArg)
    (w w' : World T) (out : Outcome) :
  GetAll decode url_Parse NewRequestWithContext pr answers path result w
  = (out, w') ->
  (out <> Panics /\ exists sliceType,
     GetAll_loop decode url_Parse NewRequestWithContext pr sliceType
       answers path 0 w = (out, w')) \/
  w' = w /\ (out = Panics \/ out = Returns (Some errNotSlicePointer)).
Proof.
  unfold GetAll. destruct result as [|t nilPointer].
  { intros [= <- <-]. right. split; [reflexivity|left; reflexivity]. }
  destruct (negb (Kind_eqb (rtype_Kind t) KPtr)
            || negb match rtype_Elem t with
                    | Some e => Kind_eqb (rtype_Kind e) KSlice
                    | None => false
                    end).
  { intros [= <- <-]. right. split; [reflexivity|right; reflexivity]. }
  destruct (rtype_Elem t) as [sliceType|].
  2:{ intros [= <- <-]. right. split; [reflexivity|left; reflexivity]. }
  destruct nilPointer.
  { intros [= <- <-]. right. split; [reflexivity|left; reflexivity]. }
  intros Hrun. left. split; [|exists sliceType; exact Hrun].
  intros ->. clear -Hrun. revert path w Hrun. generalize 0%nat.
  induction answers as [|answer answers IH]; intros n path w Hrun.
  - destruct path; cbn [GetAll_loop] in Hrun; [discriminate|].
    destruct (default Background (ctx pr) n); discriminate.
  - destruct path as [|ch path]; [discriminate|].
    destruct (default Background (ctx pr) n) eqn:Hctx.
    { cbn [GetAll_loop] in Hrun. rewrite Hctx in Hrun. discriminate. }
    rewrite GetAll_loop_turn in Hrun by exact Hctx. cbv zeta in Hrun.
    destruct (fetch_page decode NewRequestWithContext pr (String ch path) answer)
      as [e|[resp pageSlice]]; [discriminate|].
    destruct (Nat.eqb (length pageSlice) 0); [discriminate|].
    destruct ((0 <? maxPages pr) && (maxPages pr <=? Z.of_nat (S n)));
      [discriminate|].
    destruct (match pageCheck pr with
              | Some check => negb (check (mkPage sliceType pageSlice))
              | None => false
              end); [discriminate|].
    destruct (next_path url_Parse (Header_Link resp)) as [[|c' next']|];
      [discriminate| |discriminate].
    exact (IH _ _ _ Hrun).
Qed.

(** X10: what a call of [GetAll] costs.  Whatever the call ends in, each
    of its requests is of a path that is not empty and has taken a token
    of its own from the limiter before it; no token is taken without a
    request, but for the one a transport that never answers leaves
    hanging; and the call pauses only between two turns of its loop, so
    at most once for each request. *)
Theorem GetAll_cost (pr : PaginatedRequest T)
    (answers : list (error + Response)) (path : string) (result : ResultArg)
    (w w' : World T) (out : Outcome) :
  GetAll decode url_Parse NewRequestWithContext pr answers path result w
  = (out, w') ->
  exists c,
    cost_of w w' c /\
    (length (made c) <= length answers)%nat /\
    Forall (fun p => p <> EmptyString) (made c) /\
    tokensTaken c = match out with
                    | NoAnswer _ => S (length (made c))
                    | _ => length (made c)
                    end /\
    (length (made c) - 1 <= pauses c <= length (made c))%nat.
Proof.
  intros Hrun.
  destruct (GetAll_cost_of_loop _ _ _ _ _ _ _ Hrun)
    as [(_ & sliceType & Hloop)|[-> Hout]].
  - destruct (GetAll_loop_cost _ _ _ _ _ _ _ _ Hloop)
      as (c & Hc & Hlen & Hne & Htok & Hp & _).
    exists c. split; [exact Hc|]. split; [exact Hlen|].
    split; [exact Hne|]. split; [exact Htok|exact Hp].
  - exists {| made := []; tokensTaken := 0; pauses := 0 |}.
    unfold cost_of. cbn. rewrite app_nil_r, Nat.add_0_r.
    repeat split; try lia; try constructor.
    destruct Hout as [->| ->]; reflexivity.
Qed.

(** X11: [WithMaxPages] bounds the requests.  With a positive [maxPages]
    a call of [GetAll] makes at most that many requests, whatever the
    Link headers of the answers say. *)
Theorem GetAll_max_pages (pr : PaginatedRequest T)
    (answers : list (error + Response)) (path : string) (result : ResultArg)
    (w w' : World T) (out : Outcome) :
  0 < maxPages pr ->
  GetAll decode url_Parse NewRequestWithContext pr answers path result w
  = (out, w') ->
  exists paths,
    requests w' = requests w ++ paths /\
    Z.of_nat (length paths) <= maxPages pr.
Proof.
  intros Hpos Hrun.
  destruct (GetAll_cost_of_loop _ _ _ _ _ _ _ Hrun)
    as [(_ & sliceType & Hloop)|[-> Hout]].
  - destruct (GetAll_loop_cost _ _ _ _ _ _ _ _ Hloop)
      as (c & (Hreq & _) & _ & _ & _ & _ & Hbound).
    exists (made c). split; [exact Hreq|]. specialize (Hbound Hpos). lia.
  - exists []. rewrite app_nil_r. split; [reflexivity|]. cbn. lia.
Qed.

End GetAllCost.

Lemma GetAll_cost_witness :
  exists c,
    cost_of emptyWorld
      (mkWorld [1; 2; 3] 2 ["/x"; "/x?page=2"] (100 * time.Millisecond)) c /\
    (length (made c) <= 2)%nat /\
    Forall (fun p => p <> EmptyString) (made c) /\
    tokensTaken c = length (made c) /\
    (length (made c) - 1 <= pauses c <= length (made c))%nat.
Proof.
  apply (GetAll_cost sampleDecode sampleParse anyRequest
           (NewPaginatedRequest sampleClient)
           [inr (response 200 "[1,2]" next_link_header);
            inr (response 200 "[3]" EmptyString)]
           "/x" (pointer_to_slice_of tInt) emptyWorld _ (Returns None)).
  vm_compute. reflexivity.
Defined.

Lemma GetAll_max_pages_witness :
  exists paths,
    requests (mkWorld [1; 2] 1 ["/x"] 0) = requests emptyWorld ++ paths /\
    Z.of_nat (length paths) <= 1.
Proof.
  apply (GetAll_max_pages sampleDecode sampleParse anyRequest
           (WithMaxPages 1 (NewPaginatedRequest sampleClient))
           [inr (response 200 "[1,2]" next_link_header);
            inr (response 200 "[3]" EmptyString)]
           "/x" (pointer_to_slice_of tInt) emptyWorld _ (Returns None)).
  - reflexivity.
  - vm_compute. reflexivity.
Defined.

(** ** Early termination of the listing of one type *)

Lemma sincePageCheck_stops (cutoff : time.Time) (recs : list Recording) :
  recs <> [] ->
  sincePageCheck cutoff (mkPage (TSlice tRecording) recs) = false ->
  exists last_, In last_ recs /\ time.Before (UpdatedAt last_) cutoff = true.
Proof.
  intros Hne. unfold sincePageCheck. cbn [page_type page_items].
  replace (rtype_eqb (TSlice tRecording) (TSlice tRecording)) with true
    by reflexivity.
  destruct recs as [|r recs]; [contradiction|].
  cbn [negb orb length Nat.eqb].
  destruct (last (r :: recs)) as [last_|] eqn:Hlast; [|apply last_None in Hlast;
    discriminate].
  intros Hstop. apply negb_false_iff in Hstop. exists last_.
  split; [|exact Hstop].
  apply list_elem_of_In. apply last_Some in Hlast as [l' ->].
  apply elem_of_app. right. apply list_elem_of_here.
Qed.

Section EarlyTermination.
Variable decode : string -> error + list Recording.
Variable url_Parse : string -> option ParsedURL.
Variable NewRequestWithContext : string -> string -> option error.

Lemma GetAll_loop_early_termination (pr : PaginatedRequest Recording)
    (cutoff : time.Time) (answers : list (error + Response)) (path : string)
    (pageCount : nat) (w w0 : World Recording) :
  pageCheck pr = None ->
  GetAll_loop decode url_Parse NewRequestWithContext pr (TSlice tRecording)
    answers path pageCount w = (Returns None, w0) ->
  descending (slice w0) ->
  exists w1 older,
    GetAll_loop decode url_Parse NewRequestWithContext
      (WithPageCheck (sincePageCheck cutoff) pr) (TSlice tRecording)
      answers path pageCount w = (Returns None, w1) /\
    slice w0 = slice w1 ++ older /\
    Forall (fun r => time.Before (UpdatedAt r) cutoff = true) older.
Proof.
  intros Hnocheck.
  assert (Hsame : forall v : World Recording,
            exists older,
              slice v = slice v ++ older /\
              Forall (fun r => time.Before (UpdatedAt r) cutoff = true) older).
  { intros v. exists []. rewrite app_nil_r. split; [reflexivity|constructor]. }
  revert path pageCount w.
  induction answers as [|answer answers IH]; intros path pageCount w Hrun Hdesc.
  - destruct path as [|ch path]; cbn [GetAll_loop] in *.
    + injection Hrun as <-. exists w. apply (ex_intro _ []).
      rewrite app_nil_r. repeat split. constructor.
    + cbn [WithPageCheck ctx].
      destruct (default Background (ctx pr) pageCount); discriminate.
  - destruct path as [|ch path].
    { cbn [GetAll_loop] in *. injection Hrun as <-. exists w.
      apply (ex_intro _ []). rewrite app_nil_r. repeat split. constructor. }
    destruct (default Background (ctx pr) pageCount) as [e|] eqn:Hctx.
    { cbn [GetAll_loop] in Hrun. rewrite Hctx in Hrun. discriminate. }
    rewrite GetAll_loop_turn in Hrun by exact Hctx.
    rewrite GetAll_loop_turn by exact Hctx.
    cbv zeta in *. cbn [WithPageCheck maxPages pageCheck] in *.
    change (fetch_page decode NewRequestWithContext
              (WithPageCheck (sincePageCheck cutoff) pr))
      with (fetch_page decode NewRequestWithContext pr).
    rewrite Hnocheck in Hrun.
    destruct (fetch_page decode NewRequestWithContext pr (String ch path) answer)
      as [e|[resp pageSlice]] eqn:Hpage; [discriminate|].
    destruct (Nat.eqb (length pageSlice) 0) eqn:Hempty.
    { injection Hrun as <-. eexists. apply (ex_intro _ []).
      split; [reflexivity|]. rewrite app_nil_r. split; [reflexivity|constructor]. }
    destruct ((0 <? maxPages pr) && (maxPages pr <=? Z.of_nat (S pageCount))).
    { injection Hrun as <-. eexists. apply (ex_intro _ []).
      split; [reflexivity|]. rewrite app_nil_r. split; [reflexivity|constructor]. }
    destruct (sincePageCheck cutoff (mkPage (TSlice tRecording) pageSlice))
      eqn:Hcheck; cbn [negb].
    + destruct (next_path url_Parse (Header_Link resp)) as [[|c' next']|];
        [|exact (IH _ _ _ Hrun Hdesc)|discriminate].
      injection Hrun as <-. eexists. apply (ex_intro _ []).
      split; [reflexivity|]. rewrite app_nil_r. split; [reflexivity|constructor].
    + assert (Hne : pageSlice <> [])
        by (intros ->; discriminate).
      destruct (sincePageCheck_stops cutoff pageSlice Hne Hcheck)
        as (last_ & Hin & Hbefore).
      assert (Hgrow : exists older, slice w0 = (slice w ++ pageSlice) ++ older).
      { destruct (next_path url_Parse (Header_Link resp)) as [[|c' next']|];
          [injection Hrun as <-; exists []; cbn; rewrite app_nil_r; reflexivity
          | |discriminate].
        apply GetAll_loop_slice_grows in Hrun as (pages & _ & Hslice).
        exists (concat pages). exact Hslice. }
      destruct Hgrow as (older & Hslice).
      eexists. exists older. split; [reflexivity|]. cbn [slice].
      split; [exact Hslice|].
      apply List.Forall_forall. intros r Hr.
      rewrite Hslice in Hdesc.
      pose proof (descending_app _ _ r last_ Hdesc
                    (in_or_app _ _ _ (or_intror Hin)) Hr) as Hle.
      unfold time.Before in *. apply Z.ltb_lt. apply Z.ltb_lt in Hbefore. lia.
Qed.

(** X12: stopping early loses nothing.  If the listing of a type without
    cutoff succeeds and the recordings come newest first, as the query of
    [listRecordingsByType] asks, then on the same answers the listing with
    a cutoff succeeds too, returns a prefix of that list, and every
    recording it leaves out was last updated before the cutoff. *)
Theorem listRecordingsByType_early_termination_sound
    (c : Client) (context : Context) (path : string) (cutoff : time.Time)
    (answers : list (error + Response)) (all : list Recording) :
  listRecordingsByType decode url_Parse NewRequestWithContext c context path
    None answers = (Returns None, Some all) ->
  descending all ->
  exists recs older,
    listRecordingsByType decode url_Parse NewRequestWithContext c context path
      (Some cutoff) answers = (Returns None, Some recs) /\
    all = recs ++ older /\
    Forall (fun r => time.Before (UpdatedAt r) cutoff = true) older.
Proof.
  unfold listRecordingsByType. intros Hall Hdesc.
  set (pr := WithContext context (NewPaginatedRequest c)) in *.
  change (GetAll decode url_Parse NewRequestWithContext pr answers path
            (pointer_to_slice_of tRecording) (mkWorld [] 0 [] 0))
    with (GetAll_loop decode url_Parse NewRequestWithContext pr
            (TSlice tRecording) answers path 0 (mkWorld [] 0 [] 0)) in Hall.
  change (GetAll decode url_Parse NewRequestWithContext
            (WithPageCheck (sincePageCheck cutoff) pr) answers path
            (pointer_to_slice_of tRecording) (mkWorld [] 0 [] 0))
    with (GetAll_loop decode url_Parse NewRequestWithContext
            (WithPageCheck (sincePageCheck cutoff) pr)
            (TSlice tRecording) answers path 0 (mkWorld [] 0 [] 0)).
  destruct (GetAll_loop decode url_Parse NewRequestWithContext pr
              (TSlice tRecording) answers path 0 (mkWorld [] 0 [] 0))
    as [out w0] eqn:Hrun.
  destruct out as [[e|]| | |]; try discriminate.
  injection Hall as <-.
  destruct (GetAll_loop_early_termination pr cutoff answers path 0 _ _
              eq_refl Hrun Hdesc) as (w1 & older & Hrun1 & Hslice & Hold).
  rewrite Hrun1. exists (slice w1), older. repeat split; assumption.
Qed.

End EarlyTermination.

Lemma listRecordingsByType_early_termination_sound_witness :
  exists recs older,
    listRecordingsByType sampleDecodeRecordings sampleParse anyRequest
      sampleClient Background "/projects/recordings.json?type=Todo"
      (Some (100 * time.Hour - 120 * time.Minute))
      [inr (response 200 "page1" next_link_header);
       inr (response 200 "page2" next_link_header);
       inr (response 200 "page3" EmptyString)]
    = (Returns None, Some recs) /\
    map ID (recs ++ older) = [1; 2; 3; 4; 5] /\
    Forall (fun r => time.Before (UpdatedAt r)
                       (100 * time.Hour - 120 * time.Minute) = true) older.
Proof.
  assert (Hfull :
    listRecordingsByType sampleDecodeRecordings sampleParse anyRequest
      sampleClient Background "/projects/recordings.json?type=Todo" None
      [inr (response 200 "page1" next_link_header);
       inr (response 200 "page2" next_link_header);
       inr (response 200 "page3" EmptyString)]
    = (Returns None,
       Some [recording 1 (100 * time.Hour - 60 * time.Minute) 0;
             recording 2 (100 * time.Hour - 90 * time.Minute) 0;
             recording 3 (100 * time.Hour - 180 * time.Minute) 0;
             recording 4 (100 * time.Hour - 240 * time.Minute) 0;
             recording 5 (100 * time.Hour - 300 * time.Minute) 0]))
    by (vm_compute; reflexivity).
  destruct (listRecordingsByType_early_termination_sound
              sampleDecodeRecordings sampleParse anyRequest
              sampleClient Background "/projects/recordings.json?type=Todo"
              (100 * time.Hour - 120 * time.Minute) _ _ Hfull)
    as (recs & older & Hrun & Hall & Hold).
  - unfold descending. repeat (constructor; try reflexivity).
  - exists recs, older. split; [exact Hrun|]. split; [|exact Hold].
    rewrite <- Hall. reflexivity.
Defined.

(** ** The Link header: entries and round trip *)

Lemma until_gt_no_close_bracket (s url rest : string) :
  until_gt s = Some (url, rest) -> no_close_bracket url = true.
Proof.
  revert url rest. induction s as [|c s IH]; intros url rest; [discriminate|].
  cbn. destruct (Ascii.eqb c ">") eqn:Hc.
  - intros [= <- <-]. reflexivity.
  - destruct (until_gt s) as [[u r]|]; [|discriminate].
    intros [= <- <-]. unfold no_close_bracket. cbn. rewrite Hc. cbn.
    exact (IH _ _ eq_refl).
Qed.

Lemma entries_loop_urls (fuel : nat) (s : string) (entries r : list LinkEntry) :
  entries_loop fuel s entries = Some r ->
  Forall (fun e => LinkEntry_URL e <> EmptyString /\
                   no_close_bracket (LinkEntry_URL e) = true) entries ->
  Forall (fun e => LinkEntry_URL e <> EmptyString /\
                   no_close_bracket (LinkEntry_URL e) = true) r.
Proof.
  revert s entries. induction fuel as [|fuel IH]; intros s entries;
    [discriminate|].
  rewrite entries_loop_turn.
  destruct (skip_blank s) as [|c s1]; [intros [= <-] H; exact H|].
  destruct (Ascii.eqb c "<"); [|apply IH].
  destruct (params_loop fuel (snd (read_url s1)) ∅) as [[params s3]|];
    [|discriminate].
  destruct (fst (read_url s1)) as [|u0 u] eqn:Hurl; [apply IH|].
  intros Hrun Hall. apply (IH _ _ Hrun).
  apply Forall_app. split; [exact Hall|].
  constructor; [|constructor]. cbn. split; [discriminate|].
  unfold read_url in Hurl.
  destruct (until_gt s1) as [[u' r']|] eqn:Hgt; [|discriminate].
  cbn in Hurl. subst u'. exact (until_gt_no_close_bracket _ _ _ Hgt).
Qed.

(** X13: what the parser reports.  Every entry that
    [parseLinkHeaderEntries] returns has a URL that is not empty and holds
    no closing angle bracket; so the empty string that [parseNextLinkURL]
    returns for no next page is never the URL of an entry: it is returned
    exactly when no entry has the relation next. *)
Theorem parseLinkHeaderEntries_urls (linkHeader : string)
    (entries : list LinkEntry) :
  parseLinkHeaderEntries linkHeader = Some entries ->
  Forall (fun e => LinkEntry_URL e <> EmptyString /\
                   no_close_bracket (LinkEntry_URL e) = true) entries /\
  (parseNextLinkURL linkHeader = Some EmptyString <->
   Forall (fun e => hasRelation e "next" = false) entries).
Proof.
  intros Hparse.
  assert (Hurls : Forall (fun e => LinkEntry_URL e <> EmptyString /\
                            no_close_bracket (LinkEntry_URL e) = true) entries).
  { unfold parseLinkHeaderEntries, parseLinkHeaderEntries_fuel in Hparse.
    apply (entries_loop_urls _ _ _ _ Hparse). constructor. }
  split; [exact Hurls|].
  rewrite (parseNextLinkURL_on_entries _ _ Hparse).
  clear Hparse. induction Hurls as [|e entries [Hne _] _ IH]; cbn.
  - split; [constructor|reflexivity].
  - destruct (hasRelation e "next") eqn:Hrel.
    + split; [intros [= Hurl]; contradiction|].
      intros Hall. inversion Hall; congruence.
    + rewrite IH. split; [intros H; constructor; assumption|].
      intros Hall. inversion Hall; assumption.
Qed.

Lemma parseLinkHeaderEntries_urls_witness :
  Forall (fun e => LinkEntry_URL e <> EmptyString /\
                   no_close_bracket (LinkEntry_URL e) = true)
    [{| LinkEntry_URL := "https://api.example.com/x?page=2";
        Params := <["rel" := "prev"]> ∅ |}] /\
  (parseNextLinkURL prev_link_header = Some EmptyString <->
   Forall (fun e => hasRelation e "next" = false)
     [{| LinkEntry_URL := "https://api.example.com/x?page=2";
         Params := <["rel" := "prev"]> ∅ |}]).
Proof.
  apply (parseLinkHeaderEntries_urls prev_link_header).
  vm_compute. reflexivity.
Defined.

Lemma until_gt_app (url rest : string) :
  no_close_bracket url = true ->
  until_gt (url +:+ String ">" rest) = Some (url, rest).
Proof.
  unfold no_close_bracket.
  induction url as [|c url IH]; [reflexivity|].
  change (String c url +:+ String ">" rest)
    with (String c (url +:+ String ">" rest)).
  cbn [all_bytes until_gt].
  intros [Hc Hurl]%andb_true_iff. apply negb_true_iff in Hc. rewrite Hc.
  rewrite (IH Hurl). reflexivity.
Qed.

Lemma hasRelation_rel_next (url : string) :
  hasRelation {| LinkEntry_URL := url;
                 Params := <["rel" := "next"]> (∅ : gmap string string) |}
    "next" = true.
Proof. unfold hasRelation. cbn [Params]. vm_compute. reflexivity. Qed.

(** X14: the header of a next page read back.  From the header that
    gives a URL in angle brackets with the relation next in double quotes,
    [parseNextLinkURL] returns that URL, byte for byte, whenever the URL is
    not empty and holds no closing angle bracket. *)
Theorem parseNextLinkURL_round_trip (url : string) :
  url <> EmptyString -> no_close_bracket url = true ->
  parseNextLinkURL (next_header url) = Some url.
Proof.
  intros Hne Hurl.
  unfold parseNextLinkURL, parseNextLinkURL_fuel, parseLinkHeaderEntries_fuel,
    enough_fuel.
  set (params := "; " +:+ quoted_rel "next").
  change (next_header url) with (String "<" (url +:+ String ">" params)).
  cbv iota.
  set (n := String.length (url +:+ String ">" params)).
  change (String.length (String "<" (url +:+ String ">" params))) with (S n).
  rewrite entries_loop_turn.
  change (skip_blank (String "<" (url +:+ String ">" params)))
    with (String "<" (url +:+ String ">" params)).
  replace (Ascii.eqb "<" "<")%char with true by reflexivity. cbv iota.
  unfold read_url. rewrite (until_gt_app _ _ Hurl). cbn [fst snd].
  assert (Hparams : params_loop (S (S n)) params ∅ =
                    Some (<["rel" := "next"]> ∅, EmptyString)).
  { destruct n as [|n'] eqn:Hn.
    - destruct url; discriminate.
    - apply (params_loop_mono 3); [vm_compute; reflexivity|lia]. }
  rewrite Hparams.
  destruct url as [|c url]; [contradiction|].
  rewrite entries_loop_turn. cbn [skip_blank app].
  replace (Ascii.eqb "<" "<")%char with true by reflexivity.
  cbn [fmap option_fmap option_map first_next].
  rewrite hasRelation_rel_next. reflexivity.
Qed.

Lemma parseNextLinkURL_round_trip_witness :
  parseNextLinkURL
    (next_header
       "https://3.basecampapi.com/999999999/buckets/2085958496/messages.json?page=4")
  = Some
      "https://3.basecampapi.com/999999999/buckets/2085958496/messages.json?page=4".
Proof.
  apply parseNextLinkURL_round_trip; [discriminate|reflexivity].
Defined.

(** ** From the URL of the next page to its path *)

Lemma string_app_nil_r (s : string) : s +:+ EmptyString = s.
Proof.
  induction s as [|c s IH]; [reflexivity|].
  change (String c s +:+ EmptyString) with (String c (s +:+ EmptyString)).
  rewrite IH. reflexivity.
Qed.

Lemma string_app_assoc (s t u : string) : (s +:+ t) +:+ u = s +:+ (t +:+ u).
Proof.
  induction s as [|c s IH]; [reflexivity|].
  change ((String c s +:+ t) +:+ u) with (String c ((s +:+ t) +:+ u)).
  rewrite IH. reflexivity.
Qed.

Lemma rev_onto_app (s acc : string) :
  gostrings.rev_onto s acc = gostrings.reverse s +:+ acc.
Proof.
  unfold gostrings.reverse. revert acc.
  induction s as [|c s IH]; intros acc; [reflexivity|].
  cbn [gostrings.rev_onto]. rewrite IH, (IH (String c EmptyString)).
  rewrite string_app_assoc. reflexivity.
Qed.

Lemma reverse_cons (c : ascii) (s : string) :
  gostrings.reverse (String c s) = gostrings.reverse s +:+ String c EmptyString.
Proof. unfold gostrings.reverse at 1. cbn. apply rev_onto_app. Qed.

Lemma Split_byte_nonempty (s : string) (sep : ascii) (cur : string) :
  gostrings.Split_byte s sep cur <> [].
Proof.
  revert cur. induction s as [|c s IH]; intros cur; cbn; [discriminate|].
  destruct (Ascii.eqb c sep); [discriminate|apply IH].
Qed.

Lemma Join_cons (e : string) (rest : list string) (sep : string) :
  rest <> [] ->
  gostrings.Join (e :: rest) sep = e +:+ sep +:+ gostrings.Join rest sep.
Proof. destruct rest; [contradiction|reflexivity]. Qed.

(** Splitting at a byte and joining with it gives the string back. *)
Lemma Join_Split_byte (s : string) (sep : ascii) (cur : string) :
  gostrings.Join (gostrings.Split_byte s sep cur) (str sep) =
  gostrings.reverse cur +:+ s.
Proof.
  revert cur. induction s as [|c s IH]; intros cur.
  - cbn. rewrite string_app_nil_r. reflexivity.
  - cbn [gostrings.Split_byte]. destruct (Ascii.eqb_spec c sep) as [->|Hc].
    + rewrite Join_cons by apply Split_byte_nonempty. rewrite IH. reflexivity.
    + rewrite IH, reverse_cons, string_app_assoc. reflexivity.
Qed.

(** The first part of a path whose first segment holds no slash. *)
Lemma Split_byte_first (first rest : string) (sep : ascii) (cur : string) :
  all_bytes (fun c => negb (Ascii.eqb c sep)) first = true ->
  gostrings.Split_byte (first +:+ String sep rest) sep cur =
  (gostrings.reverse cur +:+ first) :: gostrings.Split_byte rest sep EmptyString.
Proof.
  revert cur. induction first as [|c first IH]; intros cur.
  - intros _. change (EmptyString +:+ String sep rest) with (String sep rest).
    cbn [gostrings.Split_byte]. rewrite Ascii.eqb_refl.
    rewrite string_app_nil_r. reflexivity.
  - cbn [all_bytes]. intros [Hc Hfirst]%andb_true_iff.
    apply negb_true_iff in Hc.
    change (String c first +:+ String sep rest)
      with (String c (first +:+ String sep rest)).
    cbn [gostrings.Split_byte]. rewrite Hc, (IH _ Hfirst), reverse_cons.
    rewrite string_app_assoc. reflexivity.
Qed.

Lemma digits_hold_no_slash (s : string) :
  all_bytes is_digit s = true ->
  all_bytes (fun c => negb (Ascii.eqb c "/")) s = true.
Proof.
  induction s as [|c s IH]; [reflexivity|]. cbn [all_bytes].
  intros [Hc Hs]%andb_true_iff. rewrite (IH Hs), andb_true_r.
  destruct (Ascii.eqb_spec c "/") as [->|]; [discriminate Hc|reflexivity].
Qed.

(** X15: the account segment is dropped, and only that.  For the
    absolute URL of a Basecamp API host whose path starts with a segment of
    digits followed by more, [extractPathFromURL] returns the rest of the
    path after that segment, byte for byte, with the query of the URL. *)
Theorem extractPathFromURL_strips_account
    (url_Parse : string -> option ParsedURL)
    (absoluteURL account rest : string) (parsedURL : ParsedURL) :
  gostrings.HasPrefix absoluteURL "/" = false ->
  url_Parse absoluteURL = Some parsedURL ->
  Scheme parsedURL <> EmptyString ->
  gostrings.Contains (Host parsedURL) "basecampapi.com" = true ->
  Path parsedURL = "/" +:+ account +:+ "/" +:+ rest ->
  account <> EmptyString -> all_bytes is_digit account = true ->
  extractPathFromURL url_Parse absoluteURL =
  with_query ("/" +:+ rest) (RawQuery parsedURL).
Proof.
  intros Hrel Hparse Hscheme Hhost Hpath Hne Hdigits.
  unfold extractPathFromURL. rewrite Hrel, Hparse.
  apply String.eqb_neq in Hscheme. rewrite Hscheme. cbn [andb].
  assert (Hnonempty : String.eqb (Host parsedURL) EmptyString = false).
  { destruct (Host parsedURL); [discriminate Hhost|reflexivity]. }
  rewrite Hnonempty, Hhost. cbn [negb andb].
  rewrite Hpath.
  assert (Htrim : gostrings.TrimPrefix ("/" +:+ account +:+ "/" +:+ rest) "/"
                  = account +:+ String "/" rest).
  { unfold gostrings.TrimPrefix.
    change ("/" +:+ account +:+ "/" +:+ rest)
      with (String "/" (account +:+ String "/" rest)).
    cbn [gostrings.HasPrefix]. rewrite HasPrefix_empty. reflexivity. }
  rewrite Htrim.
  unfold gostrings.Split.
  rewrite (Split_byte_first account rest "/" EmptyString
             (digits_hold_no_slash _ Hdigits)).
  change (gostrings.reverse EmptyString +:+ account) with account.
  cbn [length hd tl]. rewrite Hdigits.
  destruct (gostrings.Split_byte rest "/" EmptyString) as [|p ps] eqn:Hsplit;
    [exfalso; exact (Split_byte_nonempty _ _ _ Hsplit)|].
  cbn [length Nat.leb].
  apply String.eqb_neq in Hne. rewrite Hne. cbn [negb andb].
  rewrite <- Hsplit.
  change "/"%string with (str "/") at 2.
  rewrite Join_Split_byte. reflexivity.
Qed.

Lemma extractPathFromURL_strips_account_witness :
  extractPathFromURL
    (fun _ => Some {| Scheme := "https"; Host := "3.basecampapi.com";
                      Path := "/999999999/buckets/2085958496/messages.json";
                      RawQuery := "page=4" |})
    "https://3.basecampapi.com/999999999/buckets/2085958496/messages.json?page=4"
  = with_query ("/" +:+ "buckets/2085958496/messages.json") "page=4".
Proof.
  apply (extractPathFromURL_strips_account _ _ "999999999"
           "buckets/2085958496/messages.json"
           {| Scheme := "https"; Host := "3.basecampapi.com";
              Path := "/999999999/buckets/2085958496/messages.json";
              RawQuery := "page=4" |});
    try reflexivity; discriminate.
Defined.

(** ** The converter: plain text there and back *)

Lemma match_here_needs (c : ascii) (re : regexp.Regexp) (ngroups : nat)
    (s : string) :
  needs c re -> without_byte c s = true ->
  regexp.match_here re ngroups s = None.
Proof.
  unfold needs, without_byte. intros Hneeds. revert s.
  induction Hneeds as [p re [Hrep Hcls]|p re Hneeds IH]; intros s Hs.
  - destruct p as [cl r g]. cbn in Hrep, Hcls. subst r cl.
    destruct s as [|a s]; [reflexivity|]. rewrite match_here_one.
    cbn [all_bytes] in Hs. apply andb_prop in Hs as [Ha _].
    apply negb_true_iff in Ha. rewrite Ascii.eqb_sym, Ha. reflexivity.
  - destruct p as [cl [| |] g].
    + destruct s as [|a s]; [reflexivity|]. rewrite match_here_one.
      cbn [all_bytes] in Hs. apply andb_prop in Hs as [_ Hs].
      rewrite (IH _ Hs). destruct (cl a); reflexivity.
    + cbn [regexp.match_here regexp.rep regexp.cls regexp.group].
      rewrite (IH _ Hs). destruct s as [|a s]; [reflexivity|].
      cbn [all_bytes] in Hs. apply andb_prop in Hs as [_ Hs'].
      rewrite (IH _ Hs'). destruct (cl a); reflexivity.
    + induction s as [|a s IHs]; rewrite match_here_star.
      * apply IH. reflexivity.
      * rewrite (IH _ Hs). cbn [all_bytes] in Hs.
        apply andb_prop in Hs as [_ Hs']. rewrite (IHs Hs').
        destruct (cl a); reflexivity.
Qed.

Lemma ReplaceAllString_needs (c : ascii) (re : regexp.Regexp) (s repl : string) :
  needs c re -> without_byte c s = true ->
  regexp.ReplaceAllString re s repl = s.
Proof.
  intros Hneeds. unfold regexp.ReplaceAllString.
  induction s as [|a s IH]; intros Hs; [reflexivity|].
  cbn [regexp.replace_all_from]. rewrite (match_here_needs c) by assumption.
  unfold without_byte in *. cbn [all_bytes] in Hs.
  apply andb_prop in Hs as [_ Hs]. rewrite (IH Hs). reflexivity.
Qed.

Lemma MatchString_needs (c : ascii) (re : regexp.Regexp) (s : string) :
  needs c re -> without_byte c s = true ->
  richtext.MatchString re s = false.
Proof.
  intros Hneeds. induction s as [|a s IH]; intros Hs;
    cbn [richtext.MatchString]; rewrite (match_here_needs c) by assumption.
  - reflexivity.
  - unfold without_byte in *. cbn [all_bytes] in Hs.
    apply andb_prop in Hs as [_ Hs]. exact (IH Hs).
Qed.

Lemma Contains_without (c : ascii) (old s : string) :
  without_byte c s = true -> gostrings.Contains s (String c old) = false.
Proof.
  unfold without_byte. induction s as [|a s IH]; intros Hs; [reflexivity|].
  cbn [all_bytes] in Hs. apply andb_prop in Hs as [Ha Hs].
  apply negb_true_iff in Ha.
  cbn [gostrings.Contains gostrings.HasPrefix]. rewrite Ha, (IH Hs). reflexivity.
Qed.

Lemma without_Contains (c : ascii) (s : string) :
  gostrings.Contains s (str c) = false -> without_byte c s = true.
Proof.
  unfold without_byte, str. induction s as [|a s IH]; [reflexivity|].
  cbn [gostrings.Contains gostrings.HasPrefix all_bytes].
  rewrite HasPrefix_empty, andb_true_r.
  intros [Ha Hs]%orb_false_iff. rewrite Ha, (IH Hs). reflexivity.
Qed.

Lemma ReplaceAll_without (c : ascii) (old new s : string) :
  without_byte c s = true ->
  gostrings.ReplaceAll s (String c old) new = s.
Proof.
  unfold gostrings.ReplaceAll, without_byte.
  induction s as [|a s IH]; intros Hs; [reflexivity|].
  cbn [all_bytes] in Hs. apply andb_prop in Hs as [Ha Hs].
  apply negb_true_iff in Ha.
  cbn [gostrings.ReplaceAll_from gostrings.HasPrefix].
  rewrite Ha, (IH Hs). reflexivity.
Qed.

Lemma reverse_app (s t : string) :
  gostrings.reverse (s +:+ t) = gostrings.reverse t +:+ gostrings.reverse s.
Proof.
  induction s as [|c s IH].
  - change (EmptyString +:+ t) with t. symmetry. apply string_app_nil_r.
  - change (String c s +:+ t) with (String c (s +:+ t)).
    rewrite !reverse_cons, IH, string_app_assoc. reflexivity.
Qed.

Lemma reverse_involutive (s : string) :
  gostrings.reverse (gostrings.reverse s) = s.
Proof.
  induction s as [|c s IH]; [reflexivity|].
  rewrite reverse_cons, reverse_app, IH. reflexivity.
Qed.

Lemma trim_by_width (width : string -> nat) (skip : nat) (s : string) :
  width EmptyString = 0%nat ->
  width (gostrings.trim_by width skip s) = 0%nat.
Proof.
  intros Hnil. revert skip. induction s as [|c s IH]; intros skip; [exact Hnil|].
  cbn [gostrings.trim_by]. destruct skip as [|k]; [|apply IH].
  destruct (width (String c s)) as [|k] eqn:Hw; [exact Hw|apply IH].
Qed.

Lemma trim_by_suffix (width : string -> nat) (skip : nat) (s : string) :
  exists u, s = u +:+ gostrings.trim_by width skip s.
Proof.
  revert skip. induction s as [|c s IH]; intros skip; [exists EmptyString; reflexivity|].
  cbn [gostrings.trim_by].
  assert (Hskip : forall k, exists u,
            String c s = u +:+ gostrings.trim_by width k s).
  { intros k. destruct (IH k) as [u Hu]. exists (String c u).
    change (String c u +:+ gostrings.trim_by width k s)
      with (String c (u +:+ gostrings.trim_by width k s)).
    rewrite <- Hu. reflexivity. }
  destruct skip as [|k]; [|apply Hskip].
  destruct (width (String c s)) as [|k]; [exists EmptyString; reflexivity|].
  apply Hskip.
Qed.

Lemma trim_by_fixed (width : string -> nat) (s : string) :
  width s = 0%nat -> gostrings.trim_by width 0 s = s.
Proof.
  intros Hw. destruct s as [|c s]; [reflexivity|].
  cbn [gostrings.trim_by]. rewrite Hw. reflexivity.
Qed.

(** What stands before a text that starts with no white-space rune starts
    with none either. *)
Lemma space_width_prefix (p q : string) :
  gostrings.space_width (p +:+ q) = 0%nat -> gostrings.space_width p = 0%nat.
Proof.
  destruct p as [|c [|d1 [|d2 p]]].
  - reflexivity.
  - change (String c EmptyString +:+ q) with (String c q).
    cbn [gostrings.space_width]. destruct (gostrings.is_ascii_space c);
      [|reflexivity].
    discriminate.
  - change (String c (String d1 EmptyString) +:+ q) with (String c (String d1 q)).
    cbn [gostrings.space_width]. destruct (gostrings.is_ascii_space c);
      [discriminate|].
    destruct (byte_is 194 c && (byte_is 133 d1 || byte_is 160 d1));
      [discriminate|reflexivity].
  - change (String c (String d1 (String d2 p)) +:+ q)
      with (String c (String d1 (String d2 (p +:+ q)))).
    cbn [gostrings.space_width]. intros H. exact H.
Qed.

(** [TrimSpace] leaves what it returns alone. *)
Lemma TrimSpace_idempotent (s : string) :
  gostrings.TrimSpace (gostrings.TrimSpace s) = gostrings.TrimSpace s.
Proof.
  unfold gostrings.TrimSpace.
  set (l := gostrings.trim_by gostrings.space_width 0 s).
  set (t := gostrings.trim_by gostrings.space_width_rev 0 (gostrings.reverse l)).
  assert (Hl : gostrings.space_width l = 0%nat)
    by (apply trim_by_width; reflexivity).
  assert (Ht : gostrings.space_width_rev t = 0%nat)
    by (apply trim_by_width; reflexivity).
  destruct (trim_by_suffix gostrings.space_width_rev 0 (gostrings.reverse l))
    as [u Hu]. fold t in Hu.
  assert (Hprefix : l = gostrings.reverse t +:+ gostrings.reverse u).
  { rewrite <- reverse_app, <- Hu, reverse_involutive. reflexivity. }
  rewrite Hprefix in Hl. apply space_width_prefix in Hl.
  rewrite (trim_by_fixed _ _ Hl), reverse_involutive, (trim_by_fixed _ _ Ht).
  reflexivity.
Qed.

Lemma isSimplePlainText_without (input : string) :
  markdown.isSimplePlainText input = true ->
  without_byte "<" input = true /\ without_byte "&" input = true /\
  without_byte newline input = true.
Proof.
  unfold markdown.isSimplePlainText. intros H.
  destruct (String.eqb (gostrings.TrimSpace input) EmptyString); [discriminate|].
  destruct (gostrings.Contains input (str newline)) eqn:Hnl; [discriminate|].
  destruct (existsb (fun pattern => gostrings.Contains input pattern)
              markdown.markdownPatterns) eqn:E; [discriminate|].
  clear H.
  assert (Hnone : forall pattern, In pattern markdown.markdownPatterns ->
                    gostrings.Contains input pattern = false).
  { intros pattern Hin.
    destruct (gostrings.Contains input pattern) eqn:Hc; [|reflexivity].
    assert (Hex : existsb (fun pattern => gostrings.Contains input pattern)
                    markdown.markdownPatterns = true)
      by (apply existsb_exists; exists pattern; split; assumption).
    congruence. }
  split; [|split].
  - apply without_Contains, Hnone. unfold markdown.markdownPatterns. cbn. tauto.
  - apply without_Contains, Hnone. unfold markdown.markdownPatterns. cbn. tauto.
  - apply without_Contains. exact Hnl.
Qed.

Ltac needs_byte :=
  unfold needs; cbn;
  repeat first [ apply Exists_cons_hd; split; reflexivity
               | apply Exists_cons_tl ].

(** Text without a tag, an entity or a line break goes through
    [RichTextToMarkdown] untouched but for the trimming. *)
Lemma RichTextToMarkdown_plain (richtext : string) :
  without_byte "<" richtext = true -> without_byte "&" richtext = true ->
  without_byte newline richtext = true ->
  richtext.RichTextToMarkdown richtext = (gostrings.TrimSpace richtext, None).
Proof.
  intros Hlt Hamp Hnl. unfold richtext.RichTextToMarkdown.
  destruct richtext as [|c s] eqn:Hs; [reflexivity|]. rewrite <- Hs in *.
  assert (Hdiv : String.eqb richtext "<div></div>" = false).
  { apply String.eqb_neq. intros ->. discriminate Hlt. }
  assert (Hnonempty : String.eqb richtext EmptyString = false)
    by (rewrite Hs; reflexivity).
  rewrite Hnonempty, Hdiv. cbn [orb]. cbv zeta.
  unfold richtext.processLists, richtext.processCodeElements,
    richtext.decodeHTMLEntities.
  assert (Hbracket : forall re repl, needs "<" re ->
            regexp.ReplaceAllString re richtext repl = richtext)
    by (intros re repl Hre; apply (ReplaceAllString_needs "<"); assumption).
  assert (Hmatch : forall re, needs "<" re ->
            richtext.MatchString re richtext = false)
    by (intros re Hre; apply (MatchString_needs "<"); assumption).
  repeat first
    [ rewrite (ReplaceAll_without "<" _ _ richtext Hlt)
    | rewrite (ReplaceAll_without "&" _ _ richtext Hamp)
    | rewrite Hbracket by needs_byte
    | rewrite Hmatch by needs_byte
    | progress cbn [orb] ].
  rewrite (ReplaceAllString_needs newline _ richtext _) by (exact Hnl || needs_byte).
  reflexivity.
Qed.

(** X16: plain text there and back.  A text that [MarkdownToRichText]
    takes for simple plain text comes back from [RichTextToMarkdown] as it
    was written, without the white space around it: the two conversions
    undo each other on it, whatever the Markdown renderer is. *)
Theorem plain_text_round_trip (md_Convert : string -> error + string)
    (markdown_ : string) :
  markdown.isSimplePlainText (gostrings.TrimSpace markdown_) = true ->
  markdown.MarkdownToRichText md_Convert markdown_ =
    (gostrings.TrimSpace markdown_, None) /\
  richtext.RichTextToMarkdown
    (fst (markdown.MarkdownToRichText md_Convert markdown_)) =
    (gostrings.TrimSpace markdown_, None).
Proof.
  intros Hplain.
  assert (Hto : markdown.MarkdownToRichText md_Convert markdown_ =
                (gostrings.TrimSpace markdown_, None)).
  { unfold markdown.MarkdownToRichText.
    destruct (gostrings.TrimSpace markdown_) as [|c input]; [reflexivity|].
    rewrite Hplain. reflexivity. }
  split; [exact Hto|]. rewrite Hto. cbn [fst].
  destruct (isSimplePlainText_without _ Hplain) as (Hlt & Hamp & Hnl).
  rewrite (RichTextToMarkdown_plain _ Hlt Hamp Hnl), TrimSpace_idempotent.
  reflexivity.
Qed.

Lemma plain_text_round_trip_witness :
  richtext.RichTextToMarkdown
    (fst (markdown.MarkdownToRichText renderBold "  Buy milk today  ")) =
  (gostrings.TrimSpace "  Buy milk today  ", None).
Proof.
  apply (plain_text_round_trip renderBold "  Buy milk today  ").
  vm_compute. reflexivity.
Defined.

(** X17: what [MarkdownToRichText] hands back.  Whatever the renderer
    does, the text returned has no white space at its start or at its end,
    and with an error the text returned is empty: no half-converted rich
    text leaves the function. *)
Theorem MarkdownToRichText_trimmed_or_empty
    (md_Convert : string -> error + string) (markdown_ : string) :
  gostrings.TrimSpace (fst (markdown.MarkdownToRichText md_Convert markdown_)) =
    fst (markdown.MarkdownToRichText md_Convert markdown_) /\
  (snd (markdown.MarkdownToRichText md_Convert markdown_) <> None ->
   fst (markdown.MarkdownToRichText md_Convert markdown_) = EmptyString).
Proof.
  unfold markdown.MarkdownToRichText.
  destruct (gostrings.TrimSpace markdown_) as [|c input] eqn:Hinput.
  - split; [reflexivity|intros _; reflexivity].
  - destruct (markdown.isSimplePlainText (String c input)).
    + cbn [fst snd]. split; [|intros H; contradiction].
      rewrite <- Hinput. apply TrimSpace_idempotent.
    + destruct (md_Convert (String c input)) as [err|html].
      * split; [reflexivity|intros _; reflexivity].
      * destruct (String.eqb _ EmptyString || String.eqb _ "<div></div>").
        -- split; [reflexivity|intros _; reflexivity].
        -- destruct (markdown.ValidateBasecampHTML
                       (gostrings.TrimSpace (markdown.postProcessHTML html))).
           ++ split; [reflexivity|intros _; reflexivity].
           ++ cbn [fst snd]. split; [apply TrimSpace_idempotent|].
              intros H; contradiction.
Qed.

(** ** The user resolver *)

Lemma HasPrefix_contains_empty (s : string) :
  gostrings.Contains s EmptyString = true.
Proof. destruct s; reflexivity. Qed.

Section UserResolverFacts.
Variable ToLower : string -> string.

Lemma first_person_In (test : Person -> bool) (ps : list Person) (id : Z) :
  utils.first_person test ps = Some id ->
  exists p, In p ps /\ Person_ID p = id /\ test p = true.
Proof.
  unfold utils.first_person. destruct (List.find test ps) as [p|] eqn:Hfind;
    [|discriminate].
  intros [= <-]. apply List.find_some in Hfind as [Hin Ht].
  exists p. repeat split; assumption.
Qed.

(** An identifier is resolved to the ID of a person of the project. *)
Lemma resolveIdentifier_In (ur : utils.UserResolver) (identifier : string)
    (id : Z) :
  utils.resolveIdentifier ToLower ur identifier = (id, true) ->
  exists p, In p (utils.people ur) /\ Person_ID p = id.
Proof.
  assert (Hname : forall name, utils.findByName ToLower ur name = (id, true) ->
            exists p, In p (utils.people ur) /\ Person_ID p = id).
  { intros name. unfold utils.findByName.
    repeat match goal with
      | |- context [utils.first_person ?t ?ps] =>
        let H := fresh "H" in
        destruct (utils.first_person t ps) eqn:H;
          [apply first_person_In in H as (p & Hin & Hid & _);
           intros [= <-]; exists p; split; assumption|]
      end.
    discriminate. }
  assert (Hemail : forall email, utils.findByEmail ToLower ur email = (id, true) ->
            exists p, In p (utils.people ur) /\ Person_ID p = id).
  { intros email. unfold utils.findByEmail.
    match goal with
    | |- context [utils.first_person ?t ?ps] =>
      destruct (utils.first_person t ps) eqn:H;
        [apply first_person_In in H as (p & Hin & Hid & _);
         intros [= <-]; exists p; split; assumption|discriminate]
    end. }
  unfold utils.resolveIdentifier.
  destruct (String.eqb _ EmptyString); [discriminate|].
  destruct (gostrings.HasPrefix _ "@"); [apply Hname|].
  destruct (gostrings.Contains _ "@"); [apply Hemail|].
  destruct (utils.findByName ToLower ur _) as [id' [|]] eqn:Hfind.
  - intros [= <-]. exact (Hname _ Hfind).
  - apply Hemail.
Qed.

Lemma ResolveUsers_loop_spec (ur : utils.UserResolver)
    (identifiers : list string) (personIDs : list Z) (notFound : list string) :
  NoDup personIDs ->
  let (ids, missing) :=
    utils.ResolveUsers_loop ToLower ur identifiers personIDs notFound in
  NoDup ids /\
  (forall id, In id ids <->
     In id personIDs \/
     exists i, In i (named identifiers) /\ utils.resolveIdentifier ToLower ur i = (id, true)) /\
  missing = notFound ++
    List.filter (fun i => negb (snd (utils.resolveIdentifier ToLower ur i))) (named identifiers).
Proof.
  revert personIDs notFound.
  induction identifiers as [|identifier rest IH]; intros personIDs notFound Hnd.
  - cbn. split; [exact Hnd|]. split; [|rewrite app_nil_r; reflexivity].
    intros id. split; [intros H; left; exact H|].
    intros [H|(i & [] & _)]. exact H.
  - cbn [utils.ResolveUsers_loop]. unfold named. cbn [map List.filter].
    fold (named rest).
    destruct (String.eqb (gostrings.TrimSpace identifier) EmptyString) eqn:Hblank;
      cbn [negb]; [apply IH, Hnd|].
    cbv beta. set (i := gostrings.TrimSpace identifier) in *.
    destruct (utils.resolveIdentifier ToLower ur i) as [personID [|]] eqn:Hres;
      cbn [snd negb List.filter]; rewrite ?Hres; cbn [snd negb].
    + destruct (existsb (fun id => id =? personID) personIDs) eqn:Hdup;
        cbn [negb].
      * specialize (IH personIDs notFound Hnd).
        destruct (utils.ResolveUsers_loop ToLower ur rest personIDs notFound)
          as [ids missing].
        destruct IH as (Hnd' & Hin & Hmiss). split; [exact Hnd'|].
        split; [|exact Hmiss]. intros id. rewrite Hin.
        apply existsb_exists in Hdup as (x & Hx & Heq%Z.eqb_eq). subst x.
        split.
        -- intros [H|(j & Hj & Hr)]; [left; exact H|].
           right. exists j. split; [right; exact Hj|exact Hr].
        -- intros [H|(j & [<-|Hj] & Hr)]; [left; exact H| |].
           ++ left. rewrite Hres in Hr. injection Hr as <-. exact Hx.
           ++ right. exists j. split; assumption.
      * assert (Hfresh : ~ In personID personIDs).
        { intros Hin. assert (Hex : existsb (fun id => id =? personID)
                                      personIDs = true).
          { apply existsb_exists. exists personID.
            split; [exact Hin|apply Z.eqb_refl]. }
          congruence. }
        assert (Hnd1 : NoDup (personIDs ++ [personID])).
        { apply NoDup_app. split; [exact Hnd|]. split.
          - intros x Hx Hx'. apply list_elem_of_In in Hx.
            apply list_elem_of_In in Hx'. destruct Hx' as [<-|[]].
            exact (Hfresh Hx).
          - apply NoDup_singleton. }
        specialize (IH (personIDs ++ [personID]) notFound Hnd1).
        destruct (utils.ResolveUsers_loop ToLower ur rest
                    (personIDs ++ [personID]) notFound) as [ids missing].
        destruct IH as (Hnd' & Hin & Hmiss). split; [exact Hnd'|].
        split; [|exact Hmiss]. intros id. rewrite Hin, in_app_iff. split.
        -- intros [[H|[<-|[]]]|(j & Hj & Hr)].
           ++ left. exact H.
           ++ right. exists i. split; [left; reflexivity|exact Hres].
           ++ right. exists j. split; [right; exact Hj|exact Hr].
        -- intros [H|(j & [<-|Hj] & Hr)].
           ++ left. left. exact H.
           ++ left. right. left. rewrite Hres in Hr. injection Hr as <-.
              reflexivity.
           ++ right. exists j. split; assumption.
    + specialize (IH personIDs (notFound ++ [i]) Hnd).
      destruct (utils.ResolveUsers_loop ToLower ur rest personIDs
                  (notFound ++ [i])) as [ids missing].
      destruct IH as (Hnd' & Hin & Hmiss). split; [exact Hnd'|].
      split; [|rewrite Hmiss, <- app_assoc; reflexivity].
      intros id. rewrite Hin. split.
      * intros [H|(j & Hj & Hr)]; [left; exact H|].
        right. exists j. split; [right; exact Hj|exact Hr].
      * intros [H|(j & [<-|Hj] & Hr)]; [left; exact H| |].
        -- rewrite Hres in Hr. discriminate.
        -- right. exists j. split; assumption.
Qed.

(** X18: what [ResolveUsers] returns.  Without an error the IDs hold no
    ID twice, every identifier that is not blank has been resolved, and
    the IDs are exactly those that the identifiers resolve to, each the ID
    of a person of the project.  With an error no ID is returned: the
    error is that of the fetch of the people, or it names, in their order,
    the identifiers that resolve to nobody. *)
Theorem ResolveUsers_result (answer : error + list Person)
    (ur : utils.UserResolver) (identifiers : list string) :
  match utils.ResolveUsers ToLower answer ur identifiers with
  | (ids, None, ur') =>
    NoDup ids /\
    Forall (fun i => snd (utils.resolveIdentifier ToLower ur' i) = true) (named identifiers) /\
    (forall id, In id ids <->
       exists i, In i (named identifiers) /\ utils.resolveIdentifier ToLower ur' i = (id, true)) /\
    (forall id, In id ids ->
       exists p, In p (utils.people ur') /\ Person_ID p = id)
  | (ids, Some err, ur') =>
    ids = [] /\
    ((exists cause,
        answer = inl cause /\ utils.cached ur = false /\ ur' = ur /\
        err = wrapError "failed to fetch project people" cause) \/
     (exists notFound,
        notFound <> [] /\
        notFound = List.filter (fun i => negb (snd (utils.resolveIdentifier ToLower ur' i)))
                     (named identifiers) /\
        err = utils.errNotFound notFound))
  end.
Proof.
  unfold utils.ResolveUsers, utils.ensurePeopleCached.
  assert (Hloop : forall ur1,
    match
      (let (personIDs, notFound) :=
         utils.ResolveUsers_loop ToLower ur1 identifiers [] [] in
       if Nat.ltb 0 (length notFound)
       then ([], Some (utils.errNotFound notFound), ur1)
       else (personIDs, None, ur1))
    with
    | (ids, None, ur') =>
      NoDup ids /\
      Forall (fun i => snd (utils.resolveIdentifier ToLower ur' i) = true) (named identifiers) /\
      (forall id, In id ids <->
         exists i, In i (named identifiers) /\ utils.resolveIdentifier ToLower ur' i = (id, true)) /\
      (forall id, In id ids ->
         exists p, In p (utils.people ur') /\ Person_ID p = id)
    | (ids, Some err, ur') =>
      ids = [] /\
      ((exists cause,
          answer = inl cause /\ utils.cached ur = false /\ ur' = ur /\
          err = wrapError "failed to fetch project people" cause) \/
       (exists notFound,
          notFound <> [] /\
          notFound = List.filter (fun i => negb (snd (utils.resolveIdentifier ToLower ur' i)))
                       (named identifiers) /\
          err = utils.errNotFound notFound))
    end).
  { intros ur1.
    pose proof (ResolveUsers_loop_spec ur1 identifiers [] [] (NoDup_nil_2 (A:=Z)))
      as Hspec.
    destruct (utils.ResolveUsers_loop ToLower ur1 identifiers [] [])
      as [ids missing].
    destruct Hspec as (Hnd & Hin & Hmiss). cbn [app] in Hmiss.
    destruct missing as [|m missing]; cbn [length Nat.ltb Nat.leb].
    - split; [exact Hnd|].
      assert (Hall : Forall (fun i => snd (utils.resolveIdentifier ToLower ur1 i) = true)
                       (named identifiers)).
      { apply List.Forall_forall. intros i Hi.
        destruct (snd (utils.resolveIdentifier ToLower ur1 i)) eqn:Hs; [reflexivity|].
        assert (Hf : In i (List.filter (fun i => negb (snd (utils.resolveIdentifier ToLower ur1 i)))
                             (named identifiers))).
        { apply List.filter_In. split; [exact Hi|]. rewrite Hs. reflexivity. }
        rewrite <- Hmiss in Hf. contradiction. }
      split; [exact Hall|].
      assert (Hiff : forall id, In id ids <->
                exists i, In i (named identifiers) /\ utils.resolveIdentifier ToLower ur1 i = (id, true)).
      { intros id. rewrite Hin. split; [intros [[]|H]; exact H|].
        intros H. right. exact H. }
      split; [exact Hiff|].
      intros id Hid. apply Hiff in Hid as (i & _ & Hr).
      exact (resolveIdentifier_In _ _ _ Hr).
    - split; [reflexivity|]. right. exists (m :: missing).
      split; [discriminate|]. split; [exact Hmiss|reflexivity]. }
  destruct (utils.cached ur) eqn:Hcached; [apply Hloop|].
  destruct answer as [cause|ps]; [|apply Hloop].
  split; [reflexivity|]. left. exists cause. repeat split.
Qed.

Lemma find_by_ID (ur : utils.UserResolver) (identifier : string) (id : Z) :
  utils.resolveIdentifier ToLower ur identifier = (id, true) ->
  exists p, List.find (fun p => Person_ID p =? id) (utils.people ur) = Some p /\
            In p (utils.people ur) /\ Person_ID p = id.
Proof.
  intros Hres. apply resolveIdentifier_In in Hres as (q & Hq & Hid).
  destruct (List.find (fun p => Person_ID p =? id) (utils.people ur))
    as [p|] eqn:Hfind.
  - apply List.find_some in Hfind as Hp. destruct Hp as [Hin Heq%Z.eqb_eq].
    exists p. repeat split; assumption.
  - apply (List.find_none _ _ Hfind) in Hq. apply Z.eqb_neq in Hq. contradiction.
Qed.

Lemma ResolvePeople_loop_spec (ur : utils.UserResolver)
    (identifiers : list string) (found : list Person) (notFound : list string) :
  let (found', missing) :=
    utils.ResolvePeople_loop ToLower ur identifiers found notFound in
  missing = notFound ++
    List.filter (fun i => negb (snd (utils.resolveIdentifier ToLower ur i)))
      (named identifiers) /\
  exists ps,
    found' = found ++ ps /\
    Forall2 (fun i p => In p (utils.people ur) /\
                        utils.resolveIdentifier ToLower ur i = (Person_ID p, true))
      (List.filter (fun i => snd (utils.resolveIdentifier ToLower ur i))
         (named identifiers)) ps.
Proof.
  revert found notFound.
  induction identifiers as [|identifier rest IH]; intros found notFound.
  - cbn. rewrite app_nil_r. split; [reflexivity|]. exists [].
    rewrite app_nil_r. split; [reflexivity|constructor].
  - cbn [utils.ResolvePeople_loop]. unfold named. cbn [map List.filter].
    fold (named rest).
    destruct (String.eqb (gostrings.TrimSpace identifier) EmptyString) eqn:Hblank;
      cbn [negb]; [apply IH|].
    cbv beta. set (i := gostrings.TrimSpace identifier) in *.
    destruct (utils.resolveIdentifier ToLower ur i) as [personID [|]] eqn:Hres;
      cbn [snd negb List.filter]; rewrite ?Hres; cbn [snd negb].
    + destruct (find_by_ID _ _ _ Hres) as (p & Hfind & Hin & Hid).
      rewrite Hfind. specialize (IH (found ++ [p]) notFound).
      destruct (utils.ResolvePeople_loop ToLower ur rest (found ++ [p]) notFound)
        as [found' missing].
      destruct IH as (Hmiss & ps & Hfound & Hall). split; [exact Hmiss|].
      exists (p :: ps). split; [rewrite Hfound, <- app_assoc; reflexivity|].
      constructor; [|exact Hall]. split; [exact Hin|]. rewrite Hid. exact Hres.
    + specialize (IH found (notFound ++ [i])).
      destruct (utils.ResolvePeople_loop ToLower ur rest found (notFound ++ [i]))
        as [found' missing].
      destruct IH as (Hmiss & ps & Hfound & Hall).
      split; [rewrite Hmiss, <- app_assoc; reflexivity|].
      exists ps. split; assumption.
Qed.

(** X19: what [ResolvePeople] returns.  Without an error it returns one
    person for each identifier that is not blank, in the order of the
    identifiers and as often as a person is named: a person of the project
    whose ID the identifier resolves to.  With an error it returns
    nobody. *)
Theorem ResolvePeople_result (answer : error + list Person)
    (ur : utils.UserResolver) (identifiers : list string) :
  match utils.ResolvePeople ToLower answer ur identifiers with
  | (ps, None, ur') =>
    Forall2 (fun i p => In p (utils.people ur') /\
                        utils.resolveIdentifier ToLower ur' i = (Person_ID p, true))
      (named identifiers) ps
  | (ps, Some err, ur') =>
    ps = [] /\
    ((exists cause,
        answer = inl cause /\ utils.cached ur = false /\ ur' = ur /\
        err = wrapError "failed to fetch project people" cause) \/
     (exists notFound,
        notFound <> [] /\
        notFound =
          List.filter (fun i => negb (snd (utils.resolveIdentifier ToLower ur' i)))
            (named identifiers) /\
        err = utils.errNotFound notFound))
  end.
Proof.
  unfold utils.ResolvePeople, utils.ensurePeopleCached.
  assert (Hloop : forall ur1,
    match
      (let (found, notFound) :=
         utils.ResolvePeople_loop ToLower ur1 identifiers [] [] in
       if Nat.ltb 0 (length notFound)
       then ([], Some (utils.errNotFound notFound), ur1)
       else (found, None, ur1))
    with
    | (ps, None, ur') =>
      Forall2 (fun i p => In p (utils.people ur') /\
                          utils.resolveIdentifier ToLower ur' i =
                            (Person_ID p, true))
        (named identifiers) ps
    | (ps, Some err, ur') =>
      ps = [] /\
      ((exists cause,
          answer = inl cause /\ utils.cached ur = false /\ ur' = ur /\
          err = wrapError "failed to fetch project people" cause) \/
       (exists notFound,
          notFound <> [] /\
          notFound =
            List.filter
              (fun i => negb (snd (utils.resolveIdentifier ToLower ur' i)))
              (named identifiers) /\
          err = utils.errNotFound notFound))
    end).
  { intros ur1.
    pose proof (ResolvePeople_loop_spec ur1 identifiers [] []) as Hspec.
    destruct (utils.ResolvePeople_loop ToLower ur1 identifiers [] [])
      as [found missing].
    destruct Hspec as (Hmiss & ps & Hfound & Hall). cbn [app] in Hmiss, Hfound.
    subst found.
    destruct missing as [|m missing]; cbn [length Nat.ltb Nat.leb].
    - assert (Hsame : List.filter
                        (fun i => snd (utils.resolveIdentifier ToLower ur1 i))
                        (named identifiers) = named identifiers).
      { clear Hall. induction (named identifiers) as [|i l IHl]; [reflexivity|].
        cbn [List.filter] in *.
        destruct (snd (utils.resolveIdentifier ToLower ur1 i));
          cbn [negb] in *; [|discriminate].
        f_equal. apply IHl, Hmiss. }
      rewrite Hsame in Hall. exact Hall.
    - split; [reflexivity|]. right. exists (m :: missing).
      split; [discriminate|]. split; [exact Hmiss|reflexivity]. }
  destruct (utils.cached ur) eqn:Hcached; [apply Hloop|].
  destruct answer as [cause|ps]; [|apply Hloop].
  split; [reflexivity|]. left. exists cause. repeat split.
Qed.

(** X20: the bare at sign.  In a project that has people, an identifier
    that is an at sign with no name after it is not rejected: it resolves
    to a person of the project, because every name holds the empty
    string. *)
Theorem resolveIdentifier_bare_at (ur : utils.UserResolver)
    (identifier : string) :
  ToLower EmptyString = EmptyString ->
  utils.people ur <> [] ->
  gostrings.TrimSpace identifier = "@" ->
  exists p, In p (utils.people ur) /\
            utils.resolveIdentifier ToLower ur identifier = (Person_ID p, true).
Proof.
  intros Hlower Hpeople Htrim.
  unfold utils.resolveIdentifier. rewrite Htrim.
  change (String.eqb "@" EmptyString) with false.
  change (gostrings.HasPrefix "@" "@") with true.
  change (gostrings.TrimPrefix "@" "@") with EmptyString. cbv iota.
  unfold utils.findByName.
  change (gostrings.TrimSpace EmptyString) with EmptyString. rewrite Hlower.
  repeat match goal with
    | |- context [match utils.first_person ?t ?ps with _ => _ end] =>
      let H := fresh "H" in
      destruct (utils.first_person t ps) eqn:H;
        [apply first_person_In in H as (p & Hin & Hid & _);
         exists p; split; [exact Hin|rewrite Hid; reflexivity]|]
    end.
  exfalso. unfold utils.first_person in *.
  destruct (utils.people ur) as [|q ps]; [contradiction|].
  match goal with
  | H : Person_ID <$> List.find ?t (q :: ps) = None |- _ =>
    cbn [List.find] in H; rewrite HasPrefix_contains_empty in H; discriminate H
  end.
Qed.

End UserResolverFacts.

Lemma resolveIdentifier_bare_at_witness :
  exists p,
    In p [member 7 "Ann Lee" "ann@example.com"] /\
    utils.resolveIdentifier gostrings.ToLower
      {| utils.people := [member 7 "Ann Lee" "ann@example.com"];
         utils.cached := true |} " @ " = (Person_ID p, true).
Proof.
  apply (resolveIdentifier_bare_at gostrings.ToLower
           {| utils.people := [member 7 "Ann Lee" "ann@example.com"];
              utils.cached := true |} " @ ").
  - reflexivity.
  - discriminate.
  - reflexivity.
Defined.

(** ** The column of a card move *)

Lemma first_column_Some (test : Column -> bool) (lists : list Column)
    (n i : nat) :
  card.first_column test lists n = Some i ->
  (n <= i)%nat /\
  exists col, lists !! (i - n)%nat = Some col /\ test col = true.
Proof.
  revert n. induction lists as [|col rest IH]; intros n; [discriminate|].
  cbn [card.first_column]. destruct (test col) eqn:Htest.
  - intros [= <-]. split; [lia|]. exists col. rewrite Nat.sub_diag.
    split; [reflexivity|exact Htest].
  - intros H. apply IH in H as (Hle & c & Hc & Ht). split; [lia|].
    exists c. split; [|exact Ht].
    replace (i - n)%nat with (S (i - S n)) by lia. exact Hc.
Qed.

Lemma first_column_None (test : Column -> bool) (lists : list Column) (n : nat) :
  Forall (fun col => test col = false) lists ->
  card.first_column test lists n = None.
Proof.
  intros Hall. revert n. induction Hall as [|col rest Hcol _ IH]; intros n;
    [reflexivity|].
  cbn [card.first_column]. rewrite Hcol. apply IH.
Qed.

(** X21: the column that [findColumn] finds.  The index returned is
    that of a column of the card table: the column with the ID that the
    name spells when the name is a number, the column with the title of
    the name, letter case apart, when it is not, and the column of the
    card when no name is given.  A name that is a number is never looked
    up as a title: when no column has that ID the result is an error, also
    when a column carries the name as its title. *)
Theorem findColumn_result (ToLower : string -> string) (cardTable : CardTable)
    (columnName : string) (card_ : Card) :
  (forall i, card.findColumn ToLower cardTable columnName card_ = inr i ->
     exists col,
       Lists cardTable !! i = Some col /\
       match columnName with
       | EmptyString =>
         exists parent, Card_Parent card_ = Some parent /\
                        Column_ID col = Column_ID parent
       | String _ _ =>
         match strconv.ParseInt columnName with
         | Some id => Column_ID col = id
         | None => ToLower (Column_Title col) = ToLower columnName
         end
       end) /\
  (forall id, strconv.ParseInt columnName = Some id ->
     Forall (fun col => Column_ID col <> id) (Lists cardTable) ->
     card.findColumn ToLower cardTable columnName card_ =
     inl (errorString
            ("column ID " +:+ strconv.FormatInt id
             +:+ " not found in card table '" +:+ CardTable_Title cardTable
             +:+ "'"))).
Proof.
  unfold card.findColumn. split.
  - intros i. destruct columnName as [|c name]; cbn [String.eqb negb].
    + destruct (Card_Parent card_) as [parent|]; [|discriminate].
      destruct (card.first_column _ (Lists cardTable) 0) as [j|] eqn:Hfirst;
        [|discriminate].
      intros [= <-]. apply first_column_Some in Hfirst as (_ & col & Hcol & Ht).
      rewrite Nat.sub_0_r in Hcol. exists col. split; [exact Hcol|].
      exists parent. split; [reflexivity|]. apply Z.eqb_eq, Ht.
    + replace (String.eqb (String c name) EmptyString) with false by reflexivity.
      cbn [negb].
      destruct (strconv.ParseInt (String c name)) as [id|].
      * destruct (card.first_column _ (Lists cardTable) 0) as [j|] eqn:Hfirst;
          [|discriminate].
        intros [= <-]. apply first_column_Some in Hfirst as (_ & col & Hcol & Ht).
        rewrite Nat.sub_0_r in Hcol. exists col. split; [exact Hcol|].
        apply Z.eqb_eq, Ht.
      * destruct (card.first_column _ (Lists cardTable) 0) as [j|] eqn:Hfirst;
          [|discriminate].
        intros [= <-]. apply first_column_Some in Hfirst as (_ & col & Hcol & Ht).
        rewrite Nat.sub_0_r in Hcol. exists col. split; [exact Hcol|].
        apply String.eqb_eq, Ht.
  - intros id Hparse Hall.
    destruct columnName as [|c name]; [discriminate Hparse|].
    replace (String.eqb (String c name) EmptyString) with false by reflexivity.
    cbn [negb]. rewrite Hparse.
    rewrite first_column_None; [reflexivity|].
    eapply List.Forall_impl; [|exact Hall].
    intros col Hne. apply Z.eqb_neq, Hne.
Qed.

Example findColumn_year_as_title :
  card.findColumn gostrings.ToLower
    (cardTableOf "Board" [column 1 "Backlog"; column 2 "2024"]) "2024"
    (cardIn None)
  = inl (errorString "column ID 2024 not found in card table 'Board'").
Proof. vm_compute. reflexivity. Qed.

(** ** Headers on which the Link parser terminates *)

Lemma turn_start_no_equals (prev : ascii) (s : string) :
  turn_start prev s -> starts_with_equals s = false.
Proof.
  intros [Hafter [Hdelim|Hstart]]; [|exact Hstart].
  destruct s as [|c s]; [reflexivity|]. cbn in *. rewrite Hdelim in Hafter.
  destruct (Ascii.eqb c "="); [discriminate|reflexivity].
Qed.

Lemma equals_after_tail (prev c : ascii) (s : string) :
  equals_after prev (String c s) = true -> equals_after c s = true.
Proof. cbn [equals_after]. intros [_ H]%andb_prop. exact H. Qed.

Lemma skip_blank_after (prev : ascii) (s : string) :
  equals_after prev s = true ->
  exists prev',
    equals_after prev' (skip_blank s) = true /\
    (is_delimiter prev' = true \/ prev' = prev /\ skip_blank s = s).
Proof.
  revert prev. induction s as [|c s IH]; intros prev Hs.
  - exists prev. split; [reflexivity|right; split; reflexivity].
  - cbn [skip_blank]. destruct (is_sp_tab c) eqn:Hc.
    + destruct (IH c (equals_after_tail _ _ _ Hs)) as (p & Hp & [Hd|[-> Hsame]]).
      * exists p. split; [exact Hp|left; exact Hd].
      * exists c. split; [exact Hp|left].
        unfold is_delimiter. rewrite Hc. reflexivity.
    + exists prev. split; [exact Hs|right; split; reflexivity].
Qed.

Lemma skip_blank_semi_after (prev : ascii) (s : string) :
  turn_start prev s ->
  exists prev', turn_start prev' (skip_blank_semi s).
Proof.
  revert prev. induction s as [|c s IH]; intros prev Hs.
  - exists prev. exact Hs.
  - cbn [skip_blank_semi]. destruct (is_sp_tab c || Ascii.eqb c ";") eqn:Hc.
    + apply (IH c). split; [exact (equals_after_tail _ _ _ (proj1 Hs))|left].
      unfold is_delimiter. apply orb_true_iff in Hc as [-> | ->];
        [reflexivity|rewrite orb_true_r; reflexivity].
    + exists prev. exact Hs.
Qed.

Lemma read_name_after (prev : ascii) (s : string) :
  equals_after prev s = true ->
  exists prev', equals_after prev' (snd (read_name s)) = true.
Proof.
  revert prev. induction s as [|c s IH]; intros prev Hs.
  - exists prev. reflexivity.
  - cbn [read_name].
    destruct (Ascii.eqb c "=" || Ascii.eqb c "," || is_sp_tab c).
    + exists prev. exact Hs.
    + destruct (IH c (equals_after_tail _ _ _ Hs)) as (p & Hp).
      destruct (read_name s) as [name rest]. exists p. exact Hp.
Qed.

Lemma read_unquoted_after (prev : ascii) (s : string) :
  equals_after prev s = true ->
  exists prev', turn_start prev' (snd (read_unquoted s)).
Proof.
  revert prev. induction s as [|c s IH]; intros prev Hs.
  - exists prev. split; [reflexivity|right; reflexivity].
  - cbn [read_unquoted].
    destruct (is_sp_tab c || Ascii.eqb c ";" || Ascii.eqb c ",") eqn:Hc.
    + exists prev. split; [exact Hs|right]. cbn.
      destruct (Ascii.eqb_spec c "=") as [->|]; [discriminate Hc|reflexivity].
    + destruct (IH c (equals_after_tail _ _ _ Hs)) as (p & Hp).
      destruct (read_unquoted s) as [value rest]. exists p. exact Hp.
Qed.

Lemma read_quoted_after (prev before : ascii) (seen s : string) :
  equals_after prev s = true ->
  exists prev', turn_start prev' (snd (read_quoted before seen s)).
Proof.
  revert prev before seen. induction s as [|c s IH]; intros prev before seen Hs.
  - exists prev. split; [reflexivity|right; reflexivity].
  - cbn [read_quoted].
    destruct (Ascii.eqb c dquote && negb (Ascii.eqb before backslash)) eqn:Hc.
    + exists c. split; [exact (equals_after_tail _ _ _ Hs)|left].
      apply andb_prop in Hc as [Hq _]. unfold is_delimiter. rewrite Hq.
      rewrite !orb_true_r. reflexivity.
    + exact (IH c c (String c seen) (equals_after_tail _ _ _ Hs)).
Qed.

Lemma read_value_after (prev : ascii) (s : string) :
  equals_after prev s = true ->
  exists prev', turn_start prev' (snd (read_value s)).
Proof.
  intros Hs. unfold read_value.
  destruct (skip_blank_after prev s Hs) as (p & Hp & _).
  destruct (skip_blank s) as [|c s1]; [exists p; split;
    [reflexivity|right; reflexivity]|].
  destruct (Ascii.eqb c "=") eqn:Hc.
  - destruct (skip_blank_after c s1 (equals_after_tail _ _ _ Hp)) as (p1 & Hp1 & _).
    destruct (skip_blank s1) as [|q s3]; [exists p1; split;
      [reflexivity|right; reflexivity]|].
    destruct (Ascii.eqb q dquote).
    + exact (read_quoted_after q q EmptyString s3 (equals_after_tail _ _ _ Hp1)).
    + exact (read_unquoted_after p1 (String q s3) Hp1).
  - exists p. split; [exact Hp|right]. cbn. exact Hc.
Qed.

Lemma read_url_after (prev : ascii) (s : string) :
  equals_after prev s = true ->
  exists prev', turn_start prev' (snd (read_url s)).
Proof.
  unfold read_url. revert prev. induction s as [|c s IH]; intros prev Hs.
  - exists prev. split; [reflexivity|right; reflexivity].
  - cbn [until_gt]. destruct (Ascii.eqb c ">") eqn:Hc.
    + exists c. split; [exact (equals_after_tail _ _ _ Hs)|left].
      unfold is_delimiter. rewrite Hc, orb_true_r. reflexivity.
    + destruct (IH c (equals_after_tail _ _ _ Hs)) as (p & Hp).
      destruct (until_gt s) as [[u r]|]; exists p; exact Hp.
Qed.

Lemma params_loop_terminates (fuel : nat) (s : string)
    (params : gmap string string) (prev : ascii) :
  turn_start prev s -> (String.length s < fuel)%nat ->
  exists params' rest prev',
    params_loop fuel s params = Some (params', rest) /\
    equals_after prev' rest = true /\
    (String.length rest <= String.length s)%nat.
Proof.
  revert s params prev.
  induction fuel as [|fuel IH]; intros s params prev Hs Hfuel; [lia|].
  destruct s as [|c0 s0].
  { exists params, EmptyString, prev. split; [reflexivity|].
    split; [reflexivity|]. cbn. lia. }
  rewrite params_loop_turn. cbv iota.
  set (s := String c0 s0) in *.
  destruct (skip_blank_semi_after prev s Hs) as (p0 & Hturn).
  pose proof (skip_blank_semi_length s) as Hlen0.
  destruct (skip_blank_semi s) as [|c s1] eqn:Hskip.
  { exists params, EmptyString, p0. split; [reflexivity|].
    split; [reflexivity|]. cbn. lia. }
  assert (Hrun :
    exists params' rest prev',
      (if Ascii.eqb c ","
       then Some (params, s1)
       else
         let (paramName, s2) := read_name (String c s1) in
         match paramName with
         | EmptyString => params_loop fuel (String c s1) params
         | String _ _ =>
           let (paramValue, s3) := read_value s2 in
           params_loop fuel s3 (<[paramName := paramValue]> params)
         end) = Some (params', rest) /\
      equals_after prev' rest = true /\
      (String.length rest <= String.length (String c s1))%nat).
  { destruct (Ascii.eqb c ",") eqn:Hcomma.
    - exists params, s1, c.
      split; [reflexivity|]. split; [exact (equals_after_tail _ _ _ (proj1 Hturn))|].
      cbn. lia.
    - pose proof (read_name_length (String c s1)) as Hnlen.
      destruct (read_name_after p0 (String c s1) (proj1 Hturn)) as (p2 & Hp2).
      pose proof (read_name_empty c s s1 Hskip Hcomma) as Hname.
      destruct (read_name (String c s1)) as [paramName s2] eqn:Hread.
      cbn [fst snd] in *.
      destruct paramName as [|n0 name].
      { specialize (Hname eq_refl). subst c.
        apply turn_start_no_equals in Hturn. discriminate Hturn. }
      pose proof (read_value_length s2) as Hvlen.
      destruct (read_value_after p2 s2 Hp2) as (p3 & Hp3).
      destruct (read_value s2) as [paramValue s3]. cbn [snd] in *.
      cbn [String.length] in Hnlen.
      destruct (IH s3 (<[String n0 name := paramValue]> params) p3 Hp3
                  ltac:(cbn [String.length] in *; lia))
        as (params' & rest & p' & Hloop & Hafter & Hlen).
      exists params', rest, p'. split; [exact Hloop|]. split; [exact Hafter|].
      cbn [String.length] in *. lia. }
  destruct Hrun as (params' & rest & p' & Hrun & Hafter & Hlen).
  exists params', rest, p'. split; [exact Hrun|]. split; [exact Hafter|]. lia.
Qed.

Lemma entries_loop_terminates (fuel : nat) (s : string)
    (entries : list LinkEntry) (prev : ascii) :
  equals_after prev s = true -> (String.length s < fuel)%nat ->
  exists r, entries_loop fuel s entries = Some r.
Proof.
  revert s entries prev.
  induction fuel as [|fuel IH]; intros s entries prev Hs Hfuel; [lia|].
  rewrite entries_loop_turn.
  destruct (skip_blank_after prev s Hs) as (p & Hp & _).
  pose proof (skip_blank_length s) as Hlen.
  destruct (skip_blank s) as [|c s1]; [exists entries; reflexivity|].
  cbn [String.length] in Hlen.
  destruct (Ascii.eqb c "<").
  - destruct (read_url_after c s1 (equals_after_tail _ _ _ Hp)) as (p2 & Hp2).
    pose proof (read_url_length s1) as Hulen.
    destruct (params_loop_terminates fuel (snd (read_url s1)) ∅ p2 Hp2
                ltac:(lia))
      as (params & s3 & p3 & Hloop & Hafter & Hplen).
    rewrite Hloop.
    destruct (fst (read_url s1)); apply (IH _ _ p3 Hafter); lia.
  - apply (IH _ _ c (equals_after_tail _ _ _ Hp)). lia.
Qed.

(** X22: the headers on which the parser terminates.  On a header in
    which no equals sign stands directly after a space, a tab, a
    semicolon, a closing angle bracket or a double quote (so every
    parameter has a name) [parseLinkHeaderEntries] returns, and
    [parseNextLinkURL] returns the URL of the first of its entries with
    the relation next, or the empty string. *)
Theorem parseLinkHeaderEntries_terminates (linkHeader : string) :
  equals_follow_names linkHeader = true ->
  exists entries,
    parseLinkHeaderEntries linkHeader = Some entries /\
    parseNextLinkURL linkHeader = Some (first_next entries).
Proof.
  intros Hheader.
  assert (Hafter : equals_after "a" linkHeader = true).
  { destruct linkHeader as [|c s]; [reflexivity|]. cbn [equals_after].
    replace (is_delimiter "a") with false by reflexivity.
    rewrite andb_false_r. exact Hheader. }
  destruct (entries_loop_terminates (enough_fuel linkHeader) linkHeader []
              "a"%char Hafter ltac:(unfold enough_fuel; lia)) as (entries & Hrun).
  exists entries. split; [exact Hrun|].
  apply parseNextLinkURL_on_entries. exact Hrun.
Qed.

Lemma parseLinkHeaderEntries_terminates_witness :
  exists entries,
    parseLinkHeaderEntries
      ("<https://a/1?page=1>; " +:+ quoted_rel "prev"
       +:+ ", <https://a/3?page=3>; rel=NEXT; title=x") = Some entries /\
    parseNextLinkURL
      ("<https://a/1?page=1>; " +:+ quoted_rel "prev"
       +:+ ", <https://a/3?page=3>; rel=NEXT; title=x")
    = Some (first_next entries).
Proof.
  apply parseLinkHeaderEntries_terminates. vm_compute. reflexivity.
Defined.

(** ** What the listing of one type returns *)

(** X23: the recordings of [listRecordingsByType].  When the call
    returns without error, its recordings are the pages decoded from the
    first answers of the transport, one page for each answer used, in their
    order; in every other case it returns nil, whatever [GetAll] had
    already put into the slice. *)
Theorem listRecordingsByType_result
    (decode : string -> error + list Recording)
    (url_Parse : string -> option ParsedURL)
    (NewRequestWithContext : string -> string -> option error)
    (c : Client) (context : Context) (path : string)
    (since : option time.Time) (answers : list (error + Response)) :
  match listRecordingsByType decode url_Parse NewRequestWithContext c context
          path since answers with
  | (Returns None, Some recs) =>
    exists pages,
      decoded decode NewRequestWithContext (NewPaginatedRequest c)
        (firstn (length pages) answers) pages /\
      recs = concat pages
  | (Returns None, None) => False
  | (_, Some _) => False
  | (_, None) => True
  end.
Proof.
  unfold listRecordingsByType.
  set (pr := match since with
             | Some cutoff =>
               WithPageCheck (sincePageCheck cutoff)
                 (WithContext context (NewPaginatedRequest c))
             | None => WithContext context (NewPaginatedRequest c)
             end).
  change (GetAll decode url_Parse NewRequestWithContext pr answers path
            (pointer_to_slice_of tRecording) (mkWorld [] 0 [] 0))
    with (GetAll_loop decode url_Parse NewRequestWithContext pr
            (TSlice tRecording) answers path 0 (mkWorld [] 0 [] 0)).
  destruct (GetAll_loop decode url_Parse NewRequestWithContext pr
              (TSlice tRecording) answers path 0 (mkWorld [] 0 [] 0))
    as [out w] eqn:Hrun.
  destruct out as [[err|]| | |]; try exact I.
  apply GetAll_loop_slice_grows in Hrun as (pages & Hdec & Hslice).
  exists pages. split; [|exact Hslice].
  assert (Hclient : client pr = c) by (unfold pr; destruct since; reflexivity).
  unfold decoded in *. eapply Forall2_impl; [exact Hdec|].
  intros answer page (p & resp & Hpage). exists p, resp.
  unfold fetch_page in *. rewrite Hclient in Hpage. exact Hpage.
Qed.

(** ** The validator: the first tag *)

Lemma match_here_opt (p : ascii -> bool) (g : nat) (re : regexp.Regexp)
    (ngroups : nat) (s : string) :
  regexp.match_here (regexp.mkPiece p regexp.Opt g :: re) ngroups s =
  match
    match s with
    | String c s' =>
      if p c then regexp.consumed g c (regexp.match_here re ngroups s') else None
    | EmptyString => None
    end
  with
  | Some r => Some r
  | None => regexp.match_here re ngroups s
  end.
Proof. reflexivity. Qed.

(** The end of the tag pattern on the rest of a name and the closing
    bracket. *)
Lemma match_here_tag_name (name post : string) :
  all_bytes tag_name_byte name = true ->
  regexp.match_here
    [regexp.mkPiece tag_name_byte regexp.Star 2;
     regexp.mkPiece (regexp.not_byte ">") regexp.Star 0;
     regexp.mkPiece (Ascii.eqb ">") regexp.One 0] 2
    (name +:+ String ">" post)
  = Some ([name +:+ ">"; EmptyString; name], post).
Proof.
  induction name as [|c name IH]; intros Hname.
  - reflexivity.
  - cbn [all_bytes] in Hname. apply andb_prop in Hname as [Hc Hname].
    change (String c name +:+ String ">" post)
      with (String c (name +:+ String ">" post)).
    rewrite match_here_star, Hc, (IH Hname). reflexivity.
Qed.

Lemma letter_is_no_slash (c : ascii) :
  regexp.letter c = true -> Ascii.eqb "/" c = false.
Proof.
  intros Hc. destruct (Ascii.eqb_spec "/" c) as [<-|]; [discriminate Hc|].
  reflexivity.
Qed.

Lemma match_here_bare_tag (name post : string) :
  is_tag_name name = true ->
  regexp.match_here markdown.tagRegex 2 (bare_tag name +:+ post)
  = Some ([bare_tag name; EmptyString; name], post).
Proof.
  destruct name as [|c name]; [discriminate|]. cbn [is_tag_name].
  intros [Hc Hname]%andb_prop.
  assert (Htext : bare_tag (String c name) +:+ post =
                  String "<" (String c (name +:+ String ">" post))).
  { unfold bare_tag.
    change ("<" +:+ String c name +:+ ">")
      with (String "<" (String c (name +:+ ">"))).
    change (String "<" (String c (name +:+ ">")) +:+ post)
      with (String "<" (String c ((name +:+ ">") +:+ post))).
    rewrite string_app_assoc. reflexivity. }
  rewrite Htext.
  change markdown.tagRegex with
    [regexp.mkPiece (Ascii.eqb "<") regexp.One 0;
     regexp.mkPiece (Ascii.eqb "/") regexp.Opt 1;
     regexp.mkPiece regexp.letter regexp.One 2;
     regexp.mkPiece tag_name_byte regexp.Star 2;
     regexp.mkPiece (regexp.not_byte ">") regexp.Star 0;
     regexp.mkPiece (Ascii.eqb ">") regexp.One 0].
  rewrite match_here_one.
  replace (Ascii.eqb "<" "<")%char with true by reflexivity.
  rewrite match_here_opt, (letter_is_no_slash _ Hc), match_here_one, Hc.
  rewrite (match_here_tag_name _ _ Hname). reflexivity.
Qed.

Lemma find_all_skips (re : regexp.Regexp) (ngroups : nat) (pre s : string) :
  without_byte "<" pre = true ->
  regexp.find_all_from (regexp.mkPiece (Ascii.eqb "<") regexp.One 0 :: re)
    ngroups 0 (pre +:+ s) =
  regexp.find_all_from (regexp.mkPiece (Ascii.eqb "<") regexp.One 0 :: re)
    ngroups 0 s.
Proof.
  unfold without_byte. induction pre as [|a pre IH]; intros Hpre; [reflexivity|].
  cbn [all_bytes] in Hpre. apply andb_prop in Hpre as [Ha Hpre].
  apply negb_true_iff in Ha.
  change (String a pre +:+ s) with (String a (pre +:+ s)).
  cbn [regexp.find_all_from]. rewrite match_here_one.
  rewrite Ascii.eqb_sym, Ha. exact (IH Hpre).
Qed.

(** X24: the first tag is checked.  When the first tag of a text is a
    tag without attributes whose name, in lower case, is not among the
    supported tags, [ValidateBasecampHTML] returns the error that names
    the tag in lower case, whatever follows the tag. *)
Theorem ValidateBasecampHTML_reports_first_tag (pre name post : string) :
  without_byte "<" pre = true ->
  is_tag_name name = true ->
  default false (markdown.supportedTags !! gostrings.ToLower name) = false ->
  markdown.ValidateBasecampHTML (pre +:+ bare_tag name +:+ post) =
  Some (errorString ("unsupported HTML tag: " +:+ gostrings.ToLower name)).
Proof.
  intros Hpre Hname Hunsupported. unfold markdown.ValidateBasecampHTML.
  assert (Hnonempty : exists a t, pre +:+ bare_tag name +:+ post = String a t).
  { destruct pre as [|a pre]; [exists "<"%char; eexists; reflexivity|].
    exists a. eexists. reflexivity. }
  destruct Hnonempty as (a & t & Htext). rewrite Htext, <- Htext.
  unfold regexp.FindAllStringSubmatch.
  change markdown.tagRegex with
    (regexp.mkPiece (Ascii.eqb "<") regexp.One 0 :: tl markdown.tagRegex) at 1.
  rewrite (find_all_skips _ _ _ _ Hpre).
  change (regexp.mkPiece (Ascii.eqb "<") regexp.One 0 :: tl markdown.tagRegex)
    with markdown.tagRegex.
  assert (Hfirst : exists b u, bare_tag name +:+ post = String b u)
    by (exists "<"%char; eexists; reflexivity).
  destruct Hfirst as (b & u & Htag). rewrite Htag.
  cbn [regexp.find_all_from]. rewrite <- Htag.
  rewrite (match_here_bare_tag _ _ Hname).
  cbn [markdown.check_tags length Nat.leb nth]. rewrite Hunsupported.
  reflexivity.
Qed.

Lemma ValidateBasecampHTML_reports_first_tag_witness :
  markdown.ValidateBasecampHTML
    ("Hello " +:+ bare_tag "Script" +:+ "alert(1)</Script>") =
  Some (errorString ("unsupported HTML tag: " +:+ gostrings.ToLower "Script")).
Proof.
  apply ValidateBasecampHTML_reports_first_tag; reflexivity.
Defined.
